(** * swappy-labels: the inbox-labelling pipeline, embedded and verified

    The development follows the TypeScript sources:

    - [src/app/api/gmail/route.ts]: the single-backend route (Gemini with a
      bounded retry), module [SingleBackend];
    - the two-backend route (Claude, then Gemini, then a static default; the
      second document of [src/app/page.tsx]), module [TwoTier];
    - [src/app/api/auth/callback/route.ts], second document: the auth-status
      endpoint, module [AuthCheck].

    JavaScript strings are represented by Rocq strings holding their UTF-8
    encoding.  The mail provider and the two model services are external:
    their answers are read from the [World] the handlers run in. *)

From Stdlib Require Import String Ascii List Bool Arith NArith ZArith QArith Lia.
From Stdlib Require Import DecimalString.
Import ListNotations.

Set Warnings "-register-all".
Local Close Scope Q_scope.
Local Open Scope string_scope.
Local Open Scope list_scope.
Local Open Scope nat_scope.

(** ** The fragment of the JavaScript runtime the handlers rely on *)

Module Js.

(** Thrown values.  The handlers only distinguish [Error] instances (whose
    [message] they report) from anything else. *)
Inductive Thrown : Type :=
| JsError (message : string)
| JsNonError.

(** [error instanceof Error ? error.message : "Unknown error"] *)
Definition error_text (error : Thrown) : string :=
  match error with
  | JsError message => message
  | JsNonError => "Unknown error"
  end.

Definition bytes (codes : list nat) : list ascii := map ascii_of_nat codes.

(** UTF-8 encodings of the code points matched by [\s] and removed by
    [String.prototype.trim] (WhiteSpace and LineTerminator of ECMA-262). *)
Definition white_space : list (list ascii) :=
  map bytes
    [ [9]; [10]; [11]; [12]; [13]; [32];
      [194; 160];                                   (* U+00A0 *)
      [225; 154; 128];                              (* U+1680 *)
      [226; 128; 128]; [226; 128; 129]; [226; 128; 130]; [226; 128; 131];
      [226; 128; 132]; [226; 128; 133]; [226; 128; 134]; [226; 128; 135];
      [226; 128; 136]; [226; 128; 137]; [226; 128; 138];  (* U+2000 - U+200A *)
      [226; 128; 168]; [226; 128; 169];             (* U+2028, U+2029 *)
      [226; 128; 175];                              (* U+202F *)
      [226; 129; 159];                              (* U+205F *)
      [227; 128; 128];                              (* U+3000 *)
      [239; 187; 191] ].                            (* U+FEFF *)

Fixpoint drop_prefix (p l : list ascii) : option (list ascii) :=
  match p, l with
  | [], _ => Some l
  | a :: p', b :: l' => if Ascii.eqb a b then drop_prefix p' l' else None
  | _ :: _, [] => None
  end.

Fixpoint drop_any (table : list (list ascii)) (l : list ascii)
  : option (list ascii) :=
  match table with
  | [] => None
  | p :: table' =>
      match drop_prefix p l with
      | Some rest => Some rest
      | None => drop_any table' l
      end
  end.

(** Removes the white space at the head of [l]; [n] bounds the number of
    code points removed, [length l] always suffices. *)
Fixpoint skip_ws (table : list (list ascii)) (n : nat) (l : list ascii)
  : list ascii :=
  match n with
  | 0 => l
  | S n' =>
      match drop_any table l with
      | Some rest => skip_ws table n' rest
      | None => l
      end
  end.

Definition trimStart_bytes (l : list ascii) : list ascii :=
  skip_ws white_space (length l) l.

Definition trimEnd_bytes (l : list ascii) : list ascii :=
  rev (skip_ws (map (@rev ascii) white_space) (length l) (rev l)).

(** [s.trim()] *)
Definition trim (s : string) : string :=
  string_of_list_ascii
    (trimEnd_bytes (trimStart_bytes (list_ascii_of_string s))).

(** [s.replace(/\s+/g, " ")]: every maximal run of white space becomes one
    space. *)
Fixpoint collapse_bytes (n : nat) (l : list ascii) : list ascii :=
  match n with
  | 0 => l
  | S n' =>
      match drop_any white_space l with
      | Some rest => " "%char :: collapse_bytes n' (skip_ws white_space (length rest) rest)
      | None =>
          match l with
          | [] => []
          | a :: l' => a :: collapse_bytes n' l'
          end
      end
  end.

Definition collapse_ws (s : string) : string :=
  let l := list_ascii_of_string s in
  string_of_list_ascii (collapse_bytes (length l) l).

(** [list.includes(s)] on an array of strings *)
Definition includes (list : list string) (s : string) : bool :=
  existsb (String.eqb s) list.

(** Values, as far as [JSON.parse] produces them.  A number keeps its
    lexeme: the handlers never compute with a parsed number. *)
Inductive JsValue : Type :=
| JsUndefined
| JsNull
| JsBool (b : bool)
| JsNumber (lexeme : string)
| JsString (s : string)
| JsArray (items : list JsValue)
| JsObject (props : list (string * JsValue)).

Fixpoint lookup_last (key : string) (props : list (string * JsValue))
  : option JsValue :=
  match props with
  | [] => None
  | (k, v) :: props' =>
      match lookup_last key props' with
      | Some v' => Some v'
      | None => if String.eqb k key then Some v else None
      end
  end.

(** [v.key] for a key that no prototype defines (such as [category] or
    [model]): a [TypeError] on [null] and [undefined], the own property of an
    object (the last binding wins in [JSON.parse]), [undefined] otherwise. *)
Definition get (v : JsValue) (key : string) : Thrown + JsValue :=
  match v with
  | JsUndefined | JsNull =>
      inl (JsError ("Cannot read properties of null (reading '" ++ key ++ "')"))
  | JsObject props =>
      match lookup_last key props with
      | Some x => inr x
      | None => inr JsUndefined
      end
  | _ => inr JsUndefined
  end.

(** *** [JSON.parse] *)

Definition dquote : ascii := ascii_of_nat 34.

(** Writes a text that contains double quotes with single quotes instead. *)
Definition dq (s : string) : string :=
  string_of_list_ascii
    (map (fun a => if Ascii.eqb a "'"%char then dquote else a)
       (list_ascii_of_string s)).

Definition json_ws : list (list ascii) := map bytes [ [9]; [10]; [13]; [32] ].

Definition skip_json_ws (l : list ascii) : list ascii :=
  skip_ws json_ws (length l) l.

Definition is_digit (a : ascii) : bool :=
  (48 <=? nat_of_ascii a) && (nat_of_ascii a <=? 57).

Definition hex_value (a : ascii) : option N :=
  let n := N_of_ascii a in
  (if (48 <=? n) && (n <=? 57) then Some (n - 48)
   else if (65 <=? n) && (n <=? 70) then Some (n - 55)
   else if (97 <=? n) && (n <=? 102) then Some (n - 87)
   else None)%N.

Definition hex4 (a b c d : ascii) : option N :=
  match hex_value a, hex_value b, hex_value c, hex_value d with
  | Some x, Some y, Some z, Some w => Some (((x * 16 + y) * 16 + z) * 16 + w)%N
  | _, _, _, _ => None
  end.

(** One element of a string literal: a byte of the source text, or the
    UTF-16 code unit denoted by a [\uXXXX] escape. *)
Inductive StrItem : Type :=
| Raw (a : ascii)
| CodeUnit (n : N).

Definition simple_escape (e : ascii) : option ascii :=
  match nat_of_ascii e with
  | 34 => Some (ascii_of_nat 34)    (* escaped double quote *)
  | 92 => Some (ascii_of_nat 92)    (* escaped backslash *)
  | 47 => Some (ascii_of_nat 47)    (* escaped slash *)
  | 98 => Some (ascii_of_nat 8)     (* backslash b *)
  | 102 => Some (ascii_of_nat 12)   (* backslash f *)
  | 110 => Some (ascii_of_nat 10)   (* backslash n *)
  | 114 => Some (ascii_of_nat 13)   (* backslash r *)
  | 116 => Some (ascii_of_nat 9)    (* backslash t *)
  | _ => None
  end.

(** The characters after an opening quote, up to the closing quote. *)
Fixpoint parse_string_body (l : list ascii)
  : option (list StrItem * list ascii) :=
  match l with
  | [] => None
  | a :: l' =>
      if Ascii.eqb a dquote then Some ([], l')
      else if Ascii.eqb a "\"%char then
        match l' with
        | [] => None
        | e :: l2 =>
            match simple_escape e with
            | Some c =>
                match parse_string_body l2 with
                | Some (items, rest) => Some (Raw c :: items, rest)
                | None => None
                end
            | None =>
                if Ascii.eqb e "u"%char then
                  match l2 with
                  | h1 :: h2 :: h3 :: h4 :: l3 =>
                      match hex4 h1 h2 h3 h4 with
                      | Some n =>
                          match parse_string_body l3 with
                          | Some (items, rest) => Some (CodeUnit n :: items, rest)
                          | None => None
                          end
                      | None => None
                      end
                  | _ => None
                  end
                else None
            end
        end
      else if nat_of_ascii a <? 32 then None
      else
        match parse_string_body l' with
        | Some (items, rest) => Some (Raw a :: items, rest)
        | None => None
        end
  end.

Definition utf8 (cp : N) : list ascii :=
  map ascii_of_N
    (if cp <? 128 then [cp]
     else if cp <? 2048 then [192 + cp / 64; 128 + cp mod 64]
     else if cp <? 65536 then
       [224 + cp / 4096; 128 + (cp / 64) mod 64; 128 + cp mod 64]
     else
       [240 + cp / 262144; 128 + (cp / 4096) mod 64;
        128 + (cp / 64) mod 64; 128 + cp mod 64])%N.

Definition is_high_surrogate (n : N) : bool :=
  ((55296 <=? n) && (n <=? 56319))%N.
Definition is_low_surrogate (n : N) : bool :=
  ((56320 <=? n) && (n <=? 57343))%N.

(** The UTF-8 form of a parsed literal; an escaped surrogate pair denotes one
    code point. *)
Fixpoint encode_items (items : list StrItem) : list ascii :=
  match items with
  | [] => []
  | Raw a :: items' => a :: encode_items items'
  | CodeUnit hi :: items' =>
      match items' with
      | CodeUnit lo :: items'' =>
          if is_high_surrogate hi && is_low_surrogate lo
          then utf8 (65536 + (hi - 55296) * 1024 + (lo - 56320))%N
                 ++ encode_items items''
          else utf8 hi ++ encode_items items'
      | _ => utf8 hi ++ encode_items items'
      end
  end.

Definition parse_string (l : list ascii) : option (string * list ascii) :=
  match parse_string_body l with
  | Some (items, rest) => Some (string_of_list_ascii (encode_items items), rest)
  | None => None
  end.

Fixpoint span_digits (l : list ascii) : list ascii * list ascii :=
  match l with
  | a :: l' =>
      if is_digit a
      then let (ds, rest) := span_digits l' in (a :: ds, rest)
      else ([], l)
  | [] => ([], [])
  end.

(** An optional minus sign; a zero or a digit sequence without leading
    zero; an optional fraction; an optional exponent. *)
Definition parse_number (l : list ascii) : option (list ascii * list ascii) :=
  let (sign, l1) :=
    match l with
    | a :: l' => if Ascii.eqb a "-"%char then ([a], l') else ([], l)
    | [] => ([], l)
    end in
  let (int, l2) := span_digits l1 in
  match int with
  | [] => None
  | d :: ds =>
      if Ascii.eqb d "0"%char && negb (length ds =? 0) then None
      else
        let frac :=
          match l2 with
          | a :: l' =>
              if Ascii.eqb a "."%char then
                let (fs, rest) := span_digits l' in
                match fs with
                | [] => None
                | _ => Some (a :: fs, rest)
                end
              else Some ([], l2)
          | [] => Some ([], l2)
          end in
        match frac with
        | None => None
        | Some (fr, l3) =>
            let exp :=
              match l3 with
              | a :: l' =>
                  if Ascii.eqb a "e"%char || Ascii.eqb a "E"%char then
                    let (sg, l'') :=
                      match l' with
                      | b :: r =>
                          if Ascii.eqb b "+"%char || Ascii.eqb b "-"%char
                          then ([b], r) else ([], l')
                      | [] => ([], l')
                      end in
                    let (es, rest) := span_digits l'' in
                    match es with
                    | [] => None
                    | _ => Some (a :: sg ++ es, rest)
                    end
                  else Some ([], l3)
              | [] => Some ([], l3)
              end in
            match exp with
            | None => None
            | Some (ex, l4) => Some (sign ++ int ++ fr ++ ex, l4)
            end
        end
  end.

(** A JSON value at the head of [l], after optional white space.  [fuel]
    bounds the nesting depth plus the number of sibling elements; the
    length of the text always suffices. *)
Fixpoint parse_value (fuel : nat) (l : list ascii)
  : option (JsValue * list ascii) :=
  match fuel with
  | 0 => None
  | S fuel' =>
      match skip_json_ws l with
      | [] => None
      | a :: l' =>
          if Ascii.eqb a dquote then
            match parse_string l' with
            | Some (s, rest) => Some (JsString s, rest)
            | None => None
            end
          else if Ascii.eqb a "["%char then
            match skip_json_ws l' with
            | b :: rest =>
                if Ascii.eqb b "]"%char then Some (JsArray [], rest)
                else
                  match parse_elements fuel' l' with
                  | Some (items, rest') => Some (JsArray items, rest')
                  | None => None
                  end
            | [] => None
            end
          else if Ascii.eqb a "{"%char then
            match skip_json_ws l' with
            | b :: rest =>
                if Ascii.eqb b "}"%char then Some (JsObject [], rest)
                else
                  match parse_members fuel' l' with
                  | Some (props, rest') => Some (JsObject props, rest')
                  | None => None
                  end
            | [] => None
            end
          else
            match drop_prefix (list_ascii_of_string "true") (a :: l') with
            | Some rest => Some (JsBool true, rest)
            | None =>
            match drop_prefix (list_ascii_of_string "false") (a :: l') with
            | Some rest => Some (JsBool false, rest)
            | None =>
            match drop_prefix (list_ascii_of_string "null") (a :: l') with
            | Some rest => Some (JsNull, rest)
            | None =>
            match parse_number (a :: l') with
            | Some (lexeme, rest) =>
                Some (JsNumber (string_of_list_ascii lexeme), rest)
            | None => None
            end end end end
      end
  end
with parse_elements (fuel : nat) (l : list ascii)
  : option (list JsValue * list ascii) :=
  match fuel with
  | 0 => None
  | S fuel' =>
      match parse_value fuel' l with
      | None => None
      | Some (v, r) =>
          match skip_json_ws r with
          | b :: rest =>
              if Ascii.eqb b ","%char then
                match parse_elements fuel' rest with
                | Some (vs, rest') => Some (v :: vs, rest')
                | None => None
                end
              else if Ascii.eqb b "]"%char then Some ([v], rest)
              else None
          | [] => None
          end
      end
  end
with parse_members (fuel : nat) (l : list ascii)
  : option (list (string * JsValue) * list ascii) :=
  match fuel with
  | 0 => None
  | S fuel' =>
      match skip_json_ws l with
      | q :: l1 =>
          if Ascii.eqb q dquote then
            match parse_string l1 with
            | None => None
            | Some (key, l2) =>
                match skip_json_ws l2 with
                | c :: l3 =>
                    if Ascii.eqb c ":"%char then
                      match parse_value fuel' l3 with
                      | None => None
                      | Some (v, r) =>
                          match skip_json_ws r with
                          | b :: rest =>
                              if Ascii.eqb b ","%char then
                                match parse_members fuel' rest with
                                | Some (ps, rest') => Some ((key, v) :: ps, rest')
                                | None => None
                                end
                              else if Ascii.eqb b "}"%char
                              then Some ([(key, v)], rest)
                              else None
                          | [] => None
                          end
                      end
                    else None
                | [] => None
                end
            end
          else None
      | [] => None
      end
  end.

(** [JSON.parse(text)]; [None] stands for the [SyntaxError] it throws. *)
Definition JSON_parse (text : string) : option JsValue :=
  let l := list_ascii_of_string text in
  match parse_value (S (length l)) l with
  | Some (v, rest) =>
      match skip_json_ws rest with
      | [] => Some v
      | _ :: _ => None
      end
  | None => None
  end.

End Js.

(** ** Constants *)

Module Constants.

(** Modelled from the spec: [src/app/utils/constants.ts] is not among the
    sources.  The Category enumeration of the data model, which is also the
    list of categories both classification prompts explain. *)
Definition validCategories : list string :=
  [ "Important"; "Urgent"; "Work"; "Personal"; "Finance"; "Sales";
    "Promotions"; "Newsletter"; "Social"; "Shopping"; "Entertainment";
    "Health"; "Education"; "Automated"; "Spamming"; "Other" ].

(** Modelled from the spec: [MAX_EMAILS] of the same missing file, the fixed
    maximum (10) of message identifiers listed in one batch. *)
Definition MAX_EMAILS : nat := 10.

End Constants.

(** ** The services the handlers talk to *)

Module Services.
Import Js.

(** *** Mail provider data *)

Record Label : Type := mkLabel {
  label_id : string;
  label_name : string }.

Record Header : Type := mkHeader {
  header_name : string;
  header_value : option string }.

Record Body : Type := mkBody {
  data : option string }.

(** [interface GmailPayload], with the headers the provider sends along. *)
Inductive GmailPayload : Type :=
| Payload (mimeType : option string) (headers : option (list Header))
          (body : option Body) (parts : option (list GmailPayload)).

Definition mimeType (p : GmailPayload) : option string :=
  let (m, _, _, _) := p in m.
Definition headers (p : GmailPayload) : option (list Header) :=
  let (_, h, _, _) := p in h.
Definition body (p : GmailPayload) : option Body :=
  let (_, _, b, _) := p in b.
Definition parts (p : GmailPayload) : option (list GmailPayload) :=
  let (_, _, _, ps) := p in ps.

Record Message : Type := mkMessage {
  message_id : string;
  payload : option GmailPayload;
  labelIds : list string }.

(** *** Model services *)

Inductive ContentBlock : Type :=
| TextBlock (text : string)
| OtherBlock.

(** The reply of [anthropic.messages.create]. *)
Record Completion : Type := mkCompletion {
  content : list ContentBlock;
  input_tokens : N;
  output_tokens : N }.

(** The reply of [genAI.models.generateContent]: [result.text] and
    [result.usageMetadata?.totalTokenCount]. *)
Record GenerateContentResponse : Type := mkGenerated {
  text : option string;
  totalTokenCount : option N }.

(** *** The world a handler runs in *)

Inductive GmailOp : Type :=
| GetProfile
| LabelsList
| LabelsCreate (name : string)
| MessagesList (q : string) (maxResults : nat)
| MessagesGet (id : string)
| MessagesModify (id : string) (addLabelIds removeLabelIds : list string).

Inductive Event : Type :=
| GmailCall (op : GmailOp)
| AnthropicCall
| GeminiCall
| Sleep (ms : nat).

(** The account at the provider, what the services will answer, and the
    calls made so far (most recent first).  [search q] is the provider's
    answer to the query [q] before [maxResults] is applied; the [n]-th call to
    a service fails in transport when its script says so. *)
Record World : Type := mkWorld {
  emailAddress : option string;
  labels : list Label;
  mailbox : list Message;
  search : string -> list string;
  gmail_fault : nat -> option Thrown;
  anthropic_reply : nat -> Thrown + Completion;
  gemini_reply : nat -> Thrown + GenerateContentResponse;
  trace : list Event }.

Definition with_trace (t : list Event) (w : World) : World :=
  mkWorld (emailAddress w) (labels w) (mailbox w) (search w) (gmail_fault w)
          (anthropic_reply w) (gemini_reply w) t.

Definition with_labels (ls : list Label) (w : World) : World :=
  mkWorld (emailAddress w) ls (mailbox w) (search w) (gmail_fault w)
          (anthropic_reply w) (gemini_reply w) (trace w).

Definition with_mailbox (ms : list Message) (w : World) : World :=
  mkWorld (emailAddress w) (labels w) ms (search w) (gmail_fault w)
          (anthropic_reply w) (gemini_reply w) (trace w).

Definition log (e : Event) (w : World) : World := with_trace (e :: trace w) w.

Definition is_gmail (e : Event) : bool :=
  match e with GmailCall _ => true | _ => false end.
Definition is_anthropic (e : Event) : bool :=
  match e with AnthropicCall => true | _ => false end.
Definition is_gemini (e : Event) : bool :=
  match e with GeminiCall => true | _ => false end.
Definition is_sleep (e : Event) : bool :=
  match e with Sleep _ => true | _ => false end.

Definition calls (kind : Event -> bool) (w : World) : nat :=
  length (filter kind (trace w)).

(** *** Computations: state passing with exceptions *)

Definition M (A : Type) : Type := World -> (Thrown + A) * World.

Definition ret {A} (a : A) : M A := fun w => (inr a, w).

Definition throw {A} (e : Thrown) : M A := fun w => (inl e, w).

Definition bind {A B} (m : M A) (k : A -> M B) : M B :=
  fun w =>
    match m w with
    | (inr a, w') => k a w'
    | (inl e, w') => (inl e, w')
    end.

(** [try { m } catch (error) { handler error }] *)
Definition try_catch {A} (m : M A) (handler : Thrown -> M A) : M A :=
  fun w =>
    match m w with
    | (inr a, w') => (inr a, w')
    | (inl e, w') => handler e w'
    end.

Declare Scope js_scope.
Delimit Scope js_scope with js.
Notation "x <- m ;; k" := (bind m (fun x => k))
  (at level 100, m at next level, right associativity) : js_scope.
Notation "m ;;; k" := (bind m (fun _ => k))
  (at level 100, right associativity) : js_scope.

(** A call to the mail provider: recorded, then failed by the script or
    answered from the account. *)
Definition gmail_call {A} (op : GmailOp) (answer : M A) : M A :=
  fun w =>
    match gmail_fault w (calls is_gmail w) with
    | Some e => (inl e, log (GmailCall op) w)
    | None => answer (log (GmailCall op) w)
    end.

(** [gmail.users.getProfile], its [data.emailAddress] *)
Definition getProfile : M (option string) :=
  gmail_call GetProfile (fun w => (inr (emailAddress w), w)).

(** [gmail.users.labels.list], its [data.labels] *)
Definition labels_list : M (list Label) :=
  gmail_call LabelsList (fun w => (inr (labels w), w)).

Definition fresh_label_id (w : World) : string :=
  "Label_" ++ NilEmpty.string_of_uint (Nat.to_uint (S (length (labels w)))).

(** [gmail.users.labels.create], its [data.id] *)
Definition labels_create (name : string) : M string :=
  gmail_call (LabelsCreate name)
    (fun w =>
       let id := fresh_label_id w in
       (inr id, with_labels (labels w ++ [mkLabel id name]) w)).

(** [gmail.users.messages.list], the identifiers in its [data.messages] *)
Definition messages_list (q : string) (maxResults : nat) : M (list string) :=
  gmail_call (MessagesList q maxResults)
    (fun w => (inr (firstn maxResults (search w q)), w)).

Definition not_found : Thrown := JsError "Requested entity was not found.".

(** [gmail.users.messages.get], its [data] *)
Definition messages_get (id : string) : M Message :=
  gmail_call (MessagesGet id)
    (fun w =>
       match find (fun m => String.eqb (message_id m) id) (mailbox w) with
       | Some m => (inr m, w)
       | None => (inl not_found, w)
       end).

Definition relabel (add remove : list string) (m : Message) : Message :=
  mkMessage (message_id m) (payload m)
    (filter (fun l => negb (includes remove l)) (labelIds m) ++ add).

(** [gmail.users.messages.modify] *)
Definition messages_modify (id : string) (add remove : list string) : M unit :=
  gmail_call (MessagesModify id add remove)
    (fun w =>
       match find (fun m => String.eqb (message_id m) id) (mailbox w) with
       | Some _ =>
           (inr tt,
            with_mailbox
              (map (fun m => if String.eqb (message_id m) id
                             then relabel add remove m else m)
                 (mailbox w)) w)
       | None => (inl not_found, w)
       end).

(** [anthropic.messages.create] *)
Definition anthropic_create : M Completion :=
  fun w => (anthropic_reply w (calls is_anthropic w), log AnthropicCall w).

(** [genAI.models.generateContent] *)
Definition generateContent : M GenerateContentResponse :=
  fun w => (gemini_reply w (calls is_gemini w), log GeminiCall w).

(** [await new Promise((resolve) => setTimeout(resolve, ms))] *)
Definition sleep (ms : nat) : M unit :=
  fun w => (inr tt, log (Sleep ms) w).

(** *** Library routines

    [html_to_text] is [htmlToText] of the html-to-text package with the
    options the handlers pass; [base64_utf8 d] is
    [Buffer.from(d, "base64").toString("utf-8")]. *)
Class Platform : Type := mkPlatform {
  html_to_text : string -> string;
  base64_utf8 : string -> string }.

End Services.

(** ** What the two routes share

    [extractEmailBody] and [ensureLabelExists] are the same, word for word, in
    the two route files. *)

Module Shared.
Import Js Constants Services.
Local Open Scope js_scope.

(** [interface EmailData]; the single-backend route never sets [model],
    [tokens] and [cost]. *)
Record EmailData : Type := mkEmailData {
  id : string;
  subject : string;
  category : string;
  labeled : bool;
  model : option string;
  tokens : option N;
  cost : option Q;
  error : option string }.

(** The record both routes build when a message fails. *)
Definition failed (email : string) (e : Thrown) : EmailData :=
  mkEmailData email "Error processing email" "Error" false
              None None None (Some (error_text e)).

Inductive ResponseBody : Type :=
| Results (results : list EmailData) (userEmail : option string)
| ErrorBody (error : string).

(** [NextResponse.json(body, { status })] *)
Inductive Response : Type :=
| Json (status : nat) (body : ResponseBody).

Definition status_of (r : Response) : nat := let (s, _) := r in s.
Definition body_of (r : Response) : ResponseBody := let (_, b) := r in b.

(** The body of the POST request, as [request.json()] yields it. *)
Record RequestBody : Type := mkRequestBody {
  accessToken : option string;
  emailId : option string }.

(** A string in a condition: [undefined] and the empty string are falsy. *)
Definition truthy (s : option string) : bool :=
  match s with
  | Some (String _ _) => true
  | _ => false
  end.

(** [v || fallback] *)
Definition or_else (v : option string) (fallback : string) : string :=
  match v with
  | Some (String a r) => String a r
  | _ => fallback
  end.

(** [headers?.find((h) => h.name === name)?.value] *)
Definition header (name : string) (hs : option (list Header)) : option string :=
  match hs with
  | None => None
  | Some hs =>
      match find (fun h => String.eqb (header_name h) name) hs with
      | Some h => header_value h
      | None => None
      end
  end.

(** [part.mimeType === mime] *)
Definition mime_is (mime : string) (part : GmailPayload) : bool :=
  match mimeType part with
  | Some m => String.eqb m mime
  | None => false
  end.

(** [part.body?.data] *)
Definition body_data (part : GmailPayload) : option string :=
  match body part with
  | Some b => data b
  | None => None
  end.

(** [for (const part of parts) if (part.mimeType === mime && part.body?.data)]:
    the data of the part the loop stops at. *)
Fixpoint scan (mime : string) (ps : list GmailPayload) : option string :=
  match ps with
  | [] => None
  | part :: ps' =>
      if mime_is mime part && truthy (body_data part)
      then body_data part
      else scan mime ps'
  end.

Section Extraction.
Context {platform : Platform}.

(** [htmlToText(html, options).replace(/\s+/g, " ").trim()] *)
Definition html_body (d : string) : string :=
  trim (collapse_ws (html_to_text (base64_utf8 d))).

(** The last block of [extractEmailBody]: single part messages. *)
Definition single_part (payload : GmailPayload) : string :=
  match body payload with
  | Some b =>
      if truthy (data b) then
        if mime_is "text/plain" payload
        then base64_utf8 (or_else (data b) EmptyString)
        else if mime_is "text/html" payload
        then html_body (or_else (data b) EmptyString)
        else EmptyString
      else EmptyString
  | None => EmptyString
  end.

Definition extractEmailBody (payload : option GmailPayload) : string :=
  match payload with
  | None => EmptyString
  | Some payload =>
      match parts payload with
      | Some ps =>
          match scan "text/plain" ps with
          | Some d => base64_utf8 d
          | None =>
              match scan "text/html" ps with
              | Some d => html_body d
              | None => single_part payload
              end
          end
      | None => single_part payload
      end
  end.

End Extraction.

Definition ensureLabelExists (labelName : string) : M string :=
  try_catch
    (labels <- labels_list ;;
     let existingLabel :=
       find (fun label => String.eqb (label_name label) labelName) labels in
     match existingLabel with
     | Some label =>
         if truthy (Some (label_id label)) then ret (label_id label)
         else labels_create labelName
     | None => labels_create labelName
     end)
    (fun error => throw error).

End Shared.

(** ** [src/app/api/gmail/route.ts]: one backend, bounded retry *)

Module SingleBackend.
Import Js Constants Services Shared.
Local Open Scope js_scope.

Definition maxRetries : nat := 2.

(** How one turn of the [while] loop ends. *)
Inductive Turn : Type :=
| Return (category : string)
| Again (retries : nat).

(** The body of [while (retries <= maxRetries)]. *)
Definition attempt (retries : nat) : M Turn :=
  try_catch
    (result <- generateContent ;;
     let category :=
       or_else (option_map trim (text result)) EmptyString in
     if truthy (Some category) && includes validCategories category
     then ret (Return category)
     else
       let retries := S retries in
       if maxRetries <? retries then ret (Return "Personal")
       else ret (Again retries))
    (fun error =>
       let retries := S retries in
       if maxRetries <? retries then ret (Return "Personal")
       else sleep 1000 ;;; ret (Again retries)).

(** The loop; [turns] bounds the number of turns, [S maxRetries] suffices
    from [retries = 0]. *)
Fixpoint retry_loop (turns : nat) (retries : nat) : M string :=
  match turns with
  | 0 => ret "Personal"
  | S turns' =>
      if retries <=? maxRetries then
        turn <- attempt retries ;;
        match turn with
        | Return category => ret category
        | Again retries' => retry_loop turns' retries'
        end
      else ret "Personal"
  end.

(** The prompt built from the three arguments goes to the service; what the
    service replies is the world's business. *)
Definition classifyEmail (subject from body : string) : M string :=
  retry_loop (S maxRetries) 0.

Section Route.
Context {platform : Platform}.

(** The [try] block of the loop of [POST]. *)
Definition process (email : string) : M EmailData :=
  emailDetails <- messages_get email ;;
  let headers := match payload emailDetails with
                 | Some p => headers p
                 | None => None
                 end in
  let subject := or_else (header "Subject" headers) "No Subject" in
  let from := or_else (header "From" headers) "Unknown Sender" in
  let body := extractEmailBody (payload emailDetails) in
  category <- classifyEmail subject from body ;;
  labelId <- ensureLabelExists category ;;
  messages_modify email [labelId] ["UNREAD"] ;;;
  ret (mkEmailData email subject category true None None None None).

(** [for (const email of emails) { try { ... } catch (error) { ... } }] *)
Fixpoint process_all (emails : list string) (results : list EmailData)
  : M (list EmailData) :=
  match emails with
  | [] => ret results
  | email :: emails' =>
      result <- try_catch (process email)
                          (fun error => ret (failed email error)) ;;
      process_all emails' (results ++ [result])
  end.

Definition POST (request : Thrown + RequestBody) : M Response :=
  try_catch
    (match request with
     | inl e => throw e
     | inr request =>
         if negb (truthy (accessToken request))
         then ret (Json 400 (ErrorBody "Access token required"))
         else
           emails <- messages_list "is:unread" 2 ;;
           results <- process_all emails [] ;;
           ret (Json 200 (Results results None))
     end)
    (fun error => ret (Json 500 (ErrorBody "Failed to process emails"))).

End Route.
End SingleBackend.

(** ** The two-backend route (second document of [src/app/page.tsx]) *)

Module TwoTier.
Import Js Constants Services Shared.
Local Open Scope js_scope.

(** [interface ClassificationResult]; a cost is kept as an exact rational. *)
Record ClassificationResult : Type := mkResult {
  result_category : string;
  result_model : string;
  result_tokens : N;
  result_cost : Q }.

Definition Q_of_N (n : N) : Q := inject_Z (Z.of_N n).

(** [(input_tokens * 0.8) / 1000000 + (output_tokens * 4) / 1000000] *)
Definition claude_cost (c : Completion) : Q :=
  ((Q_of_N (input_tokens c) * (8 # 10)) / (1000000 # 1)
   + (Q_of_N (output_tokens c) * (4 # 1)) / (1000000 # 1))%Q.

(** [estimatedTokens * 1.25] *)
Definition gemini_cost (estimatedTokens : N) : Q :=
  (Q_of_N estimatedTokens * (125 # 100))%Q.

Definition fallback : ClassificationResult := mkResult "Other" "fallback" 0%N 0%Q.

(** The text of [completion.content[0]] when its type is text, the empty
    string when it is of another type. *)
Definition first_text (c : Completion) : M string :=
  match content c with
  | [] => throw (JsError "Cannot read properties of undefined (reading 'type')")
  | TextBlock text :: _ => ret text
  | OtherBlock :: _ => ret EmptyString
  end.

(** [JSON.parse(text).category] *)
Definition parsed_category (text : string) : M JsValue :=
  match JSON_parse text with
  | None => throw (JsError "Unexpected token in JSON")
  | Some v =>
      match get v "category" with
      | inl e => throw e
      | inr x => ret x
      end
  end.

(** [claudeCategory && validCategories.includes(claudeCategory)]: the array
    holds strings only, so that no other value passes. *)
Definition valid_value (v : JsValue) : option string :=
  match v with
  | JsString c =>
      if truthy (Some c) && includes validCategories c then Some c else None
  | _ => None
  end.

(** The first [try] block; [None] when control leaves it without a
    [return]. *)
Definition try_claude : M (option ClassificationResult) :=
  try_catch
    (completion <- anthropic_create ;;
     text <- first_text completion ;;
     claudeCategory <- parsed_category text ;;
     match valid_value claudeCategory with
     | Some c =>
         let estimatedTokens := (input_tokens completion + output_tokens completion)%N in
         ret (Some (mkResult c "anthropic" estimatedTokens (claude_cost completion)))
     | None => ret None
     end)
    (fun error => ret None).

(** The second [try] block. *)
Definition try_gemini : M (option ClassificationResult) :=
  try_catch
    (result <- generateContent ;;
     let category := or_else (option_map trim (text result)) EmptyString in
     if truthy (Some category) && includes validCategories category then
       let estimatedTokens :=
         match totalTokenCount result with Some n => n | None => 0%N end in
       ret (Some (mkResult category "gemini" estimatedTokens
                           (gemini_cost estimatedTokens)))
     else ret None)
    (fun error => ret None).

(** The prompt built from the three arguments goes to the services; what
    they reply is the world's business. *)
Definition classifyEmail (subject from body : string) : M ClassificationResult :=
  claude <- try_claude ;;
  match claude with
  | Some r => ret r
  | None =>
      gemini <- try_gemini ;;
      match gemini with
      | Some r => ret r
      | None => ret fallback
      end
  end.

Definition getCustomLabelNames : M (list string) :=
  try_catch
    (allLabels <- labels_list ;;
     ret (map label_name
            (filter (fun label => truthy (Some (label_name label))
                                  && includes validCategories (label_name label))
                    allLabels)))
    (fun error => ret []).

(** A name between double quotes after [-label:]. *)
Definition exclude (name : string) : string :=
  "-label:" ++ String dquote name ++ String dquote EmptyString.

Definition build_query (customLabelNames : list string) : string :=
  match customLabelNames with
  | [] => "is:unread"
  | _ :: _ => "is:unread" ++ " " ++ String.concat " " (map exclude customLabelNames)
  end.

Section Route.
Context {platform : Platform}.

(** The [try] block of [processSingleEmail]. *)
Definition pipeline (email : string) : M EmailData :=
  emailDetails <- messages_get email ;;
  let headers := match payload emailDetails with
                 | Some p => headers p
                 | None => None
                 end in
  let subject := or_else (header "Subject" headers) "No Subject" in
  let from := or_else (header "From" headers) "Unknown Sender" in
  let body := extractEmailBody (payload emailDetails) in
  classificationResult <- classifyEmail subject from body ;;
  labelId <- ensureLabelExists (result_category classificationResult) ;;
  messages_modify email [labelId] ["UNREAD"] ;;;
  ret (mkEmailData email subject (result_category classificationResult) true
         (Some (result_model classificationResult))
         (Some (result_tokens classificationResult))
         (Some (result_cost classificationResult))
         None).

Definition processSingleEmail (email : string) : M EmailData :=
  try_catch (pipeline email) (fun error => ret (failed email error)).

Fixpoint process_all (emails : list string) (results : list EmailData)
  : M (list EmailData) :=
  match emails with
  | [] => ret results
  | email :: emails' =>
      result <- try_catch (processSingleEmail email)
                          (fun error => ret (failed email error)) ;;
      process_all emails' (results ++ [result])
  end.

(** The part of [POST] that resolves the account and lists the messages:
    [userEmail] and [emails]. *)
Definition listing : M (string * list string) :=
  userEmail <- try_catch
                 (profile <- getProfile ;;
                  ret (or_else profile EmptyString))
                 (fun e => ret EmptyString) ;;
  customLabelNames <- getCustomLabelNames ;;
  let query := build_query customLabelNames in
  emails <- messages_list query MAX_EMAILS ;;
  ret (userEmail, emails).

Definition POST (request : Thrown + RequestBody) : M Response :=
  try_catch
    (match request with
     | inl e => throw e
     | inr request =>
         if negb (truthy (accessToken request))
         then ret (Json 400 (ErrorBody "Access token required"))
         else
           listed <- listing ;;
           let (userEmail, emails) := listed in
           if truthy (emailId request) then
             let wanted := or_else (emailId request) EmptyString in
             match find (fun email => String.eqb email wanted) emails with
             | None =>
                 ret (Json 404 (ErrorBody "Email not found or already processed"))
             | Some targetEmail =>
                 result <- processSingleEmail targetEmail ;;
                 ret (Json 200 (Results [result] (Some userEmail)))
             end
           else
             results <- process_all emails [] ;;
             ret (Json 200 (Results results (Some userEmail)))
     end)
    (fun error => ret (Json 500 (ErrorBody "Failed to process emails"))).

End Route.
End TwoTier.

(** ** The auth-status endpoint
    (second document of [src/app/api/auth/callback/route.ts]) *)

Module AuthCheck.
Import Js Shared.

(** The cookies of a request: [request.cookies.get(name)?.value]. *)
Record Request : Type := mkRequest {
  cookies : string -> option string }.

(** [NextResponse.json(...)], the object that is serialised.  Reading a
    cookie does not throw, the [catch] of the handler is never entered. *)
Definition GET (request : Request) : JsValue :=
  let accessToken := cookies request "access_token" in
  if negb (truthy accessToken)
  then JsObject [("authenticated", JsBool false)]
  else JsObject [("authenticated", JsBool true);
                 ("accessToken", JsString (or_else accessToken EmptyString))].

End AuthCheck.

(** ** A reference platform and sample accounts, for the examples *)

Module Reference.
Import Js Constants Services Shared.

Definition sextet (a : ascii) : option N :=
  let n := N_of_ascii a in
  (if (65 <=? n) && (n <=? 90) then Some (n - 65)
   else if (97 <=? n) && (n <=? 122) then Some (n - 71)
   else if (48 <=? n) && (n <=? 57) then Some (n + 4)
   else if (n =? 43) || (n =? 45) then Some 62
   else if (n =? 47) || (n =? 95) then Some 63
   else None)%N.

(** The sextets of a base64 text, as Node reads it: both alphabets, other
    characters skipped, the padding sign ends the text. *)
Fixpoint sextets (l : list ascii) : list N :=
  match l with
  | [] => []
  | a :: l' =>
      if Ascii.eqb a "="%char then []
      else match sextet a with
           | Some v => v :: sextets l'
           | None => sextets l'
           end
  end.

Fixpoint pack (vs : list N) : list ascii :=
  match vs with
  | a :: b :: c :: d :: vs' =>
      map ascii_of_N
        [a * 4 + b / 16; (b mod 16) * 16 + c / 4; (c mod 4) * 64 + d]%N
      ++ pack vs'
  | [a; b; c] => map ascii_of_N [a * 4 + b / 16; (b mod 16) * 16 + c / 4]%N
  | [a; b] => map ascii_of_N [a * 4 + b / 16]%N
  | _ => []
  end.

(** [Buffer.from(d, "base64").toString("utf-8")] on data whose bytes are
    well-formed UTF-8. *)
Definition base64 (d : string) : string :=
  string_of_list_ascii (pack (sextets (list_ascii_of_string d))).

(** A stand-in for the html-to-text package: the text outside the tags. *)
Fixpoint strip_tags (inside : bool) (l : list ascii) : list ascii :=
  match l with
  | [] => []
  | a :: l' =>
      if Ascii.eqb a "<"%char then strip_tags true l'
      else if Ascii.eqb a ">"%char then strip_tags false l'
      else if inside then strip_tags inside l'
      else a :: strip_tags inside l'
  end.

Definition node : Platform :=
  mkPlatform
    (fun html => string_of_list_ascii (strip_tags false (list_ascii_of_string html)))
    base64.

Definition unreachable : Thrown := JsError "fetch failed".

(** A text/plain part without body data, next to a text/html part. *)
Definition empty_plain_and_html : GmailPayload :=
  Payload (Some "multipart/alternative") None (Some (mkBody None))
    (Some [ Payload (Some "text/plain") None (Some (mkBody None)) None;
            Payload (Some "text/html") None
                    (Some (mkBody (Some "PGI+aGk8L2I+"))) None ]).

(** A text/html part before a text/plain part. *)
Definition html_then_plain : GmailPayload :=
  Payload (Some "multipart/alternative") None (Some (mkBody None))
    (Some [ Payload (Some "text/html") None
                    (Some (mkBody (Some "PGI+aGk8L2I+"))) None;
            Payload (Some "text/plain") None
                    (Some (mkBody (Some "aGVsbG8gIHdvcmxk"))) None ]).

(** Only an attachment. *)
Definition attachment_only : GmailPayload :=
  Payload (Some "multipart/mixed") None (Some (mkBody None))
    (Some [ Payload (Some "image/png") None
                    (Some (mkBody (Some "iVBORw0KGgo="))) None ]).

Definition plain_message (id subject data : string) : Message :=
  mkMessage id
    (Some (Payload (Some "text/plain")
                   (Some [ mkHeader "From" (Some "alice@example.com");
                           mkHeader "Subject" (Some subject) ])
                   (Some (mkBody (Some data))) None))
    ["INBOX"; "UNREAD"].

Definition ids (n : nat) : list string :=
  map (fun k => ("m" ++ NilEmpty.string_of_uint (Nat.to_uint k))%string) (seq 1 n).

(** An account with [n] unread messages and the label Work, reached without
    transport failures; both model services answer from the given scripts. *)
Definition account (n : nat)
           (claude : nat -> Thrown + Completion)
           (gemini : nat -> Thrown + GenerateContentResponse) : World :=
  mkWorld (Some "me@example.com")
          [ mkLabel "INBOX" "INBOX"; mkLabel "Label_7" "Work" ]
          (map (fun id => plain_message id "Hello" "aGVsbG8=") (ids n))
          (fun q => ids n)
          (fun _ => None)
          claude gemini [].

Definition says (reply : string) : Thrown + GenerateContentResponse :=
  inr (mkGenerated (Some reply) (Some 120%N)).

Definition writes (reply : string) : Thrown + Completion :=
  inr (mkCompletion [TextBlock reply] 300%N 8%N).

Definition token_request : RequestBody :=
  mkRequestBody (Some "ya29.token") None.

(** Three unread messages; the second is classified Finance, a label the
    account does not have yet, and the call that creates it (the ninth
    provider call of the batch) fails. *)
Definition three_messages : World :=
  mkWorld (Some "me@example.com")
          [ mkLabel "INBOX" "INBOX"; mkLabel "Label_7" "Work" ]
          (map (fun id => plain_message id "Hello" "aGVsbG8=") (ids 3))
          (fun q => ids 3)
          (fun n => if n =? 8 then Some (JsError "Label creation failed")
                    else None)
          (fun n => if n =? 1 then writes (dq "{'category': 'Finance'}")
                    else writes (dq "{'category': 'Work'}"))
          (fun _ => inl unreachable)
          [].

End Reference.


(** ** Vocabulary of the statements *)

Module Spec.
Import Js Constants Services Shared.

(** A part or a payload that neither [text/plain] nor [text/html] branch of
    [extractEmailBody] accepts. *)
Definition no_text (p : GmailPayload) : bool :=
  negb ((mime_is "text/plain" p || mime_is "text/html" p)
        && truthy (body_data p)).

(** A payload that is absent, or has no matching part and no matching body. *)
Definition unmatched (payload : option GmailPayload) : bool :=
  match payload with
  | None => true
  | Some p =>
      match parts p with
      | Some ps => forallb no_text ps
      | None => true
      end && no_text p
  end.

(** The category a reply of the secondary backend carries, if it carries a
    valid one: its first content block is a text that parses as JSON, and the
    [category] property of the parsed value is a member of the set. *)
Definition secondary_verdict (reply : Thrown + Completion) : option string :=
  match reply with
  | inl _ => None
  | inr completion =>
      match content completion with
      | TextBlock text :: _ =>
          match JSON_parse text with
          | Some v =>
              match get v "category" with
              | inr (JsString c) =>
                  if includes validCategories c then Some c else None
              | _ => None
              end
          | None => None
          end
      | _ => None
      end
  end.

(** The category a reply of the primary backend carries, if it carries a
    valid one: its trimmed text is a member of the set. *)
Definition primary_verdict (reply : Thrown + GenerateContentResponse) : option string :=
  match reply with
  | inl _ => None
  | inr result =>
      let category := or_else (option_map trim (text result)) EmptyString in
      if includes validCategories category then Some category else None
  end.

(** [result.usageMetadata?.totalTokenCount || 0] *)
Definition reported_tokens (result : GenerateContentResponse) : N :=
  match totalTokenCount result with
  | Some n => n
  | None => 0%N
  end.

(** What the retry loop does between a failed attempt and the next one. *)
Definition pause (reply : Thrown + GenerateContentResponse) : list Event :=
  match reply with
  | inl _ => [Sleep 1000]
  | inr _ => []
  end.

(** The invariants of a result record. *)
Record well_formed (r : EmailData) : Prop := {
  wf_category : In (category r) validCategories \/ category r = "Error";
  wf_error : labeled r = false <-> error r <> None;
  wf_usage : tokens r <> None \/ cost r <> None -> labeled r = true;
  wf_fallback : model r = Some "fallback" ->
                labeled r = true /\ tokens r = Some 0%N /\ cost r = Some 0%Q }.

(** [issued w w' ops]: between [w] and [w'] the provider calls [ops] were
    made (most recent first), and no other provider call. *)
Definition issued (w w' : World) (ops : list Event) : Prop :=
  exists new, trace w' = new ++ trace w /\ filter is_gmail new = ops.

Section Batches.
Context {platform : Platform}.

(** [Batch w emails results w']: from [w], the messages [emails] taken one
    after the other through the pipeline give [results] and leave [w']; a
    message whose pipeline throws gives the failed record of its error. *)
Inductive Batch : World -> list string -> list EmailData -> World -> Prop :=
| Batch_done w : Batch w [] [] w
| Batch_labeled w email r w1 emails rs w2 :
    TwoTier.pipeline email w = (inr r, w1) ->
    Batch w1 emails rs w2 ->
    Batch w (email :: emails) (r :: rs) w2
| Batch_failed w email e w1 emails rs w2 :
    TwoTier.pipeline email w = (inl e, w1) ->
    Batch w1 emails rs w2 ->
    Batch w (email :: emails) (failed email e :: rs) w2.

End Batches.

(** The value the promise of [SingleBackend.classifyEmail] resolves to. *)
Definition resolved (category : string) : JsValue := JsString category.

End Spec.

(** ** Vocabulary of the further statements *)

Module Effects.
Import Js Constants Services Shared.

(** Nothing of the account has changed between [w] and [w']. *)
Definition same_account (w w' : World) : Prop :=
  labels w' = labels w /\ mailbox w' = mailbox w.

(** The scripts of the services and the answers to searches are the same in
    [w] and [w']. *)
Definition same_services (w w' : World) : Prop :=
  emailAddress w' = emailAddress w /\
  search w' = search w /\
  gmail_fault w' = gmail_fault w /\
  anthropic_reply w' = anthropic_reply w /\
  gemini_reply w' = gemini_reply w.

(** A part without the parts nested in it. *)
Definition prune (part : GmailPayload) : GmailPayload :=
  Payload (mimeType part) (headers part) (body part) None.

(** The names of the labels of the account that are Category names. *)
Definition category_labels (w : World) : list string :=
  filter (includes validCategories) (map label_name (labels w)).

(** What [gmail.users.messages.modify] with [addLabelIds: [labelId]] and
    [removeLabelIds: ["UNREAD"]] makes of the mailbox. *)
Definition filed (email labelId : string) (ms : list Message) : list Message :=
  map (fun m => if String.eqb (message_id m) email
                then relabel [labelId] ["UNREAD"] m else m) ms.

(** The usage fields of a record of the two-backend route: a labelled
    record names one of the three backends and has a cost that is not
    negative, a failed record has no usage fields. *)
Definition accounted (r : EmailData) : Prop :=
  if labeled r
  then (model r = Some "anthropic" \/ model r = Some "gemini"
        \/ model r = Some "fallback")
       /\ (exists n, tokens r = Some n)
       /\ (exists q, cost r = Some q /\ (0 <= q)%Q)
  else model r = None /\ tokens r = None /\ cost r = None.

(** [spent w w' g a m]: between [w] and [w'] at most [g] calls went to the
    mail provider, at most [a] to the secondary backend and at most [m] to
    the primary backend. *)
Definition spent (w w' : World) (g a m : nat) : Prop :=
  exists new,
    trace w' = new ++ trace w /\
    length (filter is_gmail new) <= g /\
    length (filter is_anthropic new) <= a /\
    length (filter is_gemini new) <= m.

End Effects.

(** ** Further sample accounts *)

Module Scenarios.
Import Js Constants Services Shared.

(** The account of [Reference.account], behind a provider that fails every
    call. *)
Definition offline (n : nat) : World :=
  mkWorld (Some "me@example.com")
          [ mkLabel "INBOX" "INBOX"; mkLabel "Label_7" "Work" ]
          (map (fun id => Reference.plain_message id "Hello" "aGVsbG8=")
               (Reference.ids n))
          (fun q => Reference.ids n)
          (fun _ => Some Reference.unreachable)
          (fun _ => inl Reference.unreachable)
          (fun _ => inl Reference.unreachable)
          [].

Definition no_token : RequestBody := mkRequestBody None None.

Definition one_message (id : string) : RequestBody :=
  mkRequestBody (Some "ya29.token") (Some id).

(** A message whose text is nested two levels down, as mail with an
    attachment is built. *)
Definition nested_plain : GmailPayload :=
  Payload (Some "multipart/mixed") None (Some (mkBody None))
    (Some [ Payload (Some "multipart/alternative") None (Some (mkBody None))
              (Some [ Payload (Some "text/plain") None
                              (Some (mkBody (Some "aGVsbG8="))) None ]);
            Payload (Some "application/pdf") None (Some (mkBody None)) None ]).

(** The data of an HTML text with runs of white space inside and around. *)
Definition spaced_html : string := "PHA+YSAgYjwvcD4KIDxwPmM8L3A+IA==".

(** A browser that holds a session cookie. *)
Definition session : string -> option string :=
  fun name => if String.eqb name "access_token" then Some "ya29.token"
              else None.

End Scenarios.

(** ** [src/app/api/auth/route.ts] and the OAuth callback
    (first document of [src/app/api/auth/callback/route.ts]) *)

Module Auth.
Import Js Shared.

(** One [response.cookies.set(name, value, options)]; an option that is not
    given is [false] or absent. *)
Record SetCookie : Type := mkSetCookie {
  cookie_name : string;
  cookie_value : string;
  httpOnly : bool;
  secure : bool;
  sameSite : option string;
  maxAge : option N }.

Inductive Reply : Type :=
| Redirect (location : string)
| JsonReply (body : JsValue).

Record Response : Type := mkResponse {
  reply : Reply;
  set_cookies : list SetCookie }.

(** What [oauth2Client.getToken(code)] resolves to; the access token is the
    one the code asserts to be there. *)
Record Tokens : Type := mkTokens {
  access_token : string;
  refresh_token : option string }.

(** [GET] of the callback route.  [production] is
    [process.env.NODE_ENV === "production"], [code] the query parameter,
    [getToken] the exchange with the identity provider. *)
Definition callback (production : bool) (code : option string)
           (getToken : string -> Thrown + Tokens) : Response :=
  if negb (truthy code) then mkResponse (Redirect "/?error=no_code") []
  else
    match getToken (or_else code EmptyString) with
    | inr tokens =>
        mkResponse (Redirect "/?success=true")
          (mkSetCookie "access_token" (access_token tokens)
                       true production (Some "lax") (Some 3600%N)
           :: if truthy (refresh_token tokens)
              then [ mkSetCookie "refresh_token"
                                 (or_else (refresh_token tokens) EmptyString)
                                 true production (Some "lax")
                                 (Some (30 * 24 * 60 * 60)%N) ]
              else [])
    | inl error => mkResponse (Redirect "/?error=token_exchange_failed") []
    end.

(** [POST] of [src/app/api/auth/route.ts]: log out. *)
Definition POST : Response :=
  mkResponse
    (JsonReply (JsObject [("success", JsBool true);
                          ("message", JsString "Logged out")]))
    [ mkSetCookie "access_token" EmptyString false false None (Some 0%N);
      mkSetCookie "refresh_token" EmptyString false false None (Some 0%N) ].

(** The cookies a browser holds, by name.  A cookie set with a maximal age
    of 0 is dropped, any other replaces the cookie of its name. *)
Definition Jar : Type := string -> option string.

Definition store (jar : Jar) (c : SetCookie) : Jar :=
  fun name =>
    if String.eqb name (cookie_name c) then
      match maxAge c with
      | Some 0%N => None
      | _ => Some (cookie_value c)
      end
    else jar name.

Definition receive (response : Response) (jar : Jar) : Jar :=
  fold_left store (set_cookies response) jar.

(** A browser that keeps a cookie whatever its age. *)
Definition store_always (jar : Jar) (c : SetCookie) : Jar :=
  fun name =>
    if String.eqb name (cookie_name c) then Some (cookie_value c)
    else jar name.

End Auth.

(** ** The page (the source file under [src/unnamed]) *)

Module Page.
Import Js Shared.

(** The state of the component, one field for each [useState]. *)
Record State : Type := mkState {
  isAuthenticated : bool;
  isProcessing : bool;
  results : list EmailData;
  error : option string;
  success : option string;
  userEmail : option string }.

(** The body of the answer of [/api/auth/check], as the page reads it. *)
Record AuthData : Type := mkAuthData {
  authenticated : bool;
  token : option string }.

(** The body of the answer of [/api/gmail], as the page reads it. *)
Record GmailData : Type := mkGmailData {
  data_results : option (list EmailData);
  data_userEmail : option string;
  data_error : option string }.

(** The requests the page sends. *)
Inductive Request : Type :=
| CheckAuth
| PostGmail (accessToken : option string)
| PostLogout.

Definition tokens_of (r : EmailData) : N :=
  match tokens r with Some n => n | None => 0%N end.

Definition cost_of (r : EmailData) : Q :=
  match cost r with Some q => q | None => 0%Q end.

(** [results.reduce((sum, result) => sum + (result.tokens || 0), 0)] *)
Definition totalTokens (rs : list EmailData) : N :=
  fold_left (fun sum result => (sum + tokens_of result)%N) rs 0%N.

(** [results.reduce((sum, result) => sum + (result.cost || 0), 0)] *)
Definition totalCost (rs : list EmailData) : Q :=
  fold_left (fun sum result => (sum + cost_of result)%Q) rs 0%Q.

(** [results.filter((r) => r.model === name)] *)
Definition by_model (name : string) (rs : list EmailData) : list EmailData :=
  filter (fun r => match model r with
                   | Some m => String.eqb m name
                   | None => false
                   end) rs.

(** The name shown for the model of a record. *)
Definition model_name (r : EmailData) : string :=
  match model r with
  | Some m =>
      if String.eqb m "gemini" then "Gemini"
      else if String.eqb m "anthropic" then "Claude"
      else if String.eqb m "fallback" then "Fallback"
      else "Unknown"
  | None => "Unknown"
  end.

Definition with_error (e : option string) (s : State) : State :=
  mkState (isAuthenticated s) (isProcessing s) (results s) e (success s)
          (userEmail s).

Definition with_processing (b : bool) (s : State) : State :=
  mkState (isAuthenticated s) b (results s) (error s) (success s)
          (userEmail s).

Section Handlers.

(** The success message, a template over the number of records, the
    localised token total and the cost total. *)
Variable message : nat -> N -> Q -> string.

(** [handleLabelInbox].  [check] is what the page gets from
    [/api/auth/check] ([inl] when the request or the reading of its body
    throws), [gmail accessToken] what it gets from [/api/gmail]: the [ok] flag
    and the body.  Returns the state after the [finally] block and the
    requests sent, in order. *)
Definition handleLabelInbox
           (check : Thrown + AuthData)
           (gmail : option string -> Thrown + (bool * GmailData))
           (s : State) : State * list Request :=
  let s := with_error None (with_processing true s) in
  let (s, sent) :=
    match check with
    | inl _ => (with_error (Some "Network error occurred") s, [CheckAuth])
    | inr authData =>
        if negb (authenticated authData) then
          (with_error
             (Some "Not authenticated. Please connect your Gmail account first.")
             s,
           [CheckAuth])
        else
          (match gmail (token authData) with
           | inl _ => with_error (Some "Network error occurred") s
           | inr (ok, data) =>
               if ok then
                 match data_results data with
                 | Some new =>
                     mkState (isAuthenticated s) (isProcessing s)
                             (new ++ results s) (error s)
                             (Some (message (length new) (totalTokens new)
                                            (totalCost new)))
                             (if truthy (data_userEmail data)
                              then data_userEmail data else None)
                 | None => s
                 end
               else
                 with_error
                   (Some (or_else (data_error data) "Failed to process emails"))
                   s
           end,
           [CheckAuth; PostGmail (token authData)])
    end in
  (with_processing false s, sent).

(** [handleLogout]: [answer] is the [ok] flag and the [message] of the body
    of the answer of [POST /api/auth]. *)
Definition handleLogout (answer : Thrown + (bool * option string)) (s : State)
  : State :=
  let s := mkState (isAuthenticated s) (isProcessing s) (results s)
                   None None (userEmail s) in
  match answer with
  | inl _ => with_error (Some "Network error occurred during logout") s
  | inr (ok, text) =>
      if ok then
        mkState false (isProcessing s) [] (error s)
                (Some "Logged out successfully") (userEmail s)
      else with_error (Some (or_else text "Failed to log out")) s
  end.

End Handlers.

(** What the page reads in the answer of the auth-status endpoint. *)
Definition read_auth (body : JsValue) : AuthData :=
  mkAuthData
    match get body "authenticated" with
    | inr (JsBool b) => b
    | _ => false
    end
    match get body "accessToken" with
    | inr (JsString t) => Some t
    | _ => None
    end.

(** What the page reads in the answer of the processing endpoint:
    [response.ok] and the body. *)
Definition read_response (r : Shared.Response) : bool * GmailData :=
  let (status, body) := r in
  ((200 <=? status) && (status <=? 299),
   match body with
   | Results rs user => mkGmailData (Some rs) user None
   | ErrorBody e => mkGmailData None None (Some e)
   end).

Section Served.
Context {platform : Services.Platform}.
Variable message : nat -> N -> Q -> string.

(** The page in front of the two routes: the answers [handleLabelInbox]
    gets are those of the auth-status endpoint for the cookies [jar] and of
    the two-backend route in the world [w]. *)
Definition served (jar : Auth.Jar) (w : Services.World) (s : State)
  : State * list Request :=
  handleLabelInbox message
    (inr (read_auth (AuthCheck.GET (AuthCheck.mkRequest jar))))
    (fun accessToken =>
       match fst (TwoTier.POST (inr (mkRequestBody accessToken None)) w) with
       | inl e => inl e
       | inr r => inr (read_response r)
       end)
    s.

End Served.

End Page.

(** ** The calls of a request, message by message *)

Module Turns.
Import Js Constants Services Shared.

(** [for_message id e]: the call [e] can belong to the work on the message
    [id]: a call to a backend, a pause, a call on the labels of the account,
    or a call on the message [id] itself.  The listing calls of a request
    belong to no message. *)
Definition for_message (id : string) (e : Event) : Prop :=
  match e with
  | GmailCall (MessagesGet i) => i = id
  | GmailCall (MessagesModify i _ _) => i = id
  | GmailCall LabelsList => True
  | GmailCall (LabelsCreate _) => True
  | GmailCall GetProfile => False
  | GmailCall (MessagesList _ _) => False
  | AnthropicCall => True
  | GeminiCall => True
  | Sleep _ => True
  end.

(** The calls made for one message in the single-backend route (most recent
    first): no call to the mail provider is made twice, the primary backend
    is called at most [maxRetries + 1] times and the secondary backend
    never. *)
Definition retried_only_primary (id : string) (turn : list Event) : Prop :=
  Forall (for_message id) turn /\
  NoDup (filter is_gmail turn) /\
  length (filter is_gemini turn) <= S SingleBackend.maxRetries /\
  filter is_anthropic turn = [].

(** The calls made for one message in the two-backend route: no call at
    all is made twice. *)
Definition nothing_retried (id : string) (turn : list Event) : Prop :=
  Forall (for_message id) turn /\ NoDup turn.

(** The messages a request to the two-backend route works on, among the
    listed ones: the one named by [emailId] when the request names one, all
    of them otherwise. *)
Definition worked (request : RequestBody) (emails : list string)
  : list string :=
  if truthy (emailId request) then
    match find (fun email =>
                  String.eqb email (or_else (emailId request) EmptyString))
               emails with
    | Some targetEmail => [targetEmail]
    | None => []
    end
  else emails.

End Turns.

(** * Properties *)

Import Js Constants Services Shared Spec.
Local Open Scope js_scope.

(** ** Strings and categories *)

Lemma includes_In (l : list string) (s : string) :
  includes l s = true <-> In s l.
Proof.
  unfold includes. rewrite existsb_exists. split.
  - intros [x [Hin Heq]]. apply String.eqb_eq in Heq. now subst.
  - intros Hin. exists s. split; [assumption | apply String.eqb_refl].
Qed.

Lemma trim_category (c : string) :
  In c validCategories -> trim c = c.
Proof.
  intros Hin. unfold validCategories in Hin. simpl in Hin.
  repeat (destruct Hin as [<- | Hin]; [reflexivity |]).
  contradiction.
Qed.

Lemma category_truthy (c : string) :
  In c validCategories -> truthy (Some c) = true.
Proof.
  intros Hin. unfold validCategories in Hin. simpl in Hin.
  repeat (destruct Hin as [<- | Hin]; [reflexivity |]).
  contradiction.
Qed.

Lemma truthy_nonempty (s : string) :
  s <> EmptyString -> truthy (Some s) = true.
Proof. destruct s; [congruence | reflexivity]. Qed.

(** ** Body extraction *)

Section ExtractionFacts.
Context {platform : Platform}.

Lemma scan_none (mime : string) (ps : list GmailPayload) :
  forallb (fun p => negb (mime_is mime p && truthy (body_data p))) ps = true ->
  scan mime ps = None.
Proof.
  induction ps as [| p ps IH]; simpl; [reflexivity |].
  intros H. apply andb_true_iff in H as [Hp Hps].
  apply negb_true_iff in Hp. rewrite Hp. auto.
Qed.

Lemma scan_first (mime : string) (before after : list GmailPayload)
      (part : GmailPayload) :
  Forall (fun p => mime_is mime p && truthy (body_data p) = false) before ->
  mime_is mime part && truthy (body_data part) = true ->
  scan mime (before ++ part :: after) = body_data part.
Proof.
  intros Hbefore Hpart.
  induction Hbefore as [| p before Hp _ IH]; simpl.
  - now rewrite Hpart.
  - now rewrite Hp.
Qed.

Lemma no_text_split (p : GmailPayload) :
  no_text p = true ->
  negb (mime_is "text/plain" p && truthy (body_data p)) = true /\
  negb (mime_is "text/html" p && truthy (body_data p)) = true.
Proof.
  unfold no_text.
  destruct (mime_is "text/plain" p), (mime_is "text/html" p),
    (truthy (body_data p)); simpl; intros H; try discriminate; auto.
Qed.

Lemma single_part_unmatched (p : GmailPayload) :
  no_text p = true -> single_part p = EmptyString.
Proof.
  unfold no_text, single_part, body_data.
  destruct (body p) as [b |]; [| reflexivity].
  destruct (truthy (data b)); [| reflexivity].
  destruct (mime_is "text/plain" p); [discriminate |].
  destruct (mime_is "text/html" p); [discriminate | reflexivity].
Qed.

(** C9.  Body extraction is a total function of the payload, and it returns
    the empty string when the payload is absent, and when no part and no body
    of the payload is a text/plain or text/html one with data. *)
Theorem extractEmailBody_empty (payload : option GmailPayload) :
  unmatched payload = true ->
  extractEmailBody payload = EmptyString.
Proof.
  destruct payload as [p |]; [| reflexivity].
  unfold unmatched, extractEmailBody.
  intros H. apply andb_true_iff in H as [Hparts Hself].
  destruct (parts p) as [ps |]; [| now apply single_part_unmatched].
  assert (Hplain : scan "text/plain" ps = None).
  { apply scan_none. rewrite forallb_forall in Hparts |- *.
    intros x Hx. now apply no_text_split, Hparts. }
  assert (Hhtml : scan "text/html" ps = None).
  { apply scan_none. rewrite forallb_forall in Hparts |- *.
    intros x Hx. now apply no_text_split, Hparts. }
  rewrite Hplain, Hhtml. now apply single_part_unmatched.
Qed.

(** C6, as amended.  When the parts of a payload contain a text/plain part
    with non-empty body data, extraction returns the base64-decoded data of
    the first such part, unchanged, whatever the other parts are. *)
Theorem extractEmailBody_first_plain_with_data
        (m : option string) (h : option (list Header)) (b : option Body)
        (before after : list GmailPayload) (part : GmailPayload) (d : string) :
  mime_is "text/plain" part = true ->
  body_data part = Some d ->
  d <> EmptyString ->
  Forall (fun p => mime_is "text/plain" p && truthy (body_data p) = false)
         before ->
  extractEmailBody (Some (Payload m h b (Some (before ++ part :: after))))
  = base64_utf8 d.
Proof.
  intros Hmime Hdata Hd Hbefore. simpl.
  rewrite (scan_first "text/plain" before after part Hbefore).
  - now rewrite Hdata.
  - rewrite Hmime, Hdata. now apply truthy_nonempty.
Qed.

End ExtractionFacts.

Lemma extractEmailBody_empty_witness :
  @extractEmailBody Reference.node (Some Reference.attachment_only)
  = EmptyString.
Proof.
  apply (@extractEmailBody_empty Reference.node
           (Some Reference.attachment_only)).
  reflexivity.
Defined.

Lemma extractEmailBody_first_plain_with_data_witness :
  @extractEmailBody Reference.node (Some Reference.html_then_plain)
  = "hello  world".
Proof.
  apply (@extractEmailBody_first_plain_with_data Reference.node
           (Some "multipart/alternative") None (Some (mkBody None))
           [ Payload (Some "text/html") None
                     (Some (mkBody (Some "PGI+aGk8L2I+"))) None ]
           []
           (Payload (Some "text/plain") None
                    (Some (mkBody (Some "aGVsbG8gIHdvcmxk"))) None)
           "aGVsbG8gIHdvcmxk").
  - reflexivity.
  - reflexivity.
  - discriminate.
  - repeat constructor.
Defined.

(** C6, the claim as stated fails: the first text/plain part of this payload
    has no body data, the scan passes over it, and what is returned is the
    converted text of the text/html sibling, not content of the text/plain
    part. *)
Lemma extractEmailBody_passes_over_plain_without_data :
  exists part rest,
    parts Reference.empty_plain_and_html = Some (part :: rest) /\
    mime_is "text/plain" part = true /\
    body_data part = None /\
    @extractEmailBody Reference.node (Some Reference.empty_plain_and_html)
    = @html_body Reference.node "PGI+aGk8L2I+" /\
    @extractEmailBody Reference.node (Some Reference.empty_plain_and_html)
    <> @base64_utf8 Reference.node (or_else (body_data part) EmptyString).
Proof.
  eexists. eexists. split; [reflexivity |].
  split; [reflexivity |]. split; [reflexivity |].
  split; [reflexivity |]. vm_compute. discriminate.
Qed.

(** ** The auth-status endpoint *)

(** C10, as amended.  When the access_token cookie is present with a
    non-empty value, the response body holds the authenticated flag and the
    raw value of the cookie. *)
Theorem auth_check_returns_token (request : AuthCheck.Request) (token : string) :
  AuthCheck.cookies request "access_token" = Some token ->
  token <> EmptyString ->
  AuthCheck.GET request
  = JsObject [("authenticated", JsBool true); ("accessToken", JsString token)].
Proof.
  intros Hcookie Hne. unfold AuthCheck.GET. rewrite Hcookie.
  destruct token as [| a r]; [congruence | reflexivity].
Qed.

Lemma auth_check_returns_token_witness :
  AuthCheck.GET
    (AuthCheck.mkRequest
       (fun name => if String.eqb name "access_token"
                    then Some "ya29.token" else None))
  = JsObject [("authenticated", JsBool true);
              ("accessToken", JsString "ya29.token")].
Proof.
  apply auth_check_returns_token; [reflexivity | discriminate].
Defined.

(** C10, the claim as stated fails: a request whose access_token cookie is
    present with an empty value gets the unauthenticated body, without any
    [accessToken] property. *)
Lemma auth_check_empty_cookie :
  let request :=
    AuthCheck.mkRequest
      (fun name => if String.eqb name "access_token"
                   then Some EmptyString else None) in
  AuthCheck.cookies request "access_token" = Some EmptyString /\
  AuthCheck.GET request = JsObject [("authenticated", JsBool false)] /\
  get (AuthCheck.GET request) "accessToken" = inr JsUndefined.
Proof. repeat split. Qed.

(** ** Computations *)

Lemma bind_inr {A B} (m : M A) (k : A -> M B) (w w' : World) (b : B) :
  bind m k w = (inr b, w') ->
  exists a w1, m w = (inr a, w1) /\ k a w1 = (inr b, w').
Proof.
  unfold bind. destruct (m w) as [[e | a] w1]; intros H.
  - discriminate.
  - now exists a, w1.
Qed.

Lemma calls_log (kind : Event -> bool) (e : Event) (w : World) :
  calls kind (log e w) = (if kind e then S (calls kind w) else calls kind w).
Proof. unfold calls, log. simpl. now destruct (kind e). Qed.

(** ** The label manager *)

Lemma find_label (labelName : string) (ls : list Label) :
  (exists l, In l ls /\ label_name l = labelName) ->
  exists l, find (fun label => String.eqb (label_name label) labelName) ls
            = Some l /\ In l ls /\ label_name l = labelName.
Proof.
  intros [l [Hin Hname]].
  destruct (find (fun label => String.eqb (label_name label) labelName) ls)
    as [l' |] eqn:Hfind.
  - exists l'. apply find_some in Hfind as [Hin' Heq].
    apply String.eqb_eq in Heq. auto.
  - exfalso. apply (find_none _ _ Hfind) in Hin.
    rewrite Hname, String.eqb_refl in Hin. discriminate.
Qed.

Lemma ensureLabelExists_found (labelName : string) (w : World) (l : Label) :
  find (fun label => String.eqb (label_name label) labelName) (labels w)
  = Some l ->
  label_id l <> EmptyString ->
  gmail_fault w (calls is_gmail w) = None ->
  ensureLabelExists labelName w
  = (inr (label_id l), log (GmailCall LabelsList) w).
Proof.
  intros Hfind Hid Hfault.
  unfold ensureLabelExists, try_catch, bind, labels_list, gmail_call.
  rewrite Hfault. simpl. rewrite Hfind.
  destruct (label_id l); [congruence | reflexivity].
Qed.

(** C8.  On an account that has a label named [labelName] (identifiers being
    the provider's, none is empty), two calls of [ensureLabelExists] in a row
    that reach the provider return the same identifier, that of a label of
    this name, and leave the labels of the account as they were: each call
    lists the labels and creates nothing. *)
Theorem ensureLabelExists_idempotent (labelName : string) (w : World) :
  (exists l, In l (labels w) /\ label_name l = labelName) ->
  Forall (fun l => label_id l <> EmptyString) (labels w) ->
  gmail_fault w (calls is_gmail w) = None ->
  gmail_fault w (S (calls is_gmail w)) = None ->
  exists labelId w1 w2,
    ensureLabelExists labelName w = (inr labelId, w1) /\
    ensureLabelExists labelName w1 = (inr labelId, w2) /\
    labels w1 = labels w /\
    labels w2 = labels w /\
    trace w2 = GmailCall LabelsList :: GmailCall LabelsList :: trace w /\
    exists l, In l (labels w) /\ label_name l = labelName /\ label_id l = labelId.
Proof.
  intros Hhas Hids Hfirst Hsecond.
  destruct (find_label labelName (labels w) Hhas) as [l [Hfind [Hin Hname]]].
  assert (Hid : label_id l <> EmptyString).
  { rewrite Forall_forall in Hids. now apply Hids. }
  exists (label_id l), (log (GmailCall LabelsList) w),
    (log (GmailCall LabelsList) (log (GmailCall LabelsList) w)).
  split; [now apply ensureLabelExists_found |].
  split.
  - apply ensureLabelExists_found; [exact Hfind | exact Hid |].
    rewrite calls_log. exact Hsecond.
  - repeat split; try reflexivity. exists l. auto.
Qed.

Lemma ensureLabelExists_idempotent_witness :
  exists labelId w1 w2,
    ensureLabelExists "Work"
      (Reference.account 3 (fun _ => inl Reference.unreachable)
                           (fun _ => inl Reference.unreachable))
    = (inr labelId, w1) /\
    ensureLabelExists "Work" w1 = (inr labelId, w2) /\
    labelId = "Label_7" /\
    length (labels w2) = 2.
Proof.
  destruct (ensureLabelExists_idempotent "Work"
              (Reference.account 3 (fun _ => inl Reference.unreachable)
                                   (fun _ => inl Reference.unreachable)))
    as [labelId [w1 [w2 [H1 [H2 [_ [Hl [_ [l [Hin [Hname Hid]]]]]]]]]]].
  - exists (mkLabel "Label_7" "Work"). split; [simpl; auto | reflexivity].
  - repeat constructor; discriminate.
  - reflexivity.
  - reflexivity.
  - exists labelId, w1, w2. repeat split; try assumption.
    + simpl in Hin. destruct Hin as [<- | [<- | []]].
      * discriminate Hname.
      * symmetry. exact Hid.
    + now rewrite Hl.
Defined.

(** ** Classification: the single-backend route *)

Lemma includes_truthy (c : string) :
  includes validCategories c = true -> truthy (Some c) = true.
Proof. intros H. now apply category_truthy, includes_In. Qed.

Lemma valid_test (c : string) :
  truthy (Some c) && includes validCategories c = includes validCategories c.
Proof.
  destruct (includes validCategories c) eqn:H.
  - now rewrite (includes_truthy c H).
  - apply andb_false_r.
Qed.

Lemma attempt_run (retries : nat) (w : World) :
  SingleBackend.attempt retries w =
  let reply := gemini_reply w (calls is_gemini w) in
  match primary_verdict reply with
  | Some c => (inr (SingleBackend.Return c), log GeminiCall w)
  | None =>
      if SingleBackend.maxRetries <? S retries
      then (inr (SingleBackend.Return "Personal"),
            with_trace (GeminiCall :: trace w) w)
      else (inr (SingleBackend.Again (S retries)),
            with_trace (pause reply ++ GeminiCall :: trace w) w)
  end.
Proof.
  unfold SingleBackend.attempt, try_catch, bind, generateContent.
  cbv zeta.
  destruct (gemini_reply w (calls is_gemini w)) as [e | result];
    cbv beta iota.
  - unfold primary_verdict, ret, sleep, log, pause.
    now destruct (SingleBackend.maxRetries <? S retries).
  - unfold primary_verdict, ret, pause. cbv zeta. rewrite valid_test.
    destruct (includes validCategories
                (or_else (option_map trim (text result)) EmptyString)).
    + reflexivity.
    + now destruct (SingleBackend.maxRetries <? S retries).
Qed.

Lemma calls_paused (reply : Thrown + GenerateContentResponse)
      (t : list Event) (w : World) :
  calls is_gemini (with_trace (pause reply ++ GeminiCall :: t) w)
  = S (length (filter is_gemini t)).
Proof. destruct reply; reflexivity. Qed.

(** What the retry loop does, in full: the replies to the first, second and
    third call decide the result and the calls and pauses made. *)
Lemma retry_run (subject from body : string) (w : World) :
  let n := calls is_gemini w in
  let r0 := gemini_reply w n in
  let r1 := gemini_reply w (S n) in
  let r2 := gemini_reply w (S (S n)) in
  SingleBackend.classifyEmail subject from body w =
  match primary_verdict r0 with
  | Some c => (inr c, with_trace (GeminiCall :: trace w) w)
  | None =>
      match primary_verdict r1 with
      | Some c =>
          (inr c,
           with_trace (GeminiCall :: pause r0 ++ GeminiCall :: trace w) w)
      | None =>
          match primary_verdict r2 with
          | Some c =>
              (inr c,
               with_trace (GeminiCall :: pause r1 ++ GeminiCall
                             :: pause r0 ++ GeminiCall :: trace w) w)
          | None =>
              (inr "Personal",
               with_trace (GeminiCall :: pause r1 ++ GeminiCall
                             :: pause r0 ++ GeminiCall :: trace w) w)
          end
      end
  end.
Proof.
  intros n r0 r1 r2.
  unfold SingleBackend.classifyEmail.
  change (SingleBackend.retry_loop (S SingleBackend.maxRetries) 0 w)
    with (bind (SingleBackend.attempt 0)
            (fun turn => match turn with
                         | SingleBackend.Return category => ret category
                         | SingleBackend.Again retries' =>
                             SingleBackend.retry_loop 2 retries'
                         end) w).
  unfold bind at 1. rewrite attempt_run. cbv zeta. fold n. fold r0.
  destruct (primary_verdict r0) as [c0 |]; [reflexivity |].
  change (SingleBackend.maxRetries <? 1) with false. cbv iota.
  set (w1 := with_trace (pause r0 ++ GeminiCall :: trace w) w).
  change (SingleBackend.retry_loop 2 1 w1)
    with (bind (SingleBackend.attempt 1)
            (fun turn => match turn with
                         | SingleBackend.Return category => ret category
                         | SingleBackend.Again retries' =>
                             SingleBackend.retry_loop 1 retries'
                         end) w1).
  unfold bind at 1. rewrite attempt_run. cbv zeta.
  assert (Hn1 : calls is_gemini w1 = S n) by apply calls_paused.
  rewrite Hn1. change (gemini_reply w1 (S n)) with r1.
  destruct (primary_verdict r1) as [c1 |]; [reflexivity |].
  change (SingleBackend.maxRetries <? 2) with false. cbv iota.
  set (w2 := with_trace (pause r1 ++ GeminiCall :: trace w1) w1).
  change (SingleBackend.retry_loop 1 2 w2)
    with (bind (SingleBackend.attempt 2)
            (fun turn => match turn with
                         | SingleBackend.Return category => ret category
                         | SingleBackend.Again retries' =>
                             SingleBackend.retry_loop 0 retries'
                         end) w2).
  unfold bind at 1. rewrite attempt_run. cbv zeta.
  assert (Hn2 : calls is_gemini w2 = S (S n)).
  { unfold w2. rewrite calls_paused. f_equal. exact Hn1. }
  rewrite Hn2. change (gemini_reply w2 (S (S n))) with r2.
  destruct (primary_verdict r2) as [c2 |]; reflexivity.
Qed.

(** More turns than [S maxRetries] change nothing: the bound on the turns
    does not cut the loop short. *)
Lemma retry_loop_turns (turns retries : nat) (w : World) :
  SingleBackend.maxRetries < retries + turns ->
  SingleBackend.retry_loop (S turns) retries w
  = SingleBackend.retry_loop turns retries w.
Proof.
  revert retries w. induction turns as [| turns IH]; intros retries w Hlt.
  - simpl. destruct (retries <=? SingleBackend.maxRetries) eqn:Hle;
      [| reflexivity].
    apply Nat.leb_le in Hle. lia.
  - change (SingleBackend.retry_loop (S (S turns)) retries w)
      with ((if retries <=? SingleBackend.maxRetries
             then bind (SingleBackend.attempt retries)
                    (fun turn => match turn with
                                 | SingleBackend.Return category => ret category
                                 | SingleBackend.Again retries' =>
                                     SingleBackend.retry_loop (S turns) retries'
                                 end)
             else ret "Personal") w).
    change (SingleBackend.retry_loop (S turns) retries w)
      with ((if retries <=? SingleBackend.maxRetries
             then bind (SingleBackend.attempt retries)
                    (fun turn => match turn with
                                 | SingleBackend.Return category => ret category
                                 | SingleBackend.Again retries' =>
                                     SingleBackend.retry_loop turns retries'
                                 end)
             else ret "Personal") w).
    destruct (retries <=? SingleBackend.maxRetries); [| reflexivity].
    unfold bind. rewrite attempt_run. cbv zeta.
    destruct (primary_verdict (gemini_reply w (calls is_gemini w)));
      [reflexivity |].
    destruct (SingleBackend.maxRetries <? S retries); [reflexivity |].
    apply IH. lia.
Qed.

(** ** Classification: the two-backend route *)

Lemma try_claude_valid (w : World) (completion : Completion) (c : string) :
  anthropic_reply w (calls is_anthropic w) = inr completion ->
  secondary_verdict (inr completion) = Some c ->
  TwoTier.try_claude w
  = (inr (Some (TwoTier.mkResult c "anthropic"
                  (input_tokens completion + output_tokens completion)%N
                  (TwoTier.claude_cost completion))),
     log AnthropicCall w).
Proof.
  intros Hreply Hverdict.
  unfold TwoTier.try_claude, try_catch, bind, anthropic_create.
  rewrite Hreply. cbv beta iota.
  unfold secondary_verdict in Hverdict.
  unfold TwoTier.first_text.
  destruct (content completion) as [| [text |] rest]; try discriminate.
  unfold ret at 1. cbv beta iota.
  unfold TwoTier.parsed_category.
  destruct (JSON_parse text) as [v |]; [| discriminate].
  destruct (get v "category") as [e | [| | | | s | |]]; try discriminate.
  unfold ret at 1. cbv beta iota. unfold TwoTier.valid_value.
  rewrite valid_test.
  destruct (includes validCategories s); [| discriminate].
  now inversion Hverdict.
Qed.

Lemma try_claude_invalid (w : World) :
  secondary_verdict (anthropic_reply w (calls is_anthropic w)) = None ->
  TwoTier.try_claude w = (inr None, log AnthropicCall w).
Proof.
  intros Hverdict.
  unfold TwoTier.try_claude, try_catch, bind, anthropic_create.
  destruct (anthropic_reply w (calls is_anthropic w)) as [e | completion];
    [reflexivity |].
  cbv beta iota. unfold secondary_verdict in Hverdict.
  unfold TwoTier.first_text.
  destruct (content completion) as [| [text |] rest]; try reflexivity.
  unfold ret at 1. cbv beta iota.
  unfold TwoTier.parsed_category.
  destruct (JSON_parse text) as [v |]; [| reflexivity].
  destruct (get v "category") as [e | x]; [reflexivity |].
  unfold ret at 1. cbv beta iota. unfold TwoTier.valid_value.
  destruct x; try reflexivity.
  rewrite valid_test.
  destruct (includes validCategories s); [discriminate | reflexivity].
Qed.

Lemma try_gemini_run (w : World) :
  TwoTier.try_gemini w =
  (inr match gemini_reply w (calls is_gemini w) with
       | inl _ => None
       | inr result =>
           match primary_verdict (inr result) with
           | Some c =>
               Some (TwoTier.mkResult c "gemini" (reported_tokens result)
                       (TwoTier.gemini_cost (reported_tokens result)))
           | None => None
           end
       end,
   log GeminiCall w).
Proof.
  unfold TwoTier.try_gemini, try_catch, bind, generateContent.
  destruct (gemini_reply w (calls is_gemini w)) as [e | result];
    [reflexivity |].
  cbv beta iota zeta. unfold primary_verdict. cbv zeta.
  rewrite valid_test.
  now destruct (includes validCategories
                  (or_else (option_map trim (text result)) EmptyString)).
Qed.

Lemma classify_secondary (subject from body : string) (w : World)
      (completion : Completion) (c : string) :
  anthropic_reply w (calls is_anthropic w) = inr completion ->
  secondary_verdict (inr completion) = Some c ->
  TwoTier.classifyEmail subject from body w
  = (inr (TwoTier.mkResult c "anthropic"
            (input_tokens completion + output_tokens completion)%N
            (TwoTier.claude_cost completion)),
     log AnthropicCall w).
Proof.
  intros Hreply Hverdict. unfold TwoTier.classifyEmail, bind.
  now rewrite (try_claude_valid w completion c Hreply Hverdict).
Qed.

Lemma classify_primary (subject from body : string) (w : World)
      (result : GenerateContentResponse) (c : string) :
  secondary_verdict (anthropic_reply w (calls is_anthropic w)) = None ->
  gemini_reply w (calls is_gemini w) = inr result ->
  primary_verdict (inr result) = Some c ->
  TwoTier.classifyEmail subject from body w
  = (inr (TwoTier.mkResult c "gemini" (reported_tokens result)
            (TwoTier.gemini_cost (reported_tokens result))),
     log GeminiCall (log AnthropicCall w)).
Proof.
  intros Hsecondary Hreply Hverdict. unfold TwoTier.classifyEmail, bind.
  rewrite (try_claude_invalid w Hsecondary), try_gemini_run.
  change (calls is_gemini (log AnthropicCall w)) with (calls is_gemini w).
  change (gemini_reply (log AnthropicCall w)) with (gemini_reply w).
  rewrite Hreply. now rewrite Hverdict.
Qed.

Lemma classify_fallback (subject from body : string) (w : World) :
  secondary_verdict (anthropic_reply w (calls is_anthropic w)) = None ->
  primary_verdict (gemini_reply w (calls is_gemini w)) = None ->
  TwoTier.classifyEmail subject from body w
  = (inr TwoTier.fallback, log GeminiCall (log AnthropicCall w)).
Proof.
  intros Hsecondary Hprimary. unfold TwoTier.classifyEmail, bind.
  rewrite (try_claude_invalid w Hsecondary), try_gemini_run.
  change (calls is_gemini (log AnthropicCall w)) with (calls is_gemini w).
  change (gemini_reply (log AnthropicCall w)) with (gemini_reply w).
  destruct (gemini_reply w (calls is_gemini w)) as [e | result];
    [reflexivity |].
  now rewrite Hprimary.
Qed.

(** C1, as amended.  In the two-backend route, when neither reply carries a
    valid category (the call fails, the secondary reply is not JSON with a
    valid [category] property, the trimmed primary reply is not a member of
    the set, the empty text included), [classifyEmail] returns the default
    category Other with the backend tag fallback, 0 tokens and cost 0.  In the
    single-backend route, when none of the three attempts carries a valid
    category, [classifyEmail] returns the default category Personal, a bare
    string. *)
Theorem classify_default (subject from body : string) (w : World) :
  (secondary_verdict (anthropic_reply w (calls is_anthropic w)) = None ->
   primary_verdict (gemini_reply w (calls is_gemini w)) = None ->
   exists w',
     TwoTier.classifyEmail subject from body w
     = (inr (TwoTier.mkResult "Other" "fallback" 0%N 0%Q), w'))
  /\
  (primary_verdict (gemini_reply w (calls is_gemini w)) = None ->
   primary_verdict (gemini_reply w (S (calls is_gemini w))) = None ->
   primary_verdict (gemini_reply w (S (S (calls is_gemini w)))) = None ->
   exists w',
     SingleBackend.classifyEmail subject from body w = (inr "Personal", w')).
Proof.
  split.
  - intros Hsecondary Hprimary. eexists.
    now apply classify_fallback.
  - intros H0 H1 H2. eexists. rewrite retry_run. cbv zeta.
    rewrite H0, H1, H2. reflexivity.
Qed.

Lemma classify_default_witness :
  let w := Reference.account 1 (fun _ => Reference.writes "Sure! Work")
                               (fun _ => Reference.says EmptyString) in
  (exists w',
     TwoTier.classifyEmail "Hello" "alice@example.com" "hello" w
     = (inr (TwoTier.mkResult "Other" "fallback" 0%N 0%Q), w'))
  /\
  (exists w',
     SingleBackend.classifyEmail "Hello" "alice@example.com" "hello" w
     = (inr "Personal", w')).
Proof.
  intros w.
  destruct (classify_default "Hello" "alice@example.com" "hello" w)
    as [Htwo Hsingle].
  split.
  - apply Htwo; reflexivity.
  - apply Hsingle; reflexivity.
Defined.

(** C1, the claim as stated fails on the single-backend route: after three
    replies outside the Category set, [classifyEmail] resolves to the bare
    string Personal, a value with no backend tag, no token count and no
    cost. *)
Lemma single_backend_default_is_bare :
  let w := Reference.account 1 (fun _ => inl Reference.unreachable)
                               (fun _ => Reference.says "Not sure") in
  includes validCategories "Not sure" = false /\
  exists w',
    SingleBackend.classifyEmail "Hello" "alice@example.com" "hello" w
    = (inr "Personal", w') /\
    get (resolved "Personal") "model" = inr JsUndefined /\
    get (resolved "Personal") "tokens" = inr JsUndefined /\
    get (resolved "Personal") "cost" = inr JsUndefined.
Proof.
  intros w. split; [reflexivity |].
  eexists. split; [vm_compute; reflexivity |]. repeat split.
Qed.

(** C7, as amended.  A reply of the secondary backend whose text is JSON
    with a [category] property equal to a valid Category string makes
    [classifyEmail] return that category with the tag of the secondary
    backend, anthropic.  When the secondary reply carries no valid category,
    a reply of the primary backend whose text equals a valid Category string
    makes [classifyEmail] return that category with the tag of the primary
    backend, gemini. *)
Theorem classify_valid_reply (subject from body : string) (w : World) :
  (forall completion text rest v c,
     anthropic_reply w (calls is_anthropic w) = inr completion ->
     content completion = TextBlock text :: rest ->
     JSON_parse text = Some v ->
     get v "category" = inr (JsString c) ->
     In c validCategories ->
     exists tokens cost w',
       TwoTier.classifyEmail subject from body w
       = (inr (TwoTier.mkResult c "anthropic" tokens cost), w'))
  /\
  (forall result c,
     secondary_verdict (anthropic_reply w (calls is_anthropic w)) = None ->
     gemini_reply w (calls is_gemini w) = inr result ->
     text result = Some c ->
     In c validCategories ->
     exists tokens cost w',
       TwoTier.classifyEmail subject from body w
       = (inr (TwoTier.mkResult c "gemini" tokens cost), w')).
Proof.
  split.
  - intros completion text rest v c Hreply Hcontent Hparse Hget Hin.
    do 3 eexists.
    apply (classify_secondary subject from body w completion c Hreply).
    unfold secondary_verdict. rewrite Hcontent, Hparse, Hget.
    apply includes_In in Hin. now rewrite Hin.
  - intros result c Hsecondary Hreply Htext Hin.
    do 3 eexists.
    apply (classify_primary subject from body w result c Hsecondary Hreply).
    unfold primary_verdict. rewrite Htext. simpl option_map.
    rewrite (trim_category c Hin).
    assert (Hc : or_else (Some c) EmptyString = c).
    { pose proof (category_truthy c Hin) as Ht.
      destruct c; [discriminate | reflexivity]. }
    cbv zeta. rewrite Hc.
    apply includes_In in Hin. now rewrite Hin.
Qed.

Lemma classify_valid_reply_witness :
  (exists tokens cost w',
     TwoTier.classifyEmail "Hello" "alice@example.com" "hello"
       (Reference.account 1
          (fun _ => Reference.writes (dq "{'category': 'Finance'}"))
          (fun _ => Reference.says "Work"))
     = (inr (TwoTier.mkResult "Finance" "anthropic" tokens cost), w'))
  /\
  (exists tokens cost w',
     TwoTier.classifyEmail "Hello" "alice@example.com" "hello"
       (Reference.account 1
          (fun _ => Reference.writes "Finance")
          (fun _ => Reference.says "Work"))
     = (inr (TwoTier.mkResult "Work" "gemini" tokens cost), w')).
Proof.
  split.
  - apply (proj1 (classify_valid_reply "Hello" "alice@example.com" "hello"
                    (Reference.account 1
                       (fun _ => Reference.writes (dq "{'category': 'Finance'}"))
                       (fun _ => Reference.says "Work")))
             (mkCompletion [TextBlock (dq "{'category': 'Finance'}")] 300%N 8%N)
             (dq "{'category': 'Finance'}") []
             (JsObject [("category", JsString "Finance")]) "Finance").
    + reflexivity.
    + reflexivity.
    + reflexivity.
    + reflexivity.
    + simpl. tauto.
  - apply (proj2 (classify_valid_reply "Hello" "alice@example.com" "hello"
                    (Reference.account 1
                       (fun _ => Reference.writes "Finance")
                       (fun _ => Reference.says "Work")))
             (mkGenerated (Some "Work") (Some 120%N)) "Work").
    + reflexivity.
    + reflexivity.
    + reflexivity.
    + simpl. tauto.
Defined.

(** C7, the claim as stated fails: the text of this reply of the secondary
    backend equals the valid Category string Work, [JSON.parse] rejects it,
    the failure is swallowed, and with the primary backend out of reach
    [classifyEmail] returns the default: neither Work nor the tag of the
    secondary backend. *)
Lemma secondary_reply_must_be_json :
  let w := Reference.account 1 (fun _ => Reference.writes "Work")
                               (fun _ => inl Reference.unreachable) in
  anthropic_reply w (calls is_anthropic w)
  = inr (mkCompletion [TextBlock "Work"] 300%N 8%N) /\
  In "Work" validCategories /\
  JSON_parse "Work" = None /\
  fst (TwoTier.classifyEmail "Hello" "alice@example.com" "hello" w)
  = inr (TwoTier.mkResult "Other" "fallback" 0%N 0%Q).
Proof.
  intros w. split; [reflexivity |]. split; [simpl; tauto |].
  split; reflexivity.
Qed.

(** C2, the claim as stated fails: three invalid replies make three calls
    in a row, without any delay between the attempts. *)
Lemma retry_without_delay :
  let w := Reference.account 1 (fun _ => inl Reference.unreachable)
                               (fun _ => Reference.says "Not sure") in
  exists w',
    SingleBackend.classifyEmail "Hello" "alice@example.com" "hello" w
    = (inr "Personal", w') /\
    trace w' = [GeminiCall; GeminiCall; GeminiCall].
Proof.
  intros w. eexists. split; [vm_compute; reflexivity | reflexivity].
Qed.

(** ** Provider calls made for one message *)

Lemma bind_run {A B} (m : M A) (k : A -> M B) (w w' : World)
      (r : Thrown + B) :
  bind m k w = (r, w') ->
  (exists e, m w = (inl e, w') /\ r = inl e) \/
  (exists a w1, m w = (inr a, w1) /\ k a w1 = (r, w')).
Proof.
  unfold bind. destruct (m w) as [[e | a] w1]; intros H.
  - left. exists e. now inversion H.
  - right. now exists a, w1.
Qed.

Lemma issued_refl (w : World) : issued w w [].
Proof. now exists []. Qed.

Lemma issued_trans (w w1 w2 : World) (a b : list Event) :
  issued w w1 a -> issued w1 w2 b -> issued w w2 (b ++ a).
Proof.
  intros [n1 [H1 F1]] [n2 [H2 F2]]. exists (n2 ++ n1). split.
  - now rewrite H2, H1, app_assoc.
  - now rewrite filter_app, F1, F2.
Qed.

Lemma issued_call {A} (op : GmailOp) (answer : M A) (w w' : World)
      (r : Thrown + A) :
  (forall v, trace (snd (answer v)) = trace v) ->
  gmail_call op answer w = (r, w') ->
  issued w w' [GmailCall op].
Proof.
  intros Hkeeps. unfold gmail_call.
  destruct (gmail_fault w (calls is_gmail w)); intros H.
  - inversion H. now exists [GmailCall op].
  - exists [GmailCall op]. split; [| reflexivity].
    pose proof (Hkeeps (log (GmailCall op) w)) as Ht.
    rewrite H in Ht. exact Ht.
Qed.

Lemma issued_get (id : string) (w w' : World) (r : Thrown + Message) :
  messages_get id w = (r, w') -> issued w w' [GmailCall (MessagesGet id)].
Proof.
  apply issued_call. intros v.
  now destruct (find (fun m => String.eqb (message_id m) id) (mailbox v)).
Qed.

Lemma issued_list (w w' : World) (r : Thrown + list Label) :
  labels_list w = (r, w') -> issued w w' [GmailCall LabelsList].
Proof. apply issued_call. reflexivity. Qed.

Lemma issued_create (name : string) (w w' : World) (r : Thrown + string) :
  labels_create name w = (r, w') ->
  issued w w' [GmailCall (LabelsCreate name)].
Proof. apply issued_call. reflexivity. Qed.

Lemma issued_modify (id : string) (add remove : list string) (w w' : World)
      (r : Thrown + unit) :
  messages_modify id add remove w = (r, w') ->
  issued w w' [GmailCall (MessagesModify id add remove)].
Proof.
  apply issued_call. intros v.
  now destruct (find (fun m => String.eqb (message_id m) id) (mailbox v)).
Qed.

Lemma issued_retry (subject from body : string) (w w' : World)
      (r : Thrown + string) :
  SingleBackend.classifyEmail subject from body w = (r, w') ->
  issued w w' [].
Proof.
  rewrite retry_run. cbv zeta.
  set (r0 := gemini_reply w (calls is_gemini w)).
  set (r1 := gemini_reply w (S (calls is_gemini w))).
  set (r2 := gemini_reply w (S (S (calls is_gemini w)))).
  assert (Hp : forall reply, filter is_gmail (pause reply) = []).
  { now intros [e | x]. }
  destruct (primary_verdict r0).
  { intros H. inversion H. now exists [GeminiCall]. }
  destruct (primary_verdict r1).
  { intros H. inversion H. exists (GeminiCall :: pause r0 ++ [GeminiCall]).
    split.
    - simpl. now rewrite <- app_assoc.
    - simpl. now rewrite filter_app, Hp. }
  assert (Hboth :
            issued w
              (with_trace (GeminiCall :: pause r1 ++ GeminiCall
                             :: pause r0 ++ GeminiCall :: trace w) w) []).
  { exists (GeminiCall :: pause r1 ++ GeminiCall :: pause r0 ++ [GeminiCall]).
    split.
    - simpl. rewrite <- app_assoc. simpl. now rewrite <- app_assoc.
    - simpl. rewrite filter_app, Hp. simpl. now rewrite filter_app, Hp. }
  destruct (primary_verdict r2); intros H; inversion H; subst; exact Hboth.
Qed.

Lemma issued_ensure (labelName : string) (w w' : World)
      (r : Thrown + string) :
  ensureLabelExists labelName w = (r, w') ->
  issued w w' [GmailCall LabelsList] \/
  issued w w' [GmailCall (LabelsCreate labelName); GmailCall LabelsList].
Proof.
  unfold ensureLabelExists, try_catch.
  match goal with
  | |- context [bind ?m ?k w] =>
      destruct (bind m k w) as [r1 w1] eqn:Hrun
  end.
  intros H.
  assert (Hw : w1 = w').
  { destruct r1; unfold throw in H; now inversion H. }
  subst w1. clear H.
  apply bind_run in Hrun as [[e [Hlist _]] | [ls [w1 [Hlist Hrest]]]].
  - left. now apply issued_list in Hlist.
  - apply issued_list in Hlist.
    assert (Hcreate :
              labels_create labelName w1 = (r1, w') ->
              issued w w' [GmailCall (LabelsCreate labelName);
                           GmailCall LabelsList]).
    { intros Hc. apply issued_create in Hc.
      exact (issued_trans w w1 w' _ _ Hlist Hc). }
    destruct (find (fun label => String.eqb (label_name label) labelName) ls)
      as [l |]; [| right; auto].
    destruct (truthy (Some (label_id l))); [| right; auto].
    left. unfold ret in Hrest. inversion Hrest. now subst.
Qed.

Section SingleBackendFacts.
Context {platform : Platform}.

Lemma process_calls (email : string) (w w' : World) (r : Thrown + EmailData) :
  SingleBackend.process email w = (r, w') ->
  exists ops, issued w w' ops /\ NoDup ops.
Proof.
  unfold SingleBackend.process. intros H.
  apply bind_run in H as [[e [Hget _]] | [m [w1 [Hget H]]]];
    apply issued_get in Hget.
  { exists [GmailCall (MessagesGet email)]. split; [exact Hget |].
    repeat constructor. simpl. tauto. }
  cbv zeta in H.
  apply bind_run in H as [[e [Hcl _]] | [c [w2 [Hcl H]]]];
    apply issued_retry in Hcl;
    pose proof (issued_trans _ _ _ _ _ Hget Hcl) as H2; simpl in H2.
  { exists [GmailCall (MessagesGet email)]. split; [exact H2 |].
    repeat constructor. simpl. tauto. }
  assert (Hdistinct :
            forall labelId : string,
              NoDup [GmailCall (MessagesModify email [labelId] ["UNREAD"]);
                     GmailCall LabelsList; GmailCall (MessagesGet email)]
              /\ NoDup [GmailCall (MessagesModify email [labelId] ["UNREAD"]);
                        GmailCall (LabelsCreate c);
                        GmailCall LabelsList; GmailCall (MessagesGet email)]
              /\ NoDup [GmailCall LabelsList; GmailCall (MessagesGet email)]
              /\ NoDup [GmailCall (LabelsCreate c);
                        GmailCall LabelsList; GmailCall (MessagesGet email)]).
  { intros labelId.
    repeat split; repeat constructor; simpl; intuition discriminate. }
  apply bind_run in H as [[e [Hen _]] | [labelId [w3 [Hen H]]]];
    apply issued_ensure in Hen.
  { destruct (Hdistinct EmptyString) as [_ [_ [Hl Hc]]].
    destruct Hen as [Hen | Hen];
      pose proof (issued_trans _ _ _ _ _ H2 Hen) as H3; simpl in H3;
      eexists; (split; [exact H3 |]); assumption. }
  destruct (Hdistinct labelId) as [Hml [Hmc _]].
  assert (Hlast : exists r0, messages_modify email [labelId] ["UNREAD"] w3
                             = (r0, w')).
  { apply bind_run in H as [[e [Hm _]] | [u [w4 [Hm H]]]].
    - now exists (inl e).
    - unfold ret in H. inversion H. subst. now exists (inr u). }
  destruct Hlast as [r0 Hm]. apply issued_modify in Hm.
  destruct Hen as [Hen | Hen];
    pose proof (issued_trans _ _ _ _ _ H2 Hen) as H3; simpl in H3;
    pose proof (issued_trans _ _ _ _ _ H3 Hm) as H4; simpl in H4;
    eexists; (split; [exact H4 |]); assumption.
Qed.

End SingleBackendFacts.

(** ** Result records of the two-backend route *)

Lemma secondary_verdict_valid (reply : Thrown + Completion) (c : string) :
  secondary_verdict reply = Some c -> In c validCategories.
Proof.
  unfold secondary_verdict.
  destruct reply as [e | completion]; [discriminate |].
  destruct (content completion) as [| [text |] rest]; try discriminate.
  destruct (JSON_parse text) as [v |]; [| discriminate].
  destruct (get v "category") as [e | [| | | | s | |]]; try discriminate.
  destruct (includes validCategories s) eqn:Hs; [| discriminate].
  intros H. inversion H. subst. now apply includes_In.
Qed.

Lemma primary_verdict_valid (reply : Thrown + GenerateContentResponse)
      (c : string) :
  primary_verdict reply = Some c -> In c validCategories.
Proof.
  unfold primary_verdict.
  destruct reply as [e | result]; [discriminate |]. cbv zeta.
  destruct (includes validCategories
              (or_else (option_map trim (text result)) EmptyString)) eqn:Hs;
    [| discriminate].
  intros H. inversion H. subst. now apply includes_In.
Qed.

(** [classifyEmail] of the two-backend route always returns, a member of the
    Category set, and the fallback tag comes with no usage. *)
Lemma classify_total (subject from body : string) (w : World) :
  exists r w',
    TwoTier.classifyEmail subject from body w = (inr r, w') /\
    In (TwoTier.result_category r) validCategories /\
    (TwoTier.result_model r = "fallback" ->
     TwoTier.result_tokens r = 0%N /\ TwoTier.result_cost r = 0%Q).
Proof.
  destruct (secondary_verdict (anthropic_reply w (calls is_anthropic w)))
    as [c |] eqn:Hsecondary.
  - destruct (anthropic_reply w (calls is_anthropic w))
      as [e | completion] eqn:Hreply; [discriminate |].
    do 2 eexists. split.
    + exact (classify_secondary subject from body w completion c
               Hreply Hsecondary).
    + split; [exact (secondary_verdict_valid _ _ Hsecondary) |].
      simpl. discriminate.
  - destruct (primary_verdict (gemini_reply w (calls is_gemini w)))
      as [c |] eqn:Hprimary.
    + destruct (gemini_reply w (calls is_gemini w))
        as [e | result] eqn:Hreply; [discriminate |].
      do 2 eexists. split.
      * exact (classify_primary subject from body w result c
                 Hsecondary Hreply Hprimary).
      * split; [exact (primary_verdict_valid _ _ Hprimary) |].
        simpl. discriminate.
    + do 2 eexists. split.
      * exact (classify_fallback subject from body w Hsecondary Hprimary).
      * split; [simpl; tauto | auto].
Qed.

Lemma failed_well_formed (email : string) (e : Thrown) :
  well_formed (failed email e).
Proof.
  constructor; simpl.
  - now right.
  - split; [discriminate | reflexivity].
  - intros [H | H]; congruence.
  - discriminate.
Qed.

Section TwoTierFacts.
Context {platform : Platform}.

Lemma pipeline_result (email : string) (w w' : World) (r : EmailData) :
  TwoTier.pipeline email w = (inr r, w') ->
  well_formed r /\ id r = email.
Proof.
  unfold TwoTier.pipeline. intros H.
  apply bind_inr in H as [m [w1 [_ H]]]. cbv zeta in H.
  apply bind_inr in H as [cr [w2 [Hcl H]]].
  apply bind_inr in H as [labelId [w3 [_ H]]].
  apply bind_inr in H as [u [w4 [_ H]]].
  unfold ret in H. inversion H. subst. clear H.
  destruct (classify_total
              (or_else (header "Subject"
                          match payload m with
                          | Some p => headers p
                          | None => None
                          end) "No Subject")
              (or_else (header "From"
                          match payload m with
                          | Some p => headers p
                          | None => None
                          end) "Unknown Sender")
              (extractEmailBody (payload m)) w1)
    as [cr' [w2' [Hcl' [Hin Hfb]]]].
  rewrite Hcl in Hcl'. inversion Hcl'. subst.
  split; [| reflexivity].
  constructor; simpl.
  - now left.
  - split; [discriminate | congruence].
  - reflexivity.
  - intros Hm. inversion Hm as [Hm']. destruct (Hfb Hm') as [Ht Hc].
    now rewrite Ht, Hc.
Qed.

Lemma processSingleEmail_run (email : string) (w : World) :
  TwoTier.processSingleEmail email w =
  match TwoTier.pipeline email w with
  | (inr r, w') => (inr r, w')
  | (inl e, w') => (inr (failed email e), w')
  end.
Proof. reflexivity. Qed.

Lemma processSingleEmail_result (email : string) (w : World) :
  exists r w',
    TwoTier.processSingleEmail email w = (inr r, w') /\
    well_formed r /\ id r = email /\
    Batch w [email] [r] w'.
Proof.
  rewrite processSingleEmail_run.
  destruct (TwoTier.pipeline email w) as [[e | r] w'] eqn:Hrun.
  - exists (failed email e), w'. split; [reflexivity |].
    split; [apply failed_well_formed |]. split; [reflexivity |].
    eapply Batch_failed; [exact Hrun | constructor].
  - exists r, w'. split; [reflexivity |].
    destruct (pipeline_result email w w' r Hrun) as [Hwf Hid].
    split; [exact Hwf |]. split; [exact Hid |].
    eapply Batch_labeled; [exact Hrun | constructor].
Qed.

Lemma process_all_run (emails : list string) (acc : list EmailData)
      (w : World) :
  exists results w',
    TwoTier.process_all emails acc w = (inr (acc ++ results), w') /\
    Batch w emails results w' /\
    Forall well_formed results /\
    map id results = emails.
Proof.
  revert acc w. induction emails as [| email emails IH]; intros acc w.
  - exists [], w. rewrite app_nil_r. repeat split; constructor.
  - destruct (processSingleEmail_result email w)
      as [r [w1 [Hrun [Hwf [Hid Hbatch]]]]].
    destruct (IH (acc ++ [r]) w1) as [rs [w2 [Hrest [Hb [Hall Hids]]]]].
    exists (r :: rs), w2. split.
    + simpl. unfold bind at 1, try_catch. rewrite Hrun.
      rewrite Hrest. now rewrite <- app_assoc.
    + split.
      * inversion Hbatch; subst.
        -- match goal with
           | Hn : Batch _ [] _ _ |- _ => inversion Hn; subst
           end.
           eapply Batch_labeled; eassumption.
        -- match goal with
           | Hn : Batch _ [] _ _ |- _ => inversion Hn; subst
           end.
           eapply Batch_failed; eassumption.
      * split; [now constructor | simpl; now rewrite Hid, Hids].
Qed.


Lemma two_backend_results (request : Thrown + RequestBody) (w w' : World)
      (status : nat) (results : list EmailData) (userEmail : option string) :
  TwoTier.POST request w = (inr (Json status (Results results userEmail)), w') ->
  Forall well_formed results.
Proof.
  unfold TwoTier.POST, try_catch.
  destruct request as [e | request]; [discriminate |].
  destruct (negb (truthy (accessToken request))); [discriminate |].
  unfold bind at 1.
  destruct (TwoTier.listing w) as [[e | [user emails]] w1]; [discriminate |].
  destruct (truthy (emailId request)).
  - destruct (find (fun email => String.eqb email
                                   (or_else (emailId request) EmptyString))
                emails) as [target |]; [| discriminate].
    unfold bind.
    destruct (processSingleEmail_result target w1)
      as [r [w2 [Hrun [Hwf _]]]].
    rewrite Hrun. unfold ret. intros H. inversion H.
    constructor; [exact Hwf | constructor].
  - destruct (process_all_run emails [] w1) as [rs [w2 [Hrun [_ [Hall _]]]]].
    unfold bind. rewrite Hrun. unfold ret. simpl. intros H.
    inversion H. subst. exact Hall.
Qed.

(** The two-backend route lists at most [MAX_EMAILS] messages. *)
Lemma listing_bounded (w w1 : World) (userEmail : string)
      (emails : list string) :
  TwoTier.listing w = (inr (userEmail, emails), w1) ->
  exists query, emails = firstn MAX_EMAILS (search w query).
Proof.
  unfold TwoTier.listing. intros H.
  apply bind_inr in H as [user [wa [Hprofile H]]].
  apply bind_inr in H as [names [wb [Hnames H]]]. cbv zeta in H.
  apply bind_inr in H as [listed [wc [Hlist H]]].
  unfold ret in H. inversion H. subst. clear H.
  exists (TwoTier.build_query names).
  assert (Ha : search wa = search w).
  { unfold try_catch, bind, getProfile, gmail_call in Hprofile.
    destruct (gmail_fault w (calls is_gmail w)); now inversion Hprofile. }
  assert (Hb : search wb = search wa).
  { unfold TwoTier.getCustomLabelNames, try_catch, bind, labels_list,
      gmail_call in Hnames.
    destruct (gmail_fault wa (calls is_gmail wa)); now inversion Hnames. }
  unfold messages_list, gmail_call in Hlist.
  destruct (gmail_fault wb (calls is_gmail wb)); [discriminate |].
  inversion Hlist. simpl. now rewrite Hb, Ha.
Qed.

End TwoTierFacts.


(** C5, the claim as stated fails: with both backends out of reach the
    category comes from the static fallback, and the record of the message
    has its token and cost fields all the same, set to 0. *)
Lemma fallback_reports_usage :
  let w := Reference.account 1 (fun _ => inl Reference.unreachable)
                               (fun _ => inl Reference.unreachable) in
  exists w',
    @TwoTier.processSingleEmail Reference.node "m1" w
    = (inr (mkEmailData "m1" "Hello" "Other" true
              (Some "fallback") (Some 0%N) (Some 0%Q) None), w').
Proof. intros w. eexists. vm_compute. reflexivity. Qed.

(** ** The batch of the single-backend route *)

Section SingleBackendBatch.
Context {platform : Platform}.

Lemma process_result (email : string) (w w' : World) (r : EmailData) :
  SingleBackend.process email w = (inr r, w') -> id r = email.
Proof.
  unfold SingleBackend.process. intros H.
  apply bind_inr in H as [m [w1 [_ H]]]. cbv zeta in H.
  apply bind_inr in H as [c [w2 [_ H]]].
  apply bind_inr in H as [labelId [w3 [_ H]]].
  apply bind_inr in H as [u [w4 [_ H]]].
  unfold ret in H. now inversion H.
Qed.

Lemma single_process_all_run (emails : list string) (acc : list EmailData)
      (w : World) :
  exists results w',
    SingleBackend.process_all emails acc w = (inr (acc ++ results), w') /\
    map id results = emails.
Proof.
  revert acc w. induction emails as [| email emails IH]; intros acc w.
  - exists [], w. now rewrite app_nil_r.
  - simpl. unfold bind at 1, try_catch.
    destruct (SingleBackend.process email w) as [[e | r] w1] eqn:Hrun.
    + destruct (IH (acc ++ [failed email e]) w1) as [rs [w2 [Hrest Hids]]].
      exists (failed email e :: rs), w2. unfold ret. rewrite Hrest.
      rewrite <- app_assoc. simpl. now rewrite Hids.
    + destruct (IH (acc ++ [r]) w1) as [rs [w2 [Hrest Hids]]].
      exists (r :: rs), w2. rewrite Hrest.
      rewrite <- app_assoc. simpl.
      now rewrite Hids, (process_result email w w1 r Hrun).
Qed.

Lemma retry_valid (subject from body : string) (w w' : World) (c : string) :
  SingleBackend.classifyEmail subject from body w = (inr c, w') ->
  In c validCategories.
Proof.
  rewrite retry_run. cbv zeta.
  destruct (primary_verdict (gemini_reply w (calls is_gemini w)))
    as [c0 |] eqn:H0.
  { intros H. inversion H. subst. exact (primary_verdict_valid _ _ H0). }
  destruct (primary_verdict (gemini_reply w (S (calls is_gemini w))))
    as [c1 |] eqn:H1.
  { intros H. inversion H. subst. exact (primary_verdict_valid _ _ H1). }
  destruct (primary_verdict (gemini_reply w (S (S (calls is_gemini w)))))
    as [c2 |] eqn:H2.
  { intros H. inversion H. subst. exact (primary_verdict_valid _ _ H2). }
  intros H. inversion H. simpl. tauto.
Qed.

Lemma process_well_formed (email : string) (w w' : World) (r : EmailData) :
  SingleBackend.process email w = (inr r, w') -> well_formed r.
Proof.
  unfold SingleBackend.process. intros H.
  apply bind_inr in H as [m [w1 [_ H]]]. cbv zeta in H.
  apply bind_inr in H as [c [w2 [Hcl H]]].
  apply bind_inr in H as [labelId [w3 [_ H]]].
  apply bind_inr in H as [u [w4 [_ H]]].
  unfold ret in H. inversion H. subst. clear H.
  apply retry_valid in Hcl.
  constructor; simpl.
  - now left.
  - split; [discriminate | congruence].
  - reflexivity.
  - discriminate.
Qed.

Lemma single_process_all_well_formed (emails : list string)
      (acc : list EmailData) (w w' : World) (results : list EmailData) :
  Forall well_formed acc ->
  SingleBackend.process_all emails acc w = (inr results, w') ->
  Forall well_formed results.
Proof.
  revert acc w. induction emails as [| email emails IH]; intros acc w Hacc.
  - simpl. unfold ret. intros H. inversion H. now subst.
  - simpl. unfold bind at 1, try_catch.
    destruct (SingleBackend.process email w) as [[e | r] w1] eqn:Hrun.
    + unfold ret. apply IH. apply Forall_app. split; [exact Hacc |].
      constructor; [apply failed_well_formed | constructor].
    + apply IH. apply Forall_app. split; [exact Hacc |].
      constructor; [exact (process_well_formed _ _ _ _ Hrun) | constructor].
Qed.

Lemma single_backend_results (request : Thrown + RequestBody) (w w' : World)
      (status : nat) (results : list EmailData) (userEmail : option string) :
  SingleBackend.POST request w
  = (inr (Json status (Results results userEmail)), w') ->
  Forall well_formed results.
Proof.
  unfold SingleBackend.POST, try_catch.
  destruct request as [e | request]; [discriminate |].
  destruct (negb (truthy (accessToken request))); [discriminate |].
  unfold bind at 1.
  destruct (messages_list "is:unread" 2 w) as [[e | emails] w1];
    [discriminate |].
  unfold bind.
  destruct (SingleBackend.process_all emails [] w1) as [[e | rs] w2] eqn:Hrun;
    [discriminate |].
  unfold ret. intros H. inversion H. subst.
  exact (single_process_all_well_formed emails [] w1 w' results
           (Forall_nil _) Hrun).
Qed.

(** C5, as amended.  Every result record of a response, of either route,
    satisfies: its category is a valid Category string or the literal Error;
    its success flag is false if and only if an error message is present;
    its token and cost fields are present only when the success flag is true;
    and when the static fallback produced the category the success flag is
    true and both fields are present, with 0 tokens and cost 0. *)
Theorem results_well_formed (request : Thrown + RequestBody) (w w' : World)
        (status : nat) (results : list EmailData) (userEmail : option string) :
  TwoTier.POST request w = (inr (Json status (Results results userEmail)), w')
  \/ SingleBackend.POST request w
     = (inr (Json status (Results results userEmail)), w') ->
  Forall well_formed results.
Proof.
  intros [H | H].
  - exact (two_backend_results request w w' status results userEmail H).
  - exact (single_backend_results request w w' status results userEmail H).
Qed.

(** C3, on the code of [src/app/api/gmail/route.ts]: the route asks the
    provider for at most 2 messages, and returns one record for each of the
    first two messages that match. *)
Theorem single_backend_lists_two (request : RequestBody) (w : World) :
  truthy (accessToken request) = true ->
  gmail_fault w (calls is_gmail w) = None ->
  exists results w',
    SingleBackend.POST (inr request) w
    = (inr (Json 200 (Results results None)), w') /\
    map id results = firstn 2 (search w "is:unread").
Proof.
  intros Htoken Hfault.
  unfold SingleBackend.POST, try_catch. rewrite Htoken. cbv beta iota.
  unfold negb. unfold bind at 1, messages_list, gmail_call.
  rewrite Hfault.
  destruct (single_process_all_run
              (firstn 2 (search w "is:unread")) []
              (log (GmailCall (MessagesList "is:unread" 2)) w))
    as [rs [w2 [Hrun Hids]]].
  exists rs, w2. unfold bind. simpl search. rewrite Hrun. now split.
Qed.

End SingleBackendBatch.

Lemma results_well_formed_witness :
  exists results,
    fst (@TwoTier.POST Reference.node (inr Reference.token_request)
                       Reference.three_messages)
    = inr (Json 200 (Results results (Some "me@example.com"))) /\
    length results = 3 /\
    Forall well_formed results.
Proof.
  eexists. split; [vm_compute; reflexivity |]. split; [reflexivity |].
  apply (@results_well_formed Reference.node (inr Reference.token_request)
           Reference.three_messages
           (snd (@TwoTier.POST Reference.node (inr Reference.token_request)
                               Reference.three_messages))
           200 _ (Some "me@example.com")).
  left. vm_compute. reflexivity.
Defined.

Lemma single_backend_lists_two_witness :
  let w := Reference.account 25 (fun _ => inl Reference.unreachable)
                                (fun _ => Reference.says "Work") in
  length (search w "is:unread") = 25 /\
  exists results w',
    @SingleBackend.POST Reference.node (inr Reference.token_request) w
    = (inr (Json 200 (Results results None)), w') /\
    map id results = ["m1"; "m2"].
Proof.
  intros w. split; [reflexivity |].
  apply (@single_backend_lists_two Reference.node Reference.token_request w);
    reflexivity.
Defined.

(** The two-backend route on the same account: ten records. *)
Example two_backend_lists_ten :
  let w := Reference.account 25 (fun _ => inl Reference.unreachable)
                                (fun _ => Reference.says "Work") in
  exists results w',
    @TwoTier.POST Reference.node (inr Reference.token_request) w
    = (inr (Json 200 (Results results (Some "me@example.com"))), w') /\
    length results = 10.
Proof. intros w. do 2 eexists. split; vm_compute; reflexivity. Qed.

(** * Further properties of the routes *)

Import Effects.

(** ** What a call leaves unchanged *)

Lemma same_account_refl (w : World) : same_account w w.
Proof. now split. Qed.

Lemma same_account_trans (w w1 w2 : World) :
  same_account w w1 -> same_account w1 w2 -> same_account w w2.
Proof. intros [H1 H2] [H3 H4]. split; congruence. Qed.

Lemma gmail_call_keeps {A} (op : GmailOp) (answer : M A) (w w' : World)
      (r : Thrown + A) :
  (forall v, same_account v (snd (answer v))) ->
  gmail_call op answer w = (r, w') ->
  same_account w w'.
Proof.
  intros Hkeeps. unfold gmail_call.
  destruct (gmail_fault w (calls is_gmail w)); intros H.
  - inversion H. now split.
  - pose proof (Hkeeps (log (GmailCall op) w)) as Hk.
    rewrite H in Hk. exact Hk.
Qed.

Lemma getProfile_keeps (w w' : World) (r : Thrown + option string) :
  getProfile w = (r, w') -> same_account w w'.
Proof. apply gmail_call_keeps. intros v. now split. Qed.

Lemma labels_list_keeps (w w' : World) (r : Thrown + list Label) :
  labels_list w = (r, w') -> same_account w w'.
Proof. apply gmail_call_keeps. intros v. now split. Qed.

Lemma messages_list_keeps (q : string) (n : nat) (w w' : World)
      (r : Thrown + list string) :
  messages_list q n w = (r, w') -> same_account w w'.
Proof. apply gmail_call_keeps. intros v. now split. Qed.

Lemma messages_get_keeps (id : string) (w w' : World) (r : Thrown + Message) :
  messages_get id w = (r, w') -> same_account w w'.
Proof.
  apply gmail_call_keeps. intros v.
  destruct (find (fun m => String.eqb (message_id m) id) (mailbox v));
    now split.
Qed.

Lemma messages_get_found (id : string) (w w' : World) (m : Message) :
  messages_get id w = (inr m, w') -> In m (mailbox w) /\ message_id m = id.
Proof.
  unfold messages_get, gmail_call.
  destruct (gmail_fault w (calls is_gmail w)); [discriminate |].
  simpl.
  destruct (find (fun m => String.eqb (message_id m) id) (mailbox w))
    as [m' |] eqn:Hfind; [| discriminate].
  intros H. inversion H. subst.
  apply find_some in Hfind as [Hin Heq]. apply String.eqb_eq in Heq. auto.
Qed.

Lemma try_claude_keeps (w w' : World) (r : Thrown + option TwoTier.ClassificationResult) :
  TwoTier.try_claude w = (r, w') -> w' = log AnthropicCall w.
Proof.
  destruct (secondary_verdict (anthropic_reply w (calls is_anthropic w)))
    as [c |] eqn:Hv.
  - destruct (anthropic_reply w (calls is_anthropic w))
      as [e | completion] eqn:Hreply; [discriminate |].
    rewrite (try_claude_valid w completion c Hreply Hv).
    intros H. now inversion H.
  - rewrite (try_claude_invalid w Hv). intros H. now inversion H.
Qed.

Lemma classify_frame (subject from body : string) (w : World) :
  exists r w',
    TwoTier.classifyEmail subject from body w = (inr r, w') /\
    same_account w w' /\
    ((secondary_verdict (anthropic_reply w (calls is_anthropic w)) <> None /\
      trace w' = AnthropicCall :: trace w)
     \/
     (secondary_verdict (anthropic_reply w (calls is_anthropic w)) = None /\
      trace w' = GeminiCall :: AnthropicCall :: trace w)).
Proof.
  destruct (secondary_verdict (anthropic_reply w (calls is_anthropic w)))
    as [c |] eqn:Hsecondary.
  - destruct (anthropic_reply w (calls is_anthropic w))
      as [e | completion] eqn:Hreply; [discriminate |].
    do 2 eexists. split.
    + exact (classify_secondary subject from body w completion c
               Hreply Hsecondary).
    + split; [now split |]. left. split; [discriminate | reflexivity].
  - destruct (primary_verdict (gemini_reply w (calls is_gemini w)))
      as [c |] eqn:Hprimary.
    + destruct (gemini_reply w (calls is_gemini w))
        as [e | result] eqn:Hreply; [discriminate |].
      do 2 eexists. split.
      * exact (classify_primary subject from body w result c
                 Hsecondary Hreply Hprimary).
      * split; [now split |]. right. now split.
    + do 2 eexists. split.
      * exact (classify_fallback subject from body w Hsecondary Hprimary).
      * split; [now split |]. right. now split.
Qed.

(** X10.  [classifyEmail] of the two-backend route always returns.  It
    calls the secondary backend once; it calls the primary backend, once,
    exactly when the secondary reply carries no valid category; and it
    leaves the account alone. *)
Theorem classify_calls (subject from body : string) (w : World) :
  exists r w',
    TwoTier.classifyEmail subject from body w = (inr r, w') /\
    same_account w w' /\
    ((secondary_verdict (anthropic_reply w (calls is_anthropic w)) <> None /\
      trace w' = AnthropicCall :: trace w)
     \/
     (secondary_verdict (anthropic_reply w (calls is_anthropic w)) = None /\
      trace w' = GeminiCall :: AnthropicCall :: trace w)).
Proof. exact (classify_frame subject from body w). Qed.


(** ** The label manager, further *)

Lemma find_absent (labelName : string) (ls : list Label) :
  (forall l, In l ls -> label_name l <> labelName) ->
  find (fun label => String.eqb (label_name label) labelName) ls = None.
Proof.
  induction ls as [| l ls IH]; intros Habsent; [reflexivity |].
  simpl. destruct (String.eqb (label_name l) labelName) eqn:Heq.
  - apply String.eqb_eq in Heq. exfalso.
    apply (Habsent l); [now left | exact Heq].
  - apply IH. intros l' Hin. apply Habsent. now right.
Qed.

Lemma find_appended (labelName : string) (ls : list Label) (l : Label) :
  (forall l', In l' ls -> label_name l' <> labelName) ->
  label_name l = labelName ->
  find (fun label => String.eqb (label_name label) labelName) (ls ++ [l])
  = Some l.
Proof.
  induction ls as [| l0 ls IH]; intros Habsent Hname; simpl.
  - now rewrite Hname, String.eqb_refl.
  - destruct (String.eqb (label_name l0) labelName) eqn:Heq.
    + apply String.eqb_eq in Heq. exfalso.
      apply (Habsent l0); [now left | exact Heq].
    + apply IH; [| exact Hname]. intros l' Hin. apply Habsent. now right.
Qed.

(** X6.  On an account that has no label named [labelName], a call of
    [ensureLabelExists] that reaches the provider creates one label of this
    name, at the end of the list of labels, and returns its identifier; a
    second call returns the same identifier and creates nothing. *)
Theorem ensureLabelExists_creates_once (labelName : string) (w : World) :
  (forall l, In l (labels w) -> label_name l <> labelName) ->
  gmail_fault w (calls is_gmail w) = None ->
  gmail_fault w (S (calls is_gmail w)) = None ->
  gmail_fault w (S (S (calls is_gmail w))) = None ->
  exists labelId w1 w2,
    ensureLabelExists labelName w = (inr labelId, w1) /\
    labels w1 = labels w ++ [mkLabel labelId labelName] /\
    ensureLabelExists labelName w1 = (inr labelId, w2) /\
    labels w2 = labels w1 /\
    trace w2 = GmailCall LabelsList :: GmailCall (LabelsCreate labelName)
                 :: GmailCall LabelsList :: trace w.
Proof.
  intros Habsent H0 H1 H2.
  set (wl := log (GmailCall LabelsList) w).
  set (labelId := fresh_label_id wl).
  set (w1 := with_labels (labels w ++ [mkLabel labelId labelName])
               (log (GmailCall (LabelsCreate labelName)) wl)).
  assert (Hfirst : ensureLabelExists labelName w = (inr labelId, w1)).
  { unfold ensureLabelExists, try_catch, bind, labels_list, gmail_call.
    rewrite H0. cbv beta iota.
    change (labels (log (GmailCall LabelsList) w)) with (labels w).
    rewrite (find_absent labelName (labels w) Habsent).
    unfold labels_create, gmail_call.
    change (calls is_gmail (log (GmailCall LabelsList) w))
      with (S (calls is_gmail w)).
    change (gmail_fault (log (GmailCall LabelsList) w)) with (gmail_fault w).
    rewrite H1. reflexivity. }
  exists labelId, w1, (log (GmailCall LabelsList) w1).
  split; [exact Hfirst |]. split; [reflexivity |].
  split; [| split; reflexivity].
  apply (ensureLabelExists_found labelName w1 (mkLabel labelId labelName)).
  - change (labels w1) with (labels w ++ [mkLabel labelId labelName]).
    now apply find_appended.
  - discriminate.
  - exact H2.
Qed.

Lemma ensureLabelExists_creates_once_witness :
  let w := Reference.account 1 (fun _ => inl Reference.unreachable)
                               (fun _ => inl Reference.unreachable) in
  exists labelId w1 w2,
    ensureLabelExists "Finance" w = (inr labelId, w1) /\
    labels w1 = labels w ++ [mkLabel labelId "Finance"] /\
    ensureLabelExists "Finance" w1 = (inr labelId, w2) /\
    labels w2 = labels w1 /\
    trace w2 = GmailCall LabelsList :: GmailCall (LabelsCreate "Finance")
                 :: GmailCall LabelsList :: trace w.
Proof.
  intros w. apply (ensureLabelExists_creates_once "Finance" w).
  - intros l Hin. simpl in Hin.
    destruct Hin as [<- | [<- | []]]; discriminate.
  - reflexivity.
  - reflexivity.
  - reflexivity.
Defined.

Lemma ensure_frame (labelName : string) (w w' : World)
      (r : Thrown + string) :
  ensureLabelExists labelName w = (r, w') ->
  mailbox w' = mailbox w /\
  match r with
  | inr labelId =>
      In (mkLabel labelId labelName) (labels w') /\
      (labels w' = labels w \/
       labels w' = labels w ++ [mkLabel labelId labelName])
  | inl _ => labels w' = labels w
  end.
Proof.
  unfold ensureLabelExists, try_catch, bind, labels_list, gmail_call.
  destruct (gmail_fault w (calls is_gmail w)) as [e |].
  { unfold throw. intros H. inversion H. now split. }
  cbv beta iota.
  change (labels (log (GmailCall LabelsList) w)) with (labels w).
  assert (Hcreate :
            forall v r0 v',
              labels v = labels w -> mailbox v = mailbox w ->
              (let (y, w0) := labels_create labelName v in
               match y with
               | inl e => throw e w0
               | inr a => (inr a, w0)
               end) = (r0, v') ->
              mailbox v' = mailbox w /\
              match r0 with
              | inr labelId =>
                  In (mkLabel labelId labelName) (labels v') /\
                  (labels v' = labels w \/
                   labels v' = labels w ++ [mkLabel labelId labelName])
              | inl _ => labels v' = labels w
              end).
  { intros v r0 v' Hl Hm. unfold labels_create, gmail_call.
    destruct (gmail_fault v (calls is_gmail v)) as [e |].
    - unfold throw. intros H. inversion H. subst. now split.
    - intros H. inversion H. subst. simpl. split; [exact Hm |].
      rewrite Hl. split; [| now right].
      apply in_or_app. right. now left. }
  destruct (find (fun label => String.eqb (label_name label) labelName)
              (labels w)) as [l |] eqn:Hfind.
  - destruct (truthy (Some (label_id l))) eqn:Hid.
    + unfold ret. intros H. inversion H. subst. split; [reflexivity |].
      split; [| now left].
      apply find_some in Hfind as [Hin Heq]. apply String.eqb_eq in Heq.
      change (labels (log (GmailCall LabelsList) w)) with (labels w).
      destruct l as [i n]. simpl in *. now subst.
    + apply Hcreate; reflexivity.
  - apply Hcreate; reflexivity.
Qed.

(** X7.  Whatever the account and the failures: when [ensureLabelExists]
    returns an identifier, the account has a label with this identifier and
    the requested name, and the labels are those of before, with at most this
    one label added at the end; when it throws, the labels are those of
    before.  The mailbox is never touched. *)
Theorem ensureLabelExists_post (labelName : string) (w w' : World)
        (r : Thrown + string) :
  ensureLabelExists labelName w = (r, w') ->
  mailbox w' = mailbox w /\
  match r with
  | inr labelId =>
      In (mkLabel labelId labelName) (labels w') /\
      (labels w' = labels w \/
       labels w' = labels w ++ [mkLabel labelId labelName])
  | inl _ => labels w' = labels w
  end.
Proof. exact (ensure_frame labelName w w' r). Qed.


Lemma ensureLabelExists_post_witness :
  let w := Reference.account 1 (fun _ => inl Reference.unreachable)
                               (fun _ => inl Reference.unreachable) in
  In (mkLabel "Label_3" "Finance")
     (labels (snd (ensureLabelExists "Finance" w))).
Proof.
  intros w.
  destruct (ensureLabelExists_post "Finance" w
              (snd (ensureLabelExists "Finance" w)) (inr "Label_3"))
    as [_ [Hin _]].
  - reflexivity.
  - exact Hin.
Defined.

(** ** What processing a message does to the account *)

Lemma messages_modify_run (id : string) (add remove : list string)
      (w w' : World) (r : Thrown + unit) :
  messages_modify id add remove w = (r, w') ->
  labels w' = labels w /\
  match r with
  | inr _ =>
      mailbox w' =
      map (fun m => if String.eqb (message_id m) id
                    then relabel add remove m else m) (mailbox w)
  | inl _ => mailbox w' = mailbox w
  end.
Proof.
  unfold messages_modify, gmail_call.
  destruct (gmail_fault w (calls is_gmail w)).
  - intros H. inversion H. now split.
  - simpl.
    destruct (find (fun m => String.eqb (message_id m) id) (mailbox w));
      intros H; inversion H; now split.
Qed.

Section MessageEffects.
Context {platform : Platform}.

Lemma pipeline_filed (email : string) (w w' : World) (r : EmailData) :
  TwoTier.pipeline email w = (inr r, w') ->
  labeled r = true /\
  exists labelId,
    In (mkLabel labelId (category r)) (labels w') /\
    mailbox w' = filed email labelId (mailbox w) /\
    exists m, In m (mailbox w) /\ message_id m = email.
Proof.
  unfold TwoTier.pipeline. intros H.
  apply bind_inr in H as [m [w1 [Hget H]]]. cbv zeta in H.
  apply bind_inr in H as [cr [w2 [Hcl H]]].
  apply bind_inr in H as [labelId [w3 [Hen H]]].
  apply bind_inr in H as [u [w4 [Hmod H]]].
  unfold ret in H. inversion H. subst. clear H. simpl.
  split; [reflexivity |]. exists labelId.
  pose proof (messages_get_keeps _ _ _ _ Hget) as [Hl1 Hm1].
  pose proof (messages_get_found _ _ _ _ Hget) as Hfound.
  match type of Hcl with
  | TwoTier.classifyEmail ?s ?f ?b w1 = _ =>
      destruct (classify_frame s f b w1) as [cr' [w2' [Hcl' [[Hl2 Hm2] _]]]]
  end.
  rewrite Hcl in Hcl'. inversion Hcl'. subst cr' w2'.
  pose proof (ensure_frame _ _ _ _ Hen) as [Hm3 [Hin _]].
  pose proof (messages_modify_run _ _ _ _ _ _ Hmod) as [Hl4 Hm4].
  split; [now rewrite Hl4 |].
  split; [| exists m; exact Hfound].
  unfold filed. now rewrite Hm4, Hm3, Hm2, Hm1.
Qed.

Lemma pipeline_failed (email : string) (w w' : World) (e : Thrown) :
  TwoTier.pipeline email w = (inl e, w') -> mailbox w' = mailbox w.
Proof.
  unfold TwoTier.pipeline. intros H.
  apply bind_run in H as [[e1 [Hget _]] | [m [w1 [Hget H]]]];
    pose proof (messages_get_keeps _ _ _ _ Hget) as [_ Hm1];
    [exact Hm1 |].
  cbv zeta in H.
  match type of H with
  | bind (TwoTier.classifyEmail ?s ?f ?b) _ w1 = _ =>
      destruct (classify_frame s f b w1) as [cr [w2 [Hcl [[_ Hm2] _]]]]
  end.
  unfold bind at 1 in H. rewrite Hcl in H.
  apply bind_run in H as [[e3 [Hen _]] | [labelId [w3 [Hen H]]]];
    pose proof (ensure_frame _ _ _ _ Hen) as [Hm3 _];
    [congruence |].
  apply bind_run in H as [[e4 [Hmod _]] | [u [w4 [Hmod H]]]].
  - pose proof (messages_modify_run _ _ _ _ _ _ Hmod) as [_ Hm4].
    simpl in Hm4. congruence.
  - unfold ret in H. discriminate.
Qed.

(** X8.  A record with the success flag set tells the truth about the
    mailbox: the message exists, every message with its identifier has lost
    UNREAD and gained one label identifier, no other message has changed, and
    the account has a label with this identifier whose name is the category of
    the record. *)
Theorem labeled_means_filed (email : string) (w w' : World) (r : EmailData) :
  TwoTier.processSingleEmail email w = (inr r, w') ->
  labeled r = true ->
  exists labelId,
    In (mkLabel labelId (category r)) (labels w') /\
    mailbox w' = filed email labelId (mailbox w) /\
    exists m, In m (mailbox w) /\ message_id m = email.
Proof.
  rewrite processSingleEmail_run.
  destruct (TwoTier.pipeline email w) as [[e | r0] w0] eqn:Hrun;
    intros H Hlabeled; inversion H; subst.
  - discriminate.
  - now destruct (pipeline_filed email w w' r Hrun).
Qed.

(** X9.  A record with the success flag cleared comes with an untouched
    mailbox: the message it stands for is still unread, and a later batch
    lists it again. *)
Theorem failed_means_untouched (email : string) (w w' : World) (r : EmailData) :
  TwoTier.processSingleEmail email w = (inr r, w') ->
  labeled r = false ->
  mailbox w' = mailbox w /\
  exists e, TwoTier.pipeline email w = (inl e, w') /\ r = failed email e.
Proof.
  rewrite processSingleEmail_run.
  destruct (TwoTier.pipeline email w) as [[e | r0] w0] eqn:Hrun;
    intros H Hlabeled; inversion H; subst.
  - split; [exact (pipeline_failed email w w' e Hrun) |].
    now exists e.
  - destruct (pipeline_filed email w w' r Hrun) as [Ht _]. congruence.
Qed.

End MessageEffects.

Lemma labeled_means_filed_witness :
  let w := Reference.account 2
             (fun _ => Reference.writes (dq "{'category': 'Finance'}"))
             (fun _ => inl Reference.unreachable) in
  exists labelId,
    In (mkLabel labelId "Finance")
       (labels (snd (@TwoTier.processSingleEmail Reference.node "m1" w))) /\
    mailbox (snd (@TwoTier.processSingleEmail Reference.node "m1" w))
    = filed "m1" labelId (mailbox w) /\
    exists m, In m (mailbox w) /\ message_id m = "m1".
Proof.
  intros w.
  apply (@labeled_means_filed Reference.node "m1" w
           (snd (@TwoTier.processSingleEmail Reference.node "m1" w))
           (mkEmailData "m1" "Hello" "Finance" true (Some "anthropic")
              (Some 308%N) (Some (TwoTier.claude_cost
                                    (mkCompletion [] 300%N 8%N))) None)).
  - vm_compute. reflexivity.
  - reflexivity.
Defined.

Lemma failed_means_untouched_witness :
  let w := Reference.account 2
             (fun _ => Reference.writes (dq "{'category': 'Finance'}"))
             (fun _ => inl Reference.unreachable) in
  mailbox (snd (@TwoTier.processSingleEmail Reference.node "m9" w))
  = mailbox w.
Proof.
  intros w.
  apply (@failed_means_untouched Reference.node "m9" w
           (snd (@TwoTier.processSingleEmail Reference.node "m9" w))
           (failed "m9" not_found)).
  - reflexivity.
  - reflexivity.
Defined.

(** ** The routes as a whole *)

Lemma getCustomLabelNames_run (w : World) :
  TwoTier.getCustomLabelNames w =
  (inr match gmail_fault w (calls is_gmail w) with
       | Some _ => []
       | None => category_labels w
       end,
   log (GmailCall LabelsList) w).
Proof.
  unfold TwoTier.getCustomLabelNames, try_catch, bind, labels_list, gmail_call.
  destruct (gmail_fault w (calls is_gmail w)); [reflexivity |].
  unfold ret. cbv beta iota. f_equal. f_equal.
  change (labels (log (GmailCall LabelsList) w)) with (labels w).
  unfold category_labels.
  induction (labels w) as [| l ls IH]; [reflexivity |].
  cbn [filter map]. rewrite valid_test.
  destruct (includes validCategories (label_name l)); cbn [map];
    now rewrite IH.
Qed.

(** X5.  [getCustomLabelNames] never throws.  When the provider lists the
    labels, it returns exactly the names of the labels of the account that
    are Category names; when the call fails it returns no name at all; in
    both cases the account is left alone. *)
Theorem getCustomLabelNames_sound (w : World) :
  exists names w',
    TwoTier.getCustomLabelNames w = (inr names, w') /\
    same_account w w' /\
    (gmail_fault w (calls is_gmail w) = None ->
     forall n, In n names <->
               In n validCategories /\
               exists l, In l (labels w) /\ label_name l = n) /\
    (gmail_fault w (calls is_gmail w) <> None -> names = []).
Proof.
  do 2 eexists. split; [apply getCustomLabelNames_run |].
  split; [now split |]. split.
  - intros Hok n. rewrite Hok. unfold category_labels.
    rewrite filter_In, in_map_iff, includes_In. split.
    + intros [[l [Hname Hin]] Hvalid]. split; [exact Hvalid |]. now exists l.
    + intros [Hvalid [l [Hin Hname]]]. split; [now exists l | exact Hvalid].
  - intros Hfail. destruct (gmail_fault w (calls is_gmail w));
      [reflexivity | congruence].
Qed.

Lemma getCustomLabelNames_sound_witness :
  let w := Reference.account 1 (fun _ => inl Reference.unreachable)
                               (fun _ => inl Reference.unreachable) in
  fst (TwoTier.getCustomLabelNames w) = inr ["Work"] /\
  In "Work" validCategories.
Proof.
  intros w.
  destruct (getCustomLabelNames_sound w)
    as [names [w' [Hrun [_ [Hok _]]]]].
  split; [reflexivity |].
  apply (Hok eq_refl "Work").
  vm_compute in Hrun. inversion Hrun. simpl. tauto.
Defined.

Lemma listing_run (w : World) :
  let n := calls is_gmail w in
  let userEmail :=
    match gmail_fault w n with
    | Some _ => EmptyString
    | None => or_else (emailAddress w) EmptyString
    end in
  let names :=
    match gmail_fault w (S n) with
    | Some _ => []
    | None => category_labels w
    end in
  exists w',
    same_account w w' /\
    TwoTier.listing w =
    (match gmail_fault w (S (S n)) with
     | Some e => inl e
     | None =>
         inr (userEmail,
              firstn MAX_EMAILS (search w (TwoTier.build_query names)))
     end, w').
Proof.
  cbv zeta. unfold TwoTier.listing.
  unfold bind at 1, try_catch, bind at 1, getProfile, gmail_call.
  set (n := calls is_gmail w).
  assert (Hstep :
            forall (v : World) (user : string),
              calls is_gmail v = S n -> gmail_fault v = gmail_fault w ->
              search v = search w -> same_account w v ->
              emailAddress v = emailAddress w ->
              exists w',
                same_account w w' /\
                bind TwoTier.getCustomLabelNames
                  (fun customLabelNames =>
                     bind (messages_list
                             (TwoTier.build_query customLabelNames) MAX_EMAILS)
                       (fun emails => ret (user, emails))) v =
                (match gmail_fault w (S (S n)) with
                 | Some e => inl e
                 | None =>
                     inr (user,
                          firstn MAX_EMAILS
                            (search w
                               (TwoTier.build_query
                                  match gmail_fault w (S n) with
                                  | Some _ => []
                                  | None => category_labels w
                                  end)))
                 end, w')).
  { intros v user Hn Hf Hs [Hl Hm] He.
    unfold bind at 1. rewrite getCustomLabelNames_run.
    rewrite Hn, Hf.
    unfold bind, messages_list, gmail_call.
    change (calls is_gmail (log (GmailCall LabelsList) v))
      with (S (calls is_gmail v)).
    change (gmail_fault (log (GmailCall LabelsList) v)) with (gmail_fault v).
    rewrite Hn, Hf.
    assert (Hcat : category_labels v = category_labels w).
    { unfold category_labels. now rewrite Hl. }
    destruct (gmail_fault w (S (S n))) as [e |].
    - eexists. split; [| reflexivity]. now split.
    - eexists. split; [| unfold ret; simpl; rewrite Hs, Hcat; reflexivity].
      now split. }
  destruct (gmail_fault w n) as [e |].
  - apply Hstep; try reflexivity. now split.
  - apply Hstep; try reflexivity. now split.
Qed.

(** X11.  Only the message listing can fail the listing part of the
    two-backend route.  A failed profile call leaves the address empty, a
    failed label listing leaves the query without exclusions, and the
    messages are listed all the same: at most [MAX_EMAILS] of those matching
    the query. *)
Theorem listing_best_effort (w : World) :
  let n := calls is_gmail w in
  let userEmail :=
    match gmail_fault w n with
    | Some _ => EmptyString
    | None => or_else (emailAddress w) EmptyString
    end in
  let names :=
    match gmail_fault w (S n) with
    | Some _ => []
    | None => category_labels w
    end in
  exists w',
    same_account w w' /\
    TwoTier.listing w =
    (match gmail_fault w (S (S n)) with
     | Some e => inl e
     | None =>
         inr (userEmail,
              firstn MAX_EMAILS (search w (TwoTier.build_query names)))
     end, w').
Proof. exact (listing_run w). Qed.


Section RouteFacts.
Context {platform : Platform}.

Lemma listing_length (w w1 : World) (userEmail : string)
      (emails : list string) :
  TwoTier.listing w = (inr (userEmail, emails), w1) ->
  length emails <= MAX_EMAILS /\ same_account w w1.
Proof.
  intros H. split.
  - destruct (listing_bounded w w1 userEmail emails H) as [query ->].
    apply firstn_le_length.
  - pose proof (listing_run w) as Hbe. cbv zeta in Hbe.
    destruct Hbe as [w' [Hsame Hrun]].
    rewrite H in Hrun.
    assert (Hw : w' = w1) by congruence.
    now subst.
Qed.

Lemma listing_throws (w w1 : World) (e : Thrown) :
  TwoTier.listing w = (inl e, w1) -> same_account w w1.
Proof.
  intros H. pose proof (listing_run w) as Hbe. cbv zeta in Hbe.
  destruct Hbe as [w' [Hsame Hrun]].
  rewrite H in Hrun.
  assert (Hw : w' = w1) by congruence.
  now subst.
Qed.

(** X1.  Both POST handlers always answer: no exception leaves them, and
    the status of the response is 200, 400, 404 or 500 (200, 400 or 500 in
    the single-backend route); a result list comes with status 200 and with
    no other. *)
Theorem post_always_responds (request : Thrown + RequestBody) (w : World) :
  (exists status body w',
     TwoTier.POST request w = (inr (Json status body), w') /\
     In status [200; 400; 404; 500] /\
     (status = 200 <-> exists results userEmail,
                         body = Results results userEmail))
  /\
  (exists status body w',
     SingleBackend.POST request w = (inr (Json status body), w') /\
     In status [200; 400; 500] /\
     (status = 200 <-> exists results userEmail,
                         body = Results results userEmail)).
Proof.
  assert (Herr : forall s msg,
             s <> 200 ->
             (s = 200 <-> exists results userEmail,
                            ErrorBody msg = Results results userEmail)).
  { intros s msg Hs. split; [congruence | intros [x [y H]]; discriminate]. }
  assert (Hok : forall rs u,
             (200 = 200 <-> exists results userEmail,
                              Results rs u = Results results userEmail)).
  { intros rs u. split; [intros _; now exists rs, u | reflexivity]. }
  split.
  - unfold TwoTier.POST, try_catch.
    destruct request as [e | request].
    { do 3 eexists. split; [reflexivity |].
      split; [simpl; tauto | apply Herr; discriminate]. }
    destruct (negb (truthy (accessToken request))).
    { do 3 eexists. split; [reflexivity |].
      split; [simpl; tauto | apply Herr; discriminate]. }
    unfold bind at 1.
    destruct (TwoTier.listing w) as [[e | [user emails]] w1].
    { do 3 eexists. split; [reflexivity |].
      split; [simpl; tauto | apply Herr; discriminate]. }
    destruct (truthy (emailId request)).
    + destruct (find (fun email => String.eqb email
                                     (or_else (emailId request) EmptyString))
                  emails) as [target |].
      * destruct (processSingleEmail_result target w1)
          as [r [w2 [Hrun _]]].
        unfold bind. rewrite Hrun.
        do 3 eexists. split; [reflexivity |].
        split; [simpl; tauto | apply Hok].
      * do 3 eexists. split; [reflexivity |].
        split; [simpl; tauto | apply Herr; discriminate].
    + destruct (process_all_run emails [] w1) as [rs [w2 [Hrun _]]].
      unfold bind. rewrite Hrun.
      do 3 eexists. split; [reflexivity |].
      split; [simpl; tauto | apply Hok].
  - unfold SingleBackend.POST, try_catch.
    destruct request as [e | request].
    { do 3 eexists. split; [reflexivity |].
      split; [simpl; tauto | apply Herr; discriminate]. }
    destruct (negb (truthy (accessToken request))).
    { do 3 eexists. split; [reflexivity |].
      split; [simpl; tauto | apply Herr; discriminate]. }
    unfold bind at 1.
    destruct (messages_list "is:unread" 2 w) as [[e | emails] w1].
    { do 3 eexists. split; [reflexivity |].
      split; [simpl; tauto | apply Herr; discriminate]. }
    destruct (single_process_all_run emails [] w1) as [rs [w2 [Hrun _]]].
    unfold bind. rewrite Hrun.
    do 3 eexists. split; [reflexivity |].
    split; [simpl; tauto | apply Hok].
Qed.

(** X2.  A request without an access token, or with an empty one, is
    answered 400 by both routes before any service is called: the world is
    the one of before, trace included. *)
Theorem post_requires_token (request : RequestBody) (w : World) :
  truthy (accessToken request) = false ->
  TwoTier.POST (inr request) w
  = (inr (Json 400 (ErrorBody "Access token required")), w) /\
  SingleBackend.POST (inr request) w
  = (inr (Json 400 (ErrorBody "Access token required")), w).
Proof.
  intros H. unfold TwoTier.POST, SingleBackend.POST, try_catch.
  rewrite H. now split.
Qed.

(** X3.  A 500 answer of either route means that nothing was done to the
    account: its labels and its mailbox are those of before, and the body is
    the generic error, whatever was thrown. *)
Theorem post_500_harmless (request : Thrown + RequestBody) (w w' : World)
        (body : ResponseBody) :
  TwoTier.POST request w = (inr (Json 500 body), w')
  \/ SingleBackend.POST request w = (inr (Json 500 body), w') ->
  body = ErrorBody "Failed to process emails" /\ same_account w w'.
Proof.
  intros [H | H].
  - unfold TwoTier.POST, try_catch in H.
    destruct request as [e | request].
    { unfold throw, ret in H. inversion H. subst. split; [reflexivity |].
      apply same_account_refl. }
    destruct (negb (truthy (accessToken request))); [discriminate |].
    unfold bind at 1 in H.
    destruct (TwoTier.listing w) as [[e | [user emails]] w1] eqn:Hlist.
    { unfold ret in H. inversion H. subst. split; [reflexivity |].
      exact (listing_throws w w' e Hlist). }
    destruct (truthy (emailId request)).
    + destruct (find (fun email => String.eqb email
                                     (or_else (emailId request) EmptyString))
                  emails) as [target |]; [| discriminate].
      destruct (processSingleEmail_result target w1)
        as [r [w2 [Hrun _]]].
      unfold bind in H. rewrite Hrun in H. discriminate.
    + destruct (process_all_run emails [] w1) as [rs [w2 [Hrun _]]].
      unfold bind in H. rewrite Hrun in H. discriminate.
  - unfold SingleBackend.POST, try_catch in H.
    destruct request as [e | request].
    { unfold throw, ret in H. inversion H. subst. split; [reflexivity |].
      apply same_account_refl. }
    destruct (negb (truthy (accessToken request))); [discriminate |].
    unfold bind at 1 in H.
    destruct (messages_list "is:unread" 2 w) as [[e | emails] w1] eqn:Hlist.
    { unfold ret in H. inversion H. subst. split; [reflexivity |].
      exact (messages_list_keeps _ _ _ _ _ Hlist). }
    destruct (single_process_all_run emails [] w1) as [rs [w2 [Hrun _]]].
    unfold bind in H. rewrite Hrun in H. discriminate.
Qed.

(** X4.  The entry point for one message.  With the listing done, a request
    that names a message not among the listed ones is answered 404 and
    nothing more is called; a request that names a listed message is answered
    200 with exactly one record, that of this message, processed as in a
    batch. *)
Theorem single_message_entry (request : RequestBody) (w w1 : World)
        (userEmail : string) (emails : list string) (wanted : string) :
  truthy (accessToken request) = true ->
  emailId request = Some wanted ->
  wanted <> EmptyString ->
  TwoTier.listing w = (inr (userEmail, emails), w1) ->
  (~ In wanted emails ->
   TwoTier.POST (inr request) w
   = (inr (Json 404 (ErrorBody "Email not found or already processed")), w1))
  /\
  (In wanted emails ->
   exists r w2,
     TwoTier.POST (inr request) w
     = (inr (Json 200 (Results [r] (Some userEmail))), w2) /\
     id r = wanted /\
     Batch w1 [wanted] [r] w2).
Proof.
  intros Htoken Hid Hne Hlisting.
  assert (Hpost :
            TwoTier.POST (inr request) w =
            match find (fun email => String.eqb email wanted) emails with
            | None =>
                (inr (Json 404
                        (ErrorBody "Email not found or already processed")),
                 w1)
            | Some targetEmail =>
                match TwoTier.processSingleEmail targetEmail w1 with
                | (inr result, w2) =>
                    (inr (Json 200 (Results [result] (Some userEmail))), w2)
                | (inl e, w2) =>
                    (inr (Json 500 (ErrorBody "Failed to process emails")),
                     w2)
                end
            end).
  { unfold TwoTier.POST, try_catch. rewrite Htoken. cbv beta iota.
    unfold negb. unfold bind at 1. rewrite Hlisting. rewrite Hid.
    rewrite (truthy_nonempty wanted Hne).
    assert (Hw : or_else (Some wanted) EmptyString = wanted).
    { destruct wanted; [congruence | reflexivity]. }
    rewrite Hw.
    destruct (find (fun email => String.eqb email wanted) emails);
      [| reflexivity].
    unfold bind.
    now destruct (TwoTier.processSingleEmail s w1) as [[e | r] w2]. }
  split.
  - intros Hnot. rewrite Hpost.
    destruct (find (fun email => String.eqb email wanted) emails)
      as [t |] eqn:Hfind; [| reflexivity].
    apply find_some in Hfind as [Hin Heq]. apply String.eqb_eq in Heq.
    subst. contradiction.
  - intros Hin. rewrite Hpost.
    destruct (find (fun email => String.eqb email wanted) emails)
      as [t |] eqn:Hfind.
    + apply find_some in Hfind as [_ Heq]. apply String.eqb_eq in Heq.
      subst t.
      destruct (processSingleEmail_result wanted w1)
        as [r [w2 [Hrun [_ [Hr Hb]]]]].
      rewrite Hrun. now exists r, w2.
    + exfalso. apply (find_none _ _ Hfind) in Hin.
      rewrite String.eqb_refl in Hin. discriminate.
Qed.

(** X12.  Neither route answers with more records than it asks the
    provider for: at most [MAX_EMAILS] in the two-backend route, at most 2 in
    the single-backend route. *)
Theorem batch_bounded (request : Thrown + RequestBody) (w w' : World)
        (status : nat) (results : list EmailData) (userEmail : option string) :
  (TwoTier.POST request w
   = (inr (Json status (Results results userEmail)), w') ->
   length results <= MAX_EMAILS)
  /\
  (SingleBackend.POST request w
   = (inr (Json status (Results results userEmail)), w') ->
   length results <= 2).
Proof.
  split.
  - unfold TwoTier.POST, try_catch.
    destruct request as [e | request]; [discriminate |].
    destruct (negb (truthy (accessToken request))); [discriminate |].
    unfold bind at 1.
    destruct (TwoTier.listing w) as [[e | [user emails]] w1] eqn:Hlist;
      [discriminate |].
    apply listing_length in Hlist as [Hlen _].
    destruct (truthy (emailId request)).
    + destruct (find (fun email => String.eqb email
                                     (or_else (emailId request) EmptyString))
                  emails) as [target |]; [| discriminate].
      destruct (processSingleEmail_result target w1)
        as [r [w2 [Hrun _]]].
      unfold bind. rewrite Hrun. unfold ret. intros H. inversion H.
      unfold MAX_EMAILS. simpl. lia.
    + destruct (process_all_run emails [] w1) as [rs [w2 [Hrun [_ [_ Hids]]]]].
      unfold bind. rewrite Hrun. unfold ret. intros H.
      assert (Hrs : results = rs) by (simpl in H; congruence).
      rewrite Hrs, <- (length_map id rs), Hids. exact Hlen.
  - unfold SingleBackend.POST, try_catch.
    destruct request as [e | request]; [discriminate |].
    destruct (negb (truthy (accessToken request))); [discriminate |].
    unfold bind at 1, messages_list, gmail_call.
    destruct (gmail_fault w (calls is_gmail w)); [discriminate |].
    destruct (single_process_all_run
                (firstn 2 (search (log (GmailCall (MessagesList "is:unread" 2)) w)
                             "is:unread")) []
                (log (GmailCall (MessagesList "is:unread" 2)) w))
      as [rs [w2 [Hrun Hids]]].
    unfold bind. rewrite Hrun. unfold ret. intros H.
    assert (Hrs : results = rs) by (simpl in H; congruence).
    rewrite Hrs, <- (length_map id rs), Hids. apply firstn_le_length.
Qed.

End RouteFacts.

Lemma post_requires_token_witness :
  let w := Reference.account 3 (fun _ => inl Reference.unreachable)
                               (fun _ => inl Reference.unreachable) in
  @TwoTier.POST Reference.node (inr Scenarios.no_token) w
  = (inr (Json 400 (ErrorBody "Access token required")), w) /\
  @SingleBackend.POST Reference.node (inr Scenarios.no_token) w
  = (inr (Json 400 (ErrorBody "Access token required")), w).
Proof.
  intros w.
  apply (@post_requires_token Reference.node Scenarios.no_token w).
  reflexivity.
Defined.

Lemma post_500_harmless_witness :
  let w := Scenarios.offline 3 in
  let w' := snd (@TwoTier.POST Reference.node
                   (inr Reference.token_request) w) in
  ErrorBody "Failed to process emails" = ErrorBody "Failed to process emails"
  /\ same_account w w'.
Proof.
  intros w w'.
  apply (@post_500_harmless Reference.node (inr Reference.token_request) w w'
           (ErrorBody "Failed to process emails")).
  left. reflexivity.
Defined.

Lemma single_message_entry_witness :
  let w := Reference.account 3
             (fun _ => Reference.writes (dq "{'category': 'Work'}"))
             (fun _ => inl Reference.unreachable) in
  fst (@TwoTier.POST Reference.node (inr (Scenarios.one_message "m7")) w)
  = inr (Json 404 (ErrorBody "Email not found or already processed"))
  /\
  exists r w2,
    @TwoTier.POST Reference.node (inr (Scenarios.one_message "m2")) w
    = (inr (Json 200 (Results [r] (Some "me@example.com"))), w2) /\
    id r = "m2".
Proof.
  intros w.
  assert (Hne7 : "m7" <> EmptyString) by discriminate.
  assert (Hne2 : "m2" <> EmptyString) by discriminate.
  pose proof (@single_message_entry Reference.node
                (Scenarios.one_message "m7") w (snd (TwoTier.listing w))
                "me@example.com" ["m1"; "m2"; "m3"] "m7"
                eq_refl eq_refl Hne7 eq_refl) as [Hmissing _].
  pose proof (@single_message_entry Reference.node
                (Scenarios.one_message "m2") w (snd (TwoTier.listing w))
                "me@example.com" ["m1"; "m2"; "m3"] "m2"
                eq_refl eq_refl Hne2 eq_refl) as [_ Hlisted].
  split.
  - rewrite Hmissing; [reflexivity |].
    simpl. intros [H | [H | [H | []]]]; discriminate.
  - destruct Hlisted as [r [w2 [Hpost [Hid _]]]]; [simpl; tauto |].
    now exists r, w2.
Defined.

Lemma batch_bounded_witness :
  let w := Reference.account 25 (fun _ => inl Reference.unreachable)
                                (fun _ => Reference.says "Work") in
  length (search w "is:unread") = 25 /\
  (forall results,
     fst (@TwoTier.POST Reference.node (inr Reference.token_request) w)
     = inr (Json 200 (Results results (Some "me@example.com"))) ->
     length results <= 10) /\
  (forall results,
     fst (@SingleBackend.POST Reference.node (inr Reference.token_request) w)
     = inr (Json 200 (Results results None)) ->
     length results <= 2).
Proof.
  intros w. split; [reflexivity |]. split.
  - intros results H.
    apply (proj1 (@batch_bounded Reference.node (inr Reference.token_request)
                    w (snd (@TwoTier.POST Reference.node
                              (inr Reference.token_request) w))
                    200 results (Some "me@example.com"))).
    rewrite <- H. apply surjective_pairing.
  - intros results H.
    apply (proj2 (@batch_bounded Reference.node (inr Reference.token_request)
                    w (snd (@SingleBackend.POST Reference.node
                              (inr Reference.token_request) w))
                    200 results None)).
    rewrite <- H. apply surjective_pairing.
Defined.

(** ** Usage accounting *)

Lemma Q_of_N_nonneg (n : N) : (0 <= TwoTier.Q_of_N n)%Q.
Proof. unfold TwoTier.Q_of_N, Qle. simpl. lia. Qed.

Lemma claude_cost_nonneg (c : Completion) : (0 <= TwoTier.claude_cost c)%Q.
Proof.
  unfold TwoTier.claude_cost.
  change 0%Q with (0 + 0)%Q. apply Qplus_le_compat.
  - unfold Qdiv. apply Qmult_le_0_compat; [| discriminate].
    apply Qmult_le_0_compat; [apply Q_of_N_nonneg | discriminate].
  - unfold Qdiv. apply Qmult_le_0_compat; [| discriminate].
    apply Qmult_le_0_compat; [apply Q_of_N_nonneg | discriminate].
Qed.

Lemma gemini_cost_nonneg (n : N) : (0 <= TwoTier.gemini_cost n)%Q.
Proof.
  unfold TwoTier.gemini_cost.
  apply Qmult_le_0_compat; [apply Q_of_N_nonneg | discriminate].
Qed.

Lemma classify_accounted (subject from body : string) (w w' : World)
      (r : TwoTier.ClassificationResult) :
  TwoTier.classifyEmail subject from body w = (inr r, w') ->
  (TwoTier.result_model r = "anthropic" \/ TwoTier.result_model r = "gemini"
   \/ TwoTier.result_model r = "fallback")
  /\ (0 <= TwoTier.result_cost r)%Q.
Proof.
  destruct (secondary_verdict (anthropic_reply w (calls is_anthropic w)))
    as [c |] eqn:Hsecondary.
  - destruct (anthropic_reply w (calls is_anthropic w))
      as [e | completion] eqn:Hreply; [discriminate |].
    rewrite (classify_secondary subject from body w completion c
               Hreply Hsecondary).
    intros H. inversion H. simpl. split; [tauto | apply claude_cost_nonneg].
  - destruct (primary_verdict (gemini_reply w (calls is_gemini w)))
      as [c |] eqn:Hprimary.
    + destruct (gemini_reply w (calls is_gemini w))
        as [e | result] eqn:Hreply; [discriminate |].
      rewrite (classify_primary subject from body w result c
                 Hsecondary Hreply Hprimary).
      intros H. inversion H. simpl. split; [tauto | apply gemini_cost_nonneg].
    + rewrite (classify_fallback subject from body w Hsecondary Hprimary).
      intros H. inversion H. simpl. split; [tauto | discriminate].
Qed.

Section Accounting.
Context {platform : Platform}.

Lemma pipeline_accounted (email : string) (w w' : World) (r : EmailData) :
  TwoTier.pipeline email w = (inr r, w') -> accounted r.
Proof.
  unfold TwoTier.pipeline. intros H.
  apply bind_inr in H as [m [w1 [_ H]]]. cbv zeta in H.
  apply bind_inr in H as [cr [w2 [Hcl H]]].
  apply bind_inr in H as [labelId [w3 [_ H]]].
  apply bind_inr in H as [u [w4 [_ H]]].
  unfold ret in H. inversion H. subst. clear H.
  apply classify_accounted in Hcl as [Hmodel Hcost].
  unfold accounted. simpl. split.
  - destruct Hmodel as [-> | [-> | ->]]; tauto.
  - split; [now eexists | eexists; split; [reflexivity | exact Hcost]].
Qed.

Lemma processSingleEmail_accounted (email : string) (w w' : World)
      (r : EmailData) :
  TwoTier.processSingleEmail email w = (inr r, w') -> accounted r.
Proof.
  rewrite processSingleEmail_run.
  destruct (TwoTier.pipeline email w) as [[e | r0] w0] eqn:Hrun;
    intros H; inversion H; subst.
  - unfold accounted. simpl. tauto.
  - exact (pipeline_accounted email w w' r Hrun).
Qed.

Lemma process_all_accounted (emails : list string) (acc : list EmailData)
      (w w' : World) (results : list EmailData) :
  Forall accounted acc ->
  TwoTier.process_all emails acc w = (inr results, w') ->
  Forall accounted results.
Proof.
  revert acc w. induction emails as [| email emails IH]; intros acc w Hacc.
  - simpl. unfold ret. intros H. inversion H. now subst.
  - simpl. unfold bind at 1, try_catch.
    destruct (processSingleEmail_result email w) as [r [w1 [Hrun _]]].
    rewrite Hrun. apply IH. apply Forall_app. split; [exact Hacc |].
    constructor; [| constructor].
    exact (processSingleEmail_accounted email w w1 r Hrun).
Qed.

Lemma post_accounted (request : Thrown + RequestBody) (w w' : World)
      (status : nat) (results : list EmailData) (userEmail : option string) :
  TwoTier.POST request w = (inr (Json status (Results results userEmail)), w') ->
  Forall accounted results.
Proof.
  unfold TwoTier.POST, try_catch.
  destruct request as [e | request]; [discriminate |].
  destruct (negb (truthy (accessToken request))); [discriminate |].
  unfold bind at 1.
  destruct (TwoTier.listing w) as [[e | [user emails]] w1]; [discriminate |].
  destruct (truthy (emailId request)).
  - destruct (find (fun email => String.eqb email
                                   (or_else (emailId request) EmptyString))
                emails) as [target |]; [| discriminate].
    unfold bind.
    destruct (processSingleEmail_result target w1) as [r [w2 [Hrun _]]].
    rewrite Hrun. unfold ret. intros H.
    assert (Hrs : results = [r]) by congruence. subst results.
    constructor; [| constructor].
    exact (processSingleEmail_accounted target w1 w2 r Hrun).
  - unfold bind.
    destruct (TwoTier.process_all emails [] w1) as [[e | rs] w2] eqn:Hrun;
      [discriminate |].
    unfold ret. intros H.
    assert (Hrs : results = rs) by congruence. subst results.
    exact (process_all_accounted emails [] w1 w2 rs (Forall_nil _) Hrun).
Qed.

(** X13.  In every response of the two-backend route, a labelled record
    names one of the three backends (anthropic, gemini, fallback), and carries
    a token count and a cost that is not negative; a failed record carries no
    usage field at all. *)
Theorem results_accounted (request : Thrown + RequestBody) (w w' : World)
        (status : nat) (results : list EmailData) (userEmail : option string) :
  TwoTier.POST request w = (inr (Json status (Results results userEmail)), w') ->
  Forall accounted results.
Proof. exact (post_accounted request w w' status results userEmail). Qed.


End Accounting.

Lemma results_accounted_witness :
  exists results,
    fst (@TwoTier.POST Reference.node (inr Reference.token_request)
                       Reference.three_messages)
    = inr (Json 200 (Results results (Some "me@example.com"))) /\
    map model results = [Some "anthropic"; None; Some "anthropic"] /\
    Forall accounted results.
Proof.
  eexists. split; [vm_compute; reflexivity |]. split; [reflexivity |].
  apply (@results_accounted Reference.node (inr Reference.token_request)
           Reference.three_messages
           (snd (@TwoTier.POST Reference.node (inr Reference.token_request)
                               Reference.three_messages))
           200 _ (Some "me@example.com")).
  vm_compute. reflexivity.
Defined.

(** ** Body extraction, further *)

Section ExtractionMore.
Context {platform : Platform}.

Lemma scan_prune (mime : string) (ps : list GmailPayload) :
  scan mime (map prune ps) = scan mime ps.
Proof.
  induction ps as [| p ps IH]; [reflexivity |].
  destruct p as [m h b nested]. simpl. now rewrite IH.
Qed.

(** X14.  Extraction looks at the parts of the payload and never at the
    parts nested inside them: removing what is nested in every part changes
    nothing.  A text that sits one level further down is not found. *)
Theorem extractEmailBody_ignores_nested
        (m : option string) (h : option (list Header)) (b : option Body)
        (ps : list GmailPayload) :
  extractEmailBody (Some (Payload m h b (Some ps)))
  = extractEmailBody (Some (Payload m h b (Some (map prune ps)))).
Proof.
  simpl. now rewrite !scan_prune.
Qed.

(** X15.  When no text/plain part of the payload has body data and some
    text/html part has, extraction returns the text of the first such
    text/html part: its decoded data made text by the converter, white space
    collapsed and trimmed. *)
Theorem extractEmailBody_first_html_with_data
        (m : option string) (h : option (list Header)) (b : option Body)
        (before after : list GmailPayload) (part : GmailPayload) (d : string) :
  Forall (fun p => mime_is "text/plain" p && truthy (body_data p) = false)
         (before ++ part :: after) ->
  Forall (fun p => mime_is "text/html" p && truthy (body_data p) = false)
         before ->
  mime_is "text/html" part = true ->
  body_data part = Some d ->
  d <> EmptyString ->
  extractEmailBody (Some (Payload m h b (Some (before ++ part :: after))))
  = trim (collapse_ws (html_to_text (base64_utf8 d))).
Proof.
  intros Hplain Hbefore Hmime Hdata Hd. simpl.
  assert (Hnone : scan "text/plain" (before ++ part :: after) = None).
  { apply scan_none. apply forallb_forall. intros x Hx.
    rewrite Forall_forall in Hplain. now rewrite (Hplain x Hx). }
  rewrite Hnone.
  rewrite (scan_first "text/html" before after part Hbefore).
  - now rewrite Hdata.
  - rewrite Hmime, Hdata. now apply truthy_nonempty.
Qed.

(** X16.  A payload whose parts hold no text with data falls back on its own
    body: when its media type is text/plain and its body has data, the
    decoded data is returned unchanged, parts or no parts. *)
Theorem extractEmailBody_own_body
        (h : option (list Header)) (ps : option (list GmailPayload))
        (d : string) :
  d <> EmptyString ->
  match ps with
  | Some ps => forallb no_text ps = true
  | None => True
  end ->
  extractEmailBody
    (Some (Payload (Some "text/plain") h (Some (mkBody (Some d))) ps))
  = base64_utf8 d.
Proof.
  intros Hd Hps.
  assert (Hsingle :
            single_part (Payload (Some "text/plain") h
                                 (Some (mkBody (Some d))) ps)
            = base64_utf8 d).
  { unfold single_part. simpl. destruct d; [congruence | reflexivity]. }
  unfold extractEmailBody. simpl parts.
  destruct ps as [ps |]; [| exact Hsingle].
  assert (Hplain : scan "text/plain" ps = None).
  { apply scan_none. rewrite forallb_forall in Hps |- *.
    intros x Hx. now apply no_text_split, Hps. }
  assert (Hhtml : scan "text/html" ps = None).
  { apply scan_none. rewrite forallb_forall in Hps |- *.
    intros x Hx. now apply no_text_split, Hps. }
  now rewrite Hplain, Hhtml.
Qed.

End ExtractionMore.

Lemma extractEmailBody_ignores_nested_example :
  @extractEmailBody Reference.node (Some Scenarios.nested_plain) = EmptyString.
Proof. reflexivity. Qed.

Lemma extractEmailBody_first_html_with_data_witness :
  @extractEmailBody Reference.node (Some Reference.empty_plain_and_html)
  = "hi".
Proof.
  apply (@extractEmailBody_first_html_with_data Reference.node
           (Some "multipart/alternative") None (Some (mkBody None))
           [ Payload (Some "text/plain") None (Some (mkBody None)) None ]
           []
           (Payload (Some "text/html") None
                    (Some (mkBody (Some "PGI+aGk8L2I+"))) None)
           "PGI+aGk8L2I+").
  - repeat constructor.
  - repeat constructor.
  - reflexivity.
  - reflexivity.
  - discriminate.
Defined.

Lemma extractEmailBody_own_body_witness :
  @extractEmailBody Reference.node
    (Some (Payload (Some "text/plain") None (Some (mkBody (Some "aGVsbG8=")))
                   (Some [ Payload (Some "image/png") None
                                   (Some (mkBody (Some "iVBORw0KGgo="))) None ])))
  = "hello".
Proof.
  apply (@extractEmailBody_own_body Reference.node None
           (Some [ Payload (Some "image/png") None
                           (Some (mkBody (Some "iVBORw0KGgo="))) None ])
           "aGVsbG8=").
  - discriminate.
  - reflexivity.
Defined.

(** ** White space in the text made from HTML *)

Lemma drop_prefix_app (p l r : list ascii) :
  drop_prefix p l = Some r <-> l = p ++ r.
Proof.
  revert l. induction p as [| a p IH]; intros l; simpl.
  - split; [intros H; now inversion H | intros ->; reflexivity].
  - destruct l as [| b l]; [split; discriminate |].
    destruct (Ascii.eqb a b) eqn:Hab.
    + apply Ascii.eqb_eq in Hab. subst b. rewrite IH.
      split; [intros ->; reflexivity | intros H; now inversion H].
    + split; [discriminate |]. intros H. inversion H. subst.
      rewrite Ascii.eqb_refl in Hab. discriminate.
Qed.

Lemma drop_any_some (table : list (list ascii)) (l r : list ascii) :
  drop_any table l = Some r -> exists p, In p table /\ l = p ++ r.
Proof.
  induction table as [| p table IH]; simpl; [discriminate |].
  destruct (drop_prefix p l) as [rest |] eqn:Hp.
  - intros H. inversion H. subst. exists p. split; [now left |].
    now apply drop_prefix_app.
  - intros H. destruct (IH H) as [q [Hin Hq]]. exists q. split; auto.
Qed.

Lemma drop_any_none (table : list (list ascii)) (l : list ascii) :
  drop_any table l = None <-> forall p x, In p table -> l <> p ++ x.
Proof.
  induction table as [| q table IH]; simpl.
  - split; [intros _ p x [] | reflexivity].
  - destruct (drop_prefix q l) as [rest |] eqn:Hq.
    + split; [discriminate |]. intros H. exfalso.
      apply (H q rest); [now left | now apply drop_prefix_app].
    + rewrite IH. split.
      * intros H p x [<- | Hin].
        -- intros Heq. apply drop_prefix_app in Heq. congruence.
        -- now apply H.
      * intros H p x Hin. apply H. now right.
Qed.

Lemma drop_any_shorter (table : list (list ascii)) (l r : list ascii) :
  Forall (fun p => p <> []) table ->
  drop_any table l = Some r -> length r < length l.
Proof.
  intros Hne H. apply drop_any_some in H as [p [Hin ->]].
  rewrite Forall_forall in Hne. specialize (Hne p Hin).
  rewrite length_app. destruct p; [congruence | simpl; lia].
Qed.

Lemma skip_ws_done (table : list (list ascii)) (n : nat) (l : list ascii) :
  Forall (fun p => p <> []) table ->
  length l <= n ->
  drop_any table (skip_ws table n l) = None.
Proof.
  intros Hne. revert l. induction n as [| n IH]; intros l Hlen; simpl.
  - destruct l; [| simpl in Hlen; lia].
    apply drop_any_none. intros p x Hin Heq.
    rewrite Forall_forall in Hne. specialize (Hne p Hin).
    destruct p; [congruence | discriminate].
  - destruct (drop_any table l) as [rest |] eqn:Hd; [| exact Hd].
    apply IH. pose proof (drop_any_shorter table l rest Hne Hd). lia.
Qed.

Lemma skip_ws_suffix (table : list (list ascii)) (n : nat) (l : list ascii) :
  exists pre, l = pre ++ skip_ws table n l.
Proof.
  revert l. induction n as [| n IH]; intros l; simpl.
  - now exists [].
  - destruct (drop_any table l) as [rest |] eqn:Hd; [| now exists []].
    apply drop_any_some in Hd as [p [_ ->]].
    destruct (IH rest) as [pre Hpre].
    exists (p ++ pre). rewrite <- app_assoc. now rewrite <- Hpre.
Qed.

Lemma skip_ws_length (table : list (list ascii)) (n : nat) (l : list ascii) :
  length (skip_ws table n l) <= length l.
Proof.
  destruct (skip_ws_suffix table n l) as [pre Hpre].
  rewrite Hpre at 2. rewrite length_app. lia.
Qed.

Lemma white_space_nonempty : Forall (fun p : list ascii => p <> []) white_space.
Proof. repeat constructor; discriminate. Qed.

Lemma white_space_rev_nonempty :
  Forall (fun p : list ascii => p <> []) (map (@rev ascii) white_space).
Proof. repeat constructor; discriminate. Qed.

(** A pattern of the table is the space, or has no space in it. *)
Lemma white_space_shape :
  Forall (fun p => p = [" "%char] \/ Forall (fun c => c <> " "%char) p)
         white_space.
Proof.
  repeat (apply Forall_cons;
          [ (left; reflexivity)
            || (right; repeat (apply Forall_cons; [discriminate |]);
                apply Forall_nil) |]).
  apply Forall_nil.
Qed.

Lemma space_is_white (x : list ascii) :
  drop_any white_space (" "%char :: x) = Some x.
Proof. reflexivity. Qed.

Lemma collapse_head (n : nat) (l o : list ascii) (c : ascii) :
  collapse_bytes n l = c :: o ->
  c <> " "%char ->
  exists l', l = c :: l' /\ exists n', o = collapse_bytes n' l'.
Proof.
  destruct n as [| n]; cbn [collapse_bytes].
  - intros -> _. exists o. split; [reflexivity |]. now exists 0.
  - destruct (drop_any white_space l) as [rest |].
    + intros H Hc. exfalso. apply Hc. now injection H.
    + destruct l as [| a l']; [discriminate |].
      intros H _. inversion H. subst. exists l'. split; [reflexivity |].
      now exists n.
Qed.

Lemma collapse_keeps_pattern (p : list ascii) :
  Forall (fun c => c <> " "%char) p ->
  forall n l r,
    drop_prefix p (collapse_bytes n l) = Some r ->
    exists r', drop_prefix p l = Some r'.
Proof.
  induction 1 as [| a p Ha _ IH]; intros n l r Hdrop.
  - now exists l.
  - simpl in Hdrop.
    destruct (collapse_bytes n l) as [| c o] eqn:Hc; [discriminate |].
    destruct (Ascii.eqb a c) eqn:Hac; [| discriminate].
    apply Ascii.eqb_eq in Hac. subst c.
    destruct (collapse_head n l o a Hc Ha) as [l' [-> [n' ->]]].
    destruct (IH n' l' r Hdrop) as [r' Hr'].
    exists r'. simpl. now rewrite Ascii.eqb_refl.
Qed.

Lemma collapse_keeps_head (n : nat) (l : list ascii) :
  drop_any white_space l = None ->
  drop_any white_space (collapse_bytes n l) = None.
Proof.
  intros Hnone.
  destruct (drop_any white_space (collapse_bytes n l)) as [r |] eqn:Hd;
    [| reflexivity].
  exfalso. apply drop_any_some in Hd as [p [Hin Heq]].
  pose proof white_space_shape as Hshape.
  rewrite Forall_forall in Hshape.
  rewrite drop_any_none in Hnone.
  destruct (Hshape p Hin) as [-> | Hp].
  - destruct n as [| n]; cbn [collapse_bytes] in Heq.
    + apply (Hnone [" "%char] r Hin Heq).
    + destruct (drop_any white_space l) as [rest |] eqn:Hl.
      * apply drop_any_some in Hl as [q [Hq Hl]].
        apply (Hnone q rest Hq Hl).
      * destruct l as [| a l']; [discriminate |].
        inversion Heq. subst.
        apply (Hnone [" "%char] l' Hin). reflexivity.
  - apply drop_prefix_app in Heq.
    destruct (collapse_keeps_pattern p Hp n l r Heq) as [r' Hr'].
    apply drop_prefix_app in Hr'. apply (Hnone p r' Hin Hr').
Qed.

Lemma collapse_single_spaced (n : nat) (l : list ascii) :
  length l <= n ->
  forall pre t r,
    collapse_bytes n l = pre ++ t ->
    drop_any white_space t = Some r ->
    t = " "%char :: r /\ drop_any white_space r = None.
Proof.
  revert l. induction n as [| n IH]; intros l Hlen pre t r Heq Hd.
  - destruct l; [| simpl in Hlen; lia]. cbn [collapse_bytes] in Heq.
    symmetry in Heq. apply app_eq_nil in Heq as [_ ->]. discriminate.
  - cbn [collapse_bytes] in Heq.
    destruct (drop_any white_space l) as [rest |] eqn:Hl.
    + pose proof (drop_any_shorter _ _ _ white_space_nonempty Hl) as Hshort.
      set (l2 := skip_ws white_space (length rest) rest) in *.
      assert (Hlen2 : length l2 <= n).
      { pose proof (skip_ws_length white_space (length rest) rest). 
        unfold l2. lia. }
      assert (Hhead : drop_any white_space (collapse_bytes n l2) = None).
      { apply collapse_keeps_head. unfold l2.
        apply skip_ws_done; [apply white_space_nonempty | lia]. }
      destruct pre as [| c pre].
      * simpl in Heq. subst t. rewrite space_is_white in Hd.
        inversion Hd. subst. now split.
      * inversion Heq. subst c. now apply (IH l2 Hlen2 pre t r).
    + destruct l as [| a l'].
      * symmetry in Heq. apply app_eq_nil in Heq as [_ ->]. discriminate.
      * destruct pre as [| c pre].
        -- simpl in Heq. subst t.
           pose proof (collapse_keeps_head (S n) (a :: l') Hl) as Hk.
           cbn [collapse_bytes] in Hk. rewrite Hl in Hk. congruence.
        -- inversion Heq. subst c.
           apply (IH l') with (pre := pre);
             [simpl in Hlen; lia | assumption | assumption].
Qed.

Section HtmlText.
Context {platform : Platform}.

(** X17.  The text made from a text/html part is normalised: it does not
    start and does not end with a white space character, and every white
    space character in it is a single space that is followed by something
    else than white space; so that no two white space characters are ever
    next to each other. *)
Theorem html_body_normalised (d : string) :
  let o := list_ascii_of_string (html_body d) in
  (forall p x, In p white_space -> o <> p ++ x) /\
  (forall p x, In p white_space -> o <> x ++ p) /\
  (forall pre p x,
     In p white_space -> o = pre ++ p ++ x ->
     p = [" "%char] /\ forall q y, In q white_space -> x <> q ++ y).
Proof.
  cbv zeta. unfold html_body, trim, collapse_ws.
  rewrite !list_ascii_of_string_of_list_ascii.
  set (l := list_ascii_of_string (html_to_text (base64_utf8 d))).
  set (c := collapse_bytes (length l) l).
  set (s := trimStart_bytes c).
  assert (Hs : exists a, c = a ++ s).
  { apply skip_ws_suffix. }
  assert (Hshead : drop_any white_space s = None).
  { apply skip_ws_done; [apply white_space_nonempty | lia]. }
  set (k := skip_ws (map (@rev ascii) white_space) (length s) (rev s)).
  assert (Hk : exists b, rev s = b ++ k).
  { apply skip_ws_suffix. }
  assert (Hkhead : drop_any (map (@rev ascii) white_space) k = None).
  { apply skip_ws_done; [apply white_space_rev_nonempty |].
    rewrite length_rev. lia. }
  change (trimEnd_bytes s) with (rev k).
  destruct Hs as [a Hs]. destruct Hk as [b Hk].
  assert (Hse : s = rev k ++ rev b).
  { rewrite <- (rev_involutive s), Hk. apply rev_app_distr. }
  split; [| split].
  - intros p x Hin Heq. rewrite drop_any_none in Hshead.
    apply (Hshead p (x ++ rev b) Hin).
    now rewrite Hse, Heq, <- app_assoc.
  - intros p x Hin Heq. rewrite drop_any_none in Hkhead.
    apply (Hkhead (rev p) (rev x)).
    + now apply in_map.
    + rewrite <- (rev_involutive k), Heq. apply rev_app_distr.
  - intros pre p x Hin Heq.
    assert (Hc : c = (a ++ pre) ++ p ++ (x ++ rev b)).
    { rewrite Hs, Hse, Heq. now rewrite <- !app_assoc. }
    destruct (drop_any white_space (p ++ (x ++ rev b))) as [r |] eqn:Hd.
    + destruct (collapse_single_spaced (length l) l (Nat.le_refl _)
                  (a ++ pre) (p ++ (x ++ rev b)) r Hc Hd) as [Ht Hr].
      pose proof white_space_shape as Hshape.
      rewrite Forall_forall in Hshape.
      destruct (Hshape p Hin) as [-> | Hp].
      * split; [reflexivity |].
        simpl in Ht. inversion Ht as [Hx]. rewrite <- Hx in Hr.
        rewrite drop_any_none in Hr.
        intros q y Hq Hy. apply (Hr q (y ++ rev b) Hq).
        now rewrite Hy, <- app_assoc.
      * exfalso. destruct p as [| p0 p']; simpl in Ht.
        -- pose proof white_space_nonempty as Hne.
           rewrite Forall_forall in Hne. now apply (Hne [] Hin).
        -- inversion Ht. subst p0. inversion Hp. congruence.
    + exfalso. rewrite drop_any_none in Hd.
      now apply (Hd p (x ++ rev b) Hin).
Qed.

End HtmlText.

(** ** Sessions: callback, auth-status and log out together *)

Lemma check_hands_out_token (request : AuthCheck.Request)
      (token : string) :
  AuthCheck.cookies request "access_token" = Some token ->
  token <> EmptyString ->
  AuthCheck.GET request
  = JsObject [("authenticated", JsBool true); ("accessToken", JsString token)].
Proof.
  intros Hcookie Hne. unfold AuthCheck.GET. rewrite Hcookie.
  destruct token as [| a r]; [congruence | reflexivity].
Qed.

(** X18.  The cookies of the callback.  Whatever the code and the outcome
    of the exchange, the answer is a redirection to one of three locations;
    cookies are set exactly when it is the success one; and every cookie set
    is HTTP-only, same-site lax, secure exactly in production, with a positive
    maximal age, and named access_token or refresh_token. *)
Theorem callback_cookies (production : bool) (code : option string)
        (getToken : string -> Thrown + Auth.Tokens) :
  let r := Auth.callback production code getToken in
  (Auth.reply r = Auth.Redirect "/?success=true"
   \/ Auth.reply r = Auth.Redirect "/?error=no_code"
   \/ Auth.reply r = Auth.Redirect "/?error=token_exchange_failed") /\
  (Auth.reply r = Auth.Redirect "/?success=true" <-> Auth.set_cookies r <> [])
  /\
  Forall (fun c =>
            Auth.httpOnly c = true /\
            Auth.sameSite c = Some "lax" /\
            Auth.secure c = production /\
            (exists age, Auth.maxAge c = Some age /\ (0 < age)%N) /\
            (Auth.cookie_name c = "access_token"
             \/ Auth.cookie_name c = "refresh_token"))
         (Auth.set_cookies r).
Proof.
  cbv zeta. unfold Auth.callback.
  destruct (negb (truthy code)).
  { split; [tauto |]. split; [| constructor].
    split; [discriminate | intros H; now elim H]. }
  destruct (getToken (or_else code EmptyString)) as [e | tokens].
  { split; [tauto |]. split; [| constructor].
    split; [discriminate | intros H; now elim H]. }
  split; [tauto |]. split.
  - split; [discriminate | reflexivity].
  - assert (Hage : forall n : N, (0 < n)%N ->
                                 exists age, Some n = Some age /\ (0 < age)%N).
    { intros n Hn. now exists n. }
    constructor.
    + simpl. repeat split; try tauto. now apply Hage.
    + destruct (truthy (Auth.refresh_token tokens)); constructor.
      * simpl. repeat split; try tauto. now apply Hage.
      * constructor.
Qed.

(** X19.  Round trip of a session.  After a successful exchange that
    yields a non-empty access token, a browser that stores the cookies of the
    callback and then asks the auth-status endpoint gets the authenticated
    flag and this very token. *)
Theorem callback_then_check (production : bool) (code : string)
        (getToken : string -> Thrown + Auth.Tokens) (tokens : Auth.Tokens)
        (jar : Auth.Jar) :
  code <> EmptyString ->
  getToken code = inr tokens ->
  Auth.access_token tokens <> EmptyString ->
  AuthCheck.GET
    (AuthCheck.mkRequest
       (Auth.receive (Auth.callback production (Some code) getToken) jar))
  = JsObject [("authenticated", JsBool true);
              ("accessToken", JsString (Auth.access_token tokens))].
Proof.
  intros Hcode Hexchange Htoken.
  apply check_hands_out_token; [| exact Htoken].
  unfold Auth.callback.
  rewrite (truthy_nonempty code Hcode). cbv [negb].
  assert (Hc : or_else (Some code) EmptyString = code).
  { destruct code; [congruence | reflexivity]. }
  rewrite Hc, Hexchange. unfold Auth.receive. simpl.
  now destruct (truthy (Auth.refresh_token tokens)).
Qed.

(** X20.  Log out ends the session.  Whatever cookies the browser held,
    once it has stored the cookies of the log-out answer the auth-status
    endpoint reports not authenticated and hands out no token; and so it does
    for a browser that keeps the emptied cookie instead of dropping it. *)
Theorem logout_then_check (jar : Auth.Jar) :
  AuthCheck.GET (AuthCheck.mkRequest (Auth.receive Auth.POST jar))
  = JsObject [("authenticated", JsBool false)]
  /\
  AuthCheck.GET
    (AuthCheck.mkRequest
       (fold_left Auth.store_always (Auth.set_cookies Auth.POST) jar))
  = JsObject [("authenticated", JsBool false)].
Proof. split; reflexivity. Qed.

Lemma callback_then_check_witness :
  let getToken := fun code : string =>
                    if String.eqb code "4/0AX"
                    then inr (Auth.mkTokens "ya29.token" (Some "1//refresh"))
                    else inl (JsError "invalid_grant") in
  AuthCheck.GET
    (AuthCheck.mkRequest
       (Auth.receive (Auth.callback true (Some "4/0AX") getToken)
                     (fun _ => None)))
  = JsObject [("authenticated", JsBool true);
              ("accessToken", JsString "ya29.token")].
Proof.
  intros getToken.
  apply (callback_then_check true "4/0AX" getToken
           (Auth.mkTokens "ya29.token" (Some "1//refresh")) (fun _ => None)).
  - discriminate.
  - reflexivity.
  - discriminate.
Defined.

(** ** The page *)

Section PageFacts.
Variable message : nat -> N -> Q -> string.

(** X21.  [handleLabelInbox] always settles: the processing flag is down
    at the end, whatever failed; the records shown before are still there,
    with the new ones in front of them; a run that ends with an error has
    changed nothing but the error; and the processing request is sent only
    after an auth-status answer that says authenticated, with the token of
    this answer. *)
Theorem handleLabelInbox_settles
        (check : Thrown + Page.AuthData)
        (gmail : option string -> Thrown + (bool * Page.GmailData))
        (s : Page.State) :
  let s' := fst (Page.handleLabelInbox message check gmail s) in
  let sent := snd (Page.handleLabelInbox message check gmail s) in
  Page.isProcessing s' = false /\
  Page.isAuthenticated s' = Page.isAuthenticated s /\
  (exists new, Page.results s' = new ++ Page.results s) /\
  (Page.error s' <> None ->
   Page.results s' = Page.results s /\
   Page.success s' = Page.success s /\
   Page.userEmail s' = Page.userEmail s) /\
  (sent = [Page.CheckAuth] \/
   exists t,
     check = inr (Page.mkAuthData true t) /\
     sent = [Page.CheckAuth; Page.PostGmail t]).
Proof.
  cbv zeta. unfold Page.handleLabelInbox.
  assert (Hdone :
            forall (s1 : Page.State) (sent : list Page.Request),
              Page.isAuthenticated s1 = Page.isAuthenticated s ->
              (exists new, Page.results s1 = new ++ Page.results s) ->
              (Page.error s1 <> None ->
               Page.results s1 = Page.results s /\
               Page.success s1 = Page.success s /\
               Page.userEmail s1 = Page.userEmail s) ->
              (sent = [Page.CheckAuth] \/
               exists t,
                 check = inr (Page.mkAuthData true t) /\
                 sent = [Page.CheckAuth; Page.PostGmail t]) ->
              Page.isProcessing (Page.with_processing false s1) = false /\
              Page.isAuthenticated (Page.with_processing false s1)
              = Page.isAuthenticated s /\
              (exists new,
                 Page.results (Page.with_processing false s1)
                 = new ++ Page.results s) /\
              (Page.error (Page.with_processing false s1) <> None ->
               Page.results (Page.with_processing false s1) = Page.results s /\
               Page.success (Page.with_processing false s1) = Page.success s /\
               Page.userEmail (Page.with_processing false s1)
               = Page.userEmail s) /\
              (sent = [Page.CheckAuth] \/
               exists t,
                 check = inr (Page.mkAuthData true t) /\
                 sent = [Page.CheckAuth; Page.PostGmail t])).
  { intros s1 sent H1 H2 H3 H4. repeat split; auto; now apply H3. }
  destruct check as [e | [auth t]].
  { apply Hdone; simpl; auto. now exists []. }
  destruct auth; cbv [Page.authenticated Page.token negb].
  2: { apply Hdone; simpl; auto. now exists []. }
  assert (Hsent :
            [Page.CheckAuth; Page.PostGmail t] = [Page.CheckAuth] \/
            exists t0,
              @inr Thrown _ (Page.mkAuthData true t)
              = inr (Page.mkAuthData true t0) /\
              [Page.CheckAuth; Page.PostGmail t]
              = [Page.CheckAuth; Page.PostGmail t0]).
  { right. now exists t. }
  destruct (gmail t) as [e | [ok data]].
  { apply Hdone; simpl; auto. now exists []. }
  destruct ok.
  - destruct (Page.data_results data) as [new |].
    + apply Hdone; simpl; auto;
        try (now exists new); try (intros H; now elim H).
    + apply Hdone; simpl; auto;
        try (now exists []); try (intros H; now elim H).
  - apply Hdone; simpl; auto. now exists [].
Qed.

End PageFacts.

Section PageAndRoutes.
Context {platform : Platform}.
Variable message : nat -> N -> Q -> string.

(** X22.  The page and the routes fit: with the auth-status endpoint and
    the two-backend route behind it, [handleLabelInbox] never draws the 400
    answer.  Without a non-empty access_token cookie it stops after the
    auth-status request with the not-authenticated error; with one, it sends
    this token, and ends without error or with the generic error of a failed
    batch. *)
Theorem page_sends_valid_token (jar : Auth.Jar) (w : World) (s : Page.State) :
  let s' := fst (Page.served message jar w s) in
  let sent := snd (Page.served message jar w s) in
  Page.error s' <> Some "Access token required" /\
  (truthy (jar "access_token") = false ->
   sent = [Page.CheckAuth] /\
   Page.error s'
   = Some "Not authenticated. Please connect your Gmail account first.") /\
  (truthy (jar "access_token") = true ->
   sent = [Page.CheckAuth; Page.PostGmail (jar "access_token")] /\
   (Page.error s' = None \/
    Page.error s' = Some "Failed to process emails")).
Proof.
  cbv zeta. unfold Page.served, Page.handleLabelInbox.
  destruct (truthy (jar "access_token")) eqn:Hjar.
  - assert (Hcheck : Page.read_auth (AuthCheck.GET (AuthCheck.mkRequest jar))
                     = Page.mkAuthData true (jar "access_token")).
    { unfold AuthCheck.GET. cbn [AuthCheck.cookies]. rewrite Hjar.
      destruct (jar "access_token") as [[| a r] |]; try discriminate.
      reflexivity. }
    rewrite Hcheck. cbv [Page.authenticated Page.token negb].
    assert (Hpost :
              (exists w1,
                 TwoTier.POST
                   (inr (mkRequestBody (jar "access_token") None)) w
                 = (inr (Json 500 (ErrorBody "Failed to process emails")),
                    w1))
              \/
              (exists rs user w2,
                 TwoTier.POST
                   (inr (mkRequestBody (jar "access_token") None)) w
                 = (inr (Json 200 (Results rs (Some user))), w2))).
    { destruct (TwoTier.listing w) as [[e | [user emails]] w1] eqn:Hlist.
      - left. exists w1.
        unfold TwoTier.POST, try_catch. cbn [accessToken]. rewrite Hjar.
        cbv [negb]. unfold bind at 1. now rewrite Hlist.
      - right.
        destruct (process_all_run emails [] w1) as [rs [w2 [Hrun _]]].
        exists rs, user, w2.
        unfold TwoTier.POST, try_catch. cbn [accessToken]. rewrite Hjar.
        cbv [negb]. unfold bind at 1. rewrite Hlist.
        cbn [emailId truthy]. cbv beta iota.
        unfold bind. now rewrite Hrun. }
    destruct Hpost as [[w1 Hpost] | [rs [user [w2 Hpost]]]];
      rewrite Hpost; simpl.
    + split; [discriminate |]. split; [discriminate |].
      intros _. split; [reflexivity | now right].
    + split; [discriminate |]. split; [discriminate |].
      intros _. split; [reflexivity | now left].
  - assert (Hcheck : Page.read_auth (AuthCheck.GET (AuthCheck.mkRequest jar))
                     = Page.mkAuthData false None).
    { unfold AuthCheck.GET. cbn [AuthCheck.cookies]. now rewrite Hjar. }
    rewrite Hcheck. simpl.
    split; [discriminate |]. split; [now split | discriminate].
Qed.

End PageAndRoutes.

(** ** The usage summary of the page *)

Lemma totalCost_cons (r : EmailData) (rs : list EmailData) :
  (Page.totalCost (r :: rs) == Page.cost_of r + Page.totalCost rs)%Q.
Proof.
  assert (Hshift :
            forall (l : list EmailData) (a : Q),
              (fold_left (fun sum result => sum + Page.cost_of result) l a
               == a + fold_left
                        (fun sum result => sum + Page.cost_of result) l 0)%Q).
  { induction l as [| x l IH]; intros a; cbn [fold_left].
    - ring.
    - rewrite (IH (a + Page.cost_of x)%Q), (IH (0 + Page.cost_of x)%Q).
      ring. }
  unfold Page.totalCost. cbn [fold_left]. rewrite Hshift. ring.
Qed.

Lemma cost_of_nonneg (r : EmailData) :
  accounted r -> (0 <= Page.cost_of r)%Q.
Proof.
  unfold accounted, Page.cost_of.
  destruct (labeled r).
  - intros [_ [_ [q [-> Hq]]]]. exact Hq.
  - intros [_ [_ ->]]. apply Qle_refl.
Qed.

Lemma by_model_cost (name : string) (rs : list EmailData) :
  Forall accounted rs ->
  (0 <= Page.totalCost (Page.by_model name rs) <= Page.totalCost rs)%Q.
Proof.
  induction 1 as [| r rs Hr _ [IH0 IH]].
  - split; apply Qle_refl.
  - apply cost_of_nonneg in Hr.
    unfold Page.by_model in *. cbn [filter].
    destruct (match model r with
              | Some m => String.eqb m name
              | None => false
              end).
    + rewrite !totalCost_cons. split.
      * apply (Qle_trans _ (0 + 0)); [apply Qle_refl |].
        now apply Qplus_le_compat.
      * apply Qplus_le_compat; [apply Qle_refl | exact IH].
    + split; [exact IH0 |]. rewrite totalCost_cons.
      apply (Qle_trans _ (0 + Page.totalCost rs)).
      * rewrite Qplus_0_l. exact IH.
      * apply Qplus_le_compat; [exact Hr | apply Qle_refl].
Qed.

(** X23.  The breakdown by model is consistent.  For records as the
    two-backend route returns them, every labelled record is counted on
    exactly one of the three lines (Gemini, Claude, Fallback) and a failed
    record on none; the cost shown on a line is not negative and not above
    the total cost shown; the fallback line shows the cost 0; and no
    labelled record is shown with the model name Unknown. *)
Theorem summary_adds_up (rs : list EmailData) :
  Forall accounted rs ->
  Forall well_formed rs ->
  length (Page.by_model "gemini" rs) + length (Page.by_model "anthropic" rs)
  + length (Page.by_model "fallback" rs)
  = length (filter labeled rs)
  /\
  (forall name r, In r (Page.by_model name rs) -> labeled r = true)
  /\
  (forall name,
     (0 <= Page.totalCost (Page.by_model name rs) <= Page.totalCost rs)%Q)
  /\
  Page.totalCost (Page.by_model "fallback" rs) = 0%Q
  /\
  forall r, In r rs -> labeled r = true -> Page.model_name r <> "Unknown".
Proof.
  intros Hacc Hwf.
  split; [| split; [| split; [| split]]].
  - clear Hwf. induction Hacc as [| r rs Hr _ IH]; [reflexivity |].
    unfold accounted in Hr. unfold Page.by_model in *. cbn [filter].
    destruct (labeled r).
    + destruct Hr as [[Hm | [Hm | Hm]] _]; rewrite Hm; simpl; lia.
    + destruct Hr as [Hm _]. rewrite Hm. exact IH.
  - intros name r Hin. unfold Page.by_model in Hin.
    apply filter_In in Hin as [Hin Hsel].
    rewrite Forall_forall in Hacc. specialize (Hacc r Hin).
    unfold accounted in Hacc. destruct (labeled r); [reflexivity |].
    destruct Hacc as [Hm _]. rewrite Hm in Hsel. discriminate.
  - intros name. now apply by_model_cost.
  - clear Hacc. induction Hwf as [| r rs Wr _ IH]; [reflexivity |].
    unfold Page.by_model in *. cbn [filter].
    destruct (model r) as [m |] eqn:Hm; [| exact IH].
    destruct (String.eqb m "fallback") eqn:Hf; [| exact IH].
    apply String.eqb_eq in Hf. subst m.
    destruct (wf_fallback r Wr Hm) as [_ [_ Hc]].
    unfold Page.totalCost in *. cbn [fold_left].
    unfold Page.cost_of at 2. rewrite Hc. exact IH.
  - intros r Hin Hl.
    rewrite Forall_forall in Hacc. specialize (Hacc r Hin).
    unfold accounted in Hacc. rewrite Hl in Hacc.
    destruct Hacc as [[Hm | [Hm | Hm]] _];
      unfold Page.model_name; rewrite Hm; discriminate.
Qed.

Lemma summary_adds_up_witness :
  exists results,
    fst (@TwoTier.POST Reference.node (inr Reference.token_request)
                       Reference.three_messages)
    = inr (Json 200 (Results results (Some "me@example.com"))) /\
    length (Page.by_model "anthropic" results) = 2 /\
    (0 <= Page.totalCost (Page.by_model "anthropic" results)
     <= Page.totalCost results)%Q.
Proof.
  eexists. split; [vm_compute; reflexivity |].
  split; [reflexivity |].
  refine (proj1 (proj2 (proj2 (summary_adds_up _ _ _))) "anthropic").
  - apply (@post_accounted Reference.node (inr Reference.token_request)
             Reference.three_messages
             (snd (@TwoTier.POST Reference.node (inr Reference.token_request)
                                 Reference.three_messages))
             200 _ (Some "me@example.com")).
    vm_compute. reflexivity.
  - apply (@two_backend_results Reference.node (inr Reference.token_request)
             Reference.three_messages
             (snd (@TwoTier.POST Reference.node (inr Reference.token_request)
                                 Reference.three_messages))
             200 _ (Some "me@example.com")).
    vm_compute. reflexivity.
Defined.

Lemma html_body_normalised_witness :
  @html_body Reference.node Scenarios.spaced_html = "a b c" /\
  list_ascii_of_string (@html_body Reference.node Scenarios.spaced_html)
  <> [" "%char] ++ list_ascii_of_string "a b c" /\
  list_ascii_of_string (@html_body Reference.node Scenarios.spaced_html)
  <> list_ascii_of_string "a b c" ++ [" "%char].
Proof.
  destruct (@html_body_normalised Reference.node Scenarios.spaced_html)
    as [Hstart [Hend _]].
  assert (Hspace : In [" "%char] white_space) by (simpl; tauto).
  split; [reflexivity |]. split.
  - exact (Hstart [" "%char] (list_ascii_of_string "a b c") Hspace).
  - exact (Hend [" "%char] (list_ascii_of_string "a b c") Hspace).
Defined.

Lemma handleLabelInbox_settles_witness :
  let message := fun (n : nat) (t : N) (c : Q) => "Successfully processed" in
  let before :=
    Page.mkState true false [failed "m0" not_found] None None None in
  let s' :=
    fst (Page.handleLabelInbox message
           (inr (Page.mkAuthData true (Some "ya29.token")))
           (fun _ => inl Reference.unreachable) before) in
  Page.isProcessing s' = false /\
  Page.error s' = Some "Network error occurred" /\
  Page.results s' = [failed "m0" not_found].
Proof.
  intros message before s'.
  destruct (handleLabelInbox_settles message
              (inr (Page.mkAuthData true (Some "ya29.token")))
              (fun _ => inl Reference.unreachable) before)
    as [Hflag [_ [_ [Hkept _]]]].
  split; [exact Hflag |]. split; [reflexivity |].
  apply Hkept. discriminate.
Defined.

Lemma page_sends_valid_token_witness :
  let message := fun (n : nat) (t : N) (c : Q) => "Successfully processed" in
  let before := Page.mkState true false [] None None None in
  let run :=
    @Page.served Reference.node message Scenarios.session
                 Reference.three_messages before in
  snd run = [Page.CheckAuth; Page.PostGmail (Some "ya29.token")] /\
  Page.error (fst run) = None /\
  length (Page.results (fst run)) = 3.
Proof.
  intros message before run.
  destruct (@page_sends_valid_token Reference.node message Scenarios.session
              Reference.three_messages before)
    as [_ [_ Hwith]].
  destruct (Hwith eq_refl) as [Hsent _].
  split; [exact Hsent |]. split; reflexivity.
Defined.

Lemma post_always_responds_witness :
  exists body w',
    @TwoTier.POST Reference.node (inl Reference.unreachable)
                  Reference.three_messages
    = (inr (Json 500 body), w').
Proof.
  destruct (@post_always_responds Reference.node (inl Reference.unreachable)
              Reference.three_messages)
    as [[status [body [w' [Hrun _]]]] _].
  exists body, w'. rewrite Hrun. vm_compute in Hrun.
  inversion Hrun. reflexivity.
Defined.

(** ** What a request costs in calls *)

Lemma spent_refl (w : World) : spent w w 0 0 0.
Proof. exists []. simpl. repeat split; lia. Qed.

Lemma spent_trans (w w1 w2 : World) (g a m g' a' m' : nat) :
  spent w w1 g a m -> spent w1 w2 g' a' m' ->
  spent w w2 (g + g') (a + a') (m + m').
Proof.
  intros [n1 [H1 [G1 [A1 M1]]]] [n2 [H2 [G2 [A2 M2]]]].
  exists (n2 ++ n1). rewrite H2, H1, app_assoc.
  rewrite !filter_app, !length_app. repeat split; lia.
Qed.

Lemma spent_le (w w' : World) (g a m g' a' m' : nat) :
  spent w w' g a m -> g <= g' -> a <= a' -> m <= m' ->
  spent w w' g' a' m'.
Proof.
  intros [n [H [G [A M]]]] Hg Ha Hm. exists n. repeat split; try lia.
  exact H.
Qed.

Lemma spent_calls (w w' : World) (g a m : nat) :
  spent w w' g a m ->
  calls is_gmail w <= calls is_gmail w' <= calls is_gmail w + g /\
  calls is_anthropic w <= calls is_anthropic w' <= calls is_anthropic w + a /\
  calls is_gemini w <= calls is_gemini w' <= calls is_gemini w + m.
Proof.
  intros [n [H [G [A M]]]]. unfold calls. rewrite H.
  rewrite !filter_app, !length_app. repeat split; lia.
Qed.

Lemma spent_nothing (w : World) (g a m : nat) : spent w w g a m.
Proof. apply (spent_le w w 0 0 0); [apply spent_refl | lia | lia | lia]. Qed.

Lemma spent_call {A} (op : GmailOp) (answer : M A) (w w' : World)
      (r : Thrown + A) :
  (forall v, trace (snd (answer v)) = trace v) ->
  gmail_call op answer w = (r, w') ->
  spent w w' 1 0 0.
Proof.
  intros Hkeeps. unfold gmail_call.
  destruct (gmail_fault w (calls is_gmail w)); intros H.
  - inversion H. exists [GmailCall op]. simpl. repeat split; lia.
  - exists [GmailCall op]. simpl. split; [| repeat split; lia].
    pose proof (Hkeeps (log (GmailCall op) w)) as Ht.
    rewrite H in Ht. exact Ht.
Qed.

Lemma spent_get (id : string) (w w' : World) (r : Thrown + Message) :
  messages_get id w = (r, w') -> spent w w' 1 0 0.
Proof.
  apply spent_call. intros v.
  now destruct (find (fun m => String.eqb (message_id m) id) (mailbox v)).
Qed.

Lemma spent_modify (id : string) (add remove : list string) (w w' : World)
      (r : Thrown + unit) :
  messages_modify id add remove w = (r, w') -> spent w w' 1 0 0.
Proof.
  apply spent_call. intros v.
  now destruct (find (fun m => String.eqb (message_id m) id) (mailbox v)).
Qed.

Lemma spent_ensure (labelName : string) (w w' : World) (r : Thrown + string) :
  ensureLabelExists labelName w = (r, w') -> spent w w' 2 0 0.
Proof.
  unfold ensureLabelExists, try_catch.
  match goal with
  | |- context [bind ?m ?k w] =>
      destruct (bind m k w) as [r1 w1] eqn:Hrun
  end.
  intros H.
  assert (Hw : w1 = w').
  { destruct r1; unfold throw in H; now inversion H. }
  subst w1. clear H.
  apply bind_run in Hrun as [[e [Hlist _]] | [ls [w1 [Hlist Hrest]]]];
    apply (spent_call LabelsList) in Hlist; try reflexivity.
  - apply (spent_le _ _ _ _ _ _ _ _ Hlist); lia.
  - assert (Hcreate :
              labels_create labelName w1 = (r1, w') -> spent w w' 2 0 0).
    { intros Hc. apply (spent_call (LabelsCreate labelName)) in Hc;
        [| reflexivity].
      exact (spent_trans _ _ _ _ _ _ _ _ _ Hlist Hc). }
    destruct (find (fun label => String.eqb (label_name label) labelName) ls)
      as [l |]; [| auto].
    destruct (truthy (Some (label_id l))); [| auto].
    unfold ret in Hrest. inversion Hrest. subst.
    apply (spent_le _ _ _ _ _ _ _ _ Hlist); lia.
Qed.

Lemma spent_classify (subject from body : string) (w w' : World)
      (r : Thrown + TwoTier.ClassificationResult) :
  TwoTier.classifyEmail subject from body w = (r, w') -> spent w w' 0 1 1.
Proof.
  destruct (classify_frame subject from body w) as [r0 [w0 [Hrun [_ Htrace]]]].
  rewrite Hrun. intros H. inversion H. subst.
  destruct Htrace as [[_ Ht] | [_ Ht]].
  - exists [AnthropicCall]. simpl. repeat split; try lia. exact Ht.
  - exists [GeminiCall; AnthropicCall]. simpl. repeat split; try lia.
    exact Ht.
Qed.

Lemma spent_retry (subject from body : string) (w w' : World)
      (r : Thrown + string) :
  SingleBackend.classifyEmail subject from body w = (r, w') ->
  spent w w' 0 0 3.
Proof.
  rewrite retry_run. cbv zeta.
  set (r0 := gemini_reply w (calls is_gemini w)).
  set (r1 := gemini_reply w (S (calls is_gemini w))).
  set (r2 := gemini_reply w (S (S (calls is_gemini w)))).
  assert (Hp : forall reply,
             filter is_gmail (pause reply) = [] /\
             filter is_anthropic (pause reply) = [] /\
             filter is_gemini (pause reply) = []).
  { now intros [e | x]. }
  destruct (Hp r0) as [G0 [A0 M0]]. destruct (Hp r1) as [G1 [A1 M1]].
  destruct (primary_verdict r0).
  { intros H. inversion H. exists [GeminiCall]. simpl. repeat split; lia. }
  destruct (primary_verdict r1).
  { intros H. inversion H. exists (GeminiCall :: pause r0 ++ [GeminiCall]).
    split; [simpl; now rewrite <- app_assoc |].
    simpl. rewrite !filter_app, G0, A0, M0. simpl. repeat split; lia. }
  assert (Hboth :
            spent w
              (with_trace (GeminiCall :: pause r1 ++ GeminiCall
                             :: pause r0 ++ GeminiCall :: trace w) w) 0 0 3).
  { exists (GeminiCall :: pause r1 ++ GeminiCall :: pause r0 ++ [GeminiCall]).
    split.
    - simpl. rewrite <- app_assoc. simpl. now rewrite <- app_assoc.
    - simpl. rewrite !filter_app, G1, A1, M1. simpl.
      rewrite !filter_app, G0, A0, M0. simpl. repeat split; lia. }
  destruct (primary_verdict r2); intros H; inversion H; subst; exact Hboth.
Qed.

Section CallBudget.
Context {platform : Platform}.

Lemma spent_pipeline (email : string) (w w' : World) (r : Thrown + EmailData) :
  TwoTier.pipeline email w = (r, w') -> spent w w' 4 1 1.
Proof.
  unfold TwoTier.pipeline. intros H.
  apply bind_run in H as [[e [Hget _]] | [m [w1 [Hget H]]]];
    apply spent_get in Hget.
  { apply (spent_le _ _ _ _ _ _ _ _ Hget); lia. }
  cbv zeta in H.
  apply bind_run in H as [[e [Hcl _]] | [c [w2 [Hcl H]]]];
    apply spent_classify in Hcl;
    pose proof (spent_trans _ _ _ _ _ _ _ _ _ Hget Hcl) as H2.
  { apply (spent_le _ _ _ _ _ _ _ _ H2); lia. }
  apply bind_run in H as [[e [Hen _]] | [labelId [w3 [Hen H]]]];
    apply spent_ensure in Hen;
    pose proof (spent_trans _ _ _ _ _ _ _ _ _ H2 Hen) as H3.
  { apply (spent_le _ _ _ _ _ _ _ _ H3); lia. }
  assert (Hlast : exists r0, messages_modify email [labelId] ["UNREAD"] w3
                             = (r0, w')).
  { apply bind_run in H as [[e [Hm _]] | [u [w4 [Hm H]]]].
    - now exists (inl e).
    - unfold ret in H. inversion H. subst. now exists (inr u). }
  destruct Hlast as [r0 Hm]. apply spent_modify in Hm.
  pose proof (spent_trans _ _ _ _ _ _ _ _ _ H3 Hm) as H4.
  apply (spent_le _ _ _ _ _ _ _ _ H4); lia.
Qed.

Lemma spent_process (email : string) (w w' : World) (r : Thrown + EmailData) :
  SingleBackend.process email w = (r, w') -> spent w w' 4 0 3.
Proof.
  unfold SingleBackend.process. intros H.
  apply bind_run in H as [[e [Hget _]] | [m [w1 [Hget H]]]];
    apply spent_get in Hget.
  { apply (spent_le _ _ _ _ _ _ _ _ Hget); lia. }
  cbv zeta in H.
  apply bind_run in H as [[e [Hcl _]] | [c [w2 [Hcl H]]]];
    apply spent_retry in Hcl;
    pose proof (spent_trans _ _ _ _ _ _ _ _ _ Hget Hcl) as H2.
  { apply (spent_le _ _ _ _ _ _ _ _ H2); lia. }
  apply bind_run in H as [[e [Hen _]] | [labelId [w3 [Hen H]]]];
    apply spent_ensure in Hen;
    pose proof (spent_trans _ _ _ _ _ _ _ _ _ H2 Hen) as H3.
  { apply (spent_le _ _ _ _ _ _ _ _ H3); lia. }
  assert (Hlast : exists r0, messages_modify email [labelId] ["UNREAD"] w3
                             = (r0, w')).
  { apply bind_run in H as [[e [Hm _]] | [u [w4 [Hm H]]]].
    - now exists (inl e).
    - unfold ret in H. inversion H. subst. now exists (inr u). }
  destruct Hlast as [r0 Hm]. apply spent_modify in Hm.
  pose proof (spent_trans _ _ _ _ _ _ _ _ _ H3 Hm) as H4.
  apply (spent_le _ _ _ _ _ _ _ _ H4); lia.
Qed.

Lemma spent_single (email : string) (w w' : World) (r : Thrown + EmailData) :
  TwoTier.processSingleEmail email w = (r, w') -> spent w w' 4 1 1.
Proof.
  rewrite processSingleEmail_run.
  destruct (TwoTier.pipeline email w) as [[e | r0] w0] eqn:Hrun;
    intros H; inversion H; subst;
    exact (spent_pipeline email w w' _ Hrun).
Qed.

Lemma spent_process_all (emails : list string) (acc : list EmailData)
      (w w' : World) (r : Thrown + list EmailData) :
  TwoTier.process_all emails acc w = (r, w') ->
  spent w w' (4 * length emails) (length emails) (length emails).
Proof.
  revert acc w. induction emails as [| email emails IH]; intros acc w.
  - simpl. unfold ret. intros H. inversion H. apply spent_refl.
  - cbn [TwoTier.process_all]. unfold bind at 1, try_catch.
    destruct (TwoTier.processSingleEmail email w) as [[e | r0] w1] eqn:Hrun;
      apply spent_single in Hrun; unfold ret; intros H; apply IH in H;
      pose proof (spent_trans _ _ _ _ _ _ _ _ _ Hrun H) as Ht;
      apply (spent_le _ _ _ _ _ _ _ _ Ht); simpl; lia.
Qed.

Lemma spent_single_all (emails : list string) (acc : list EmailData)
      (w w' : World) (r : Thrown + list EmailData) :
  SingleBackend.process_all emails acc w = (r, w') ->
  spent w w' (4 * length emails) 0 (3 * length emails).
Proof.
  revert acc w. induction emails as [| email emails IH]; intros acc w.
  - simpl. unfold ret. intros H. inversion H. apply spent_refl.
  - cbn [SingleBackend.process_all]. unfold bind at 1, try_catch.
    destruct (SingleBackend.process email w) as [[e | r0] w1] eqn:Hrun;
      apply spent_process in Hrun; unfold ret; intros H; apply IH in H;
      pose proof (spent_trans _ _ _ _ _ _ _ _ _ Hrun H) as Ht;
      apply (spent_le _ _ _ _ _ _ _ _ Ht); simpl; lia.
Qed.

Lemma spent_listing (w w' : World) (r : Thrown + (string * list string)) :
  TwoTier.listing w = (r, w') -> spent w w' 3 0 0.
Proof.
  unfold TwoTier.listing. intros H.
  assert (Hprofile :
            forall (x : Thrown + string) (v : World),
              try_catch (bind getProfile
                           (fun profile => ret (or_else profile EmptyString)))
                        (fun e => ret EmptyString) w = (x, v) ->
              spent w v 1 0 0).
  { intros x v. unfold try_catch, bind, getProfile, gmail_call.
    destruct (gmail_fault w (calls is_gmail w)); unfold ret; intros Hx;
      inversion Hx; exists [GmailCall GetProfile]; simpl;
      repeat split; lia. }
  assert (Hnames :
            forall (x : Thrown + list string) (u v : World),
              TwoTier.getCustomLabelNames u = (x, v) -> spent u v 1 0 0).
  { intros x u v. rewrite getCustomLabelNames_run. intros Hx. inversion Hx.
    exists [GmailCall LabelsList]. simpl. repeat split; lia. }
  apply bind_run in H as [[e [H1 _]] | [user [w1 [H1 H]]]];
    apply Hprofile in H1.
  { apply (spent_le _ _ _ _ _ _ _ _ H1); lia. }
  apply bind_run in H as [[e [H2 _]] | [names [w2 [H2 H]]]];
    apply Hnames in H2;
    pose proof (spent_trans _ _ _ _ _ _ _ _ _ H1 H2) as H12.
  { apply (spent_le _ _ _ _ _ _ _ _ H12); lia. }
  cbv zeta in H.
  assert (Hlast : exists r0,
             messages_list (TwoTier.build_query names) MAX_EMAILS w2
             = (r0, w')).
  { apply bind_run in H as [[e [Hm _]] | [u [w4 [Hm H]]]].
    - now exists (inl e).
    - unfold ret in H. inversion H. subst. now exists (inr u). }
  destruct Hlast as [r0 Hm].
  apply (spent_call (MessagesList (TwoTier.build_query names) MAX_EMAILS))
    in Hm; [| reflexivity].
  pose proof (spent_trans _ _ _ _ _ _ _ _ _ H12 Hm) as H3.
  apply (spent_le _ _ _ _ _ _ _ _ H3); lia.
Qed.

(** X24.  What one request can cost.  A POST to the two-backend route
    makes at most 43 calls to the mail provider (3 to list, 4 for each of at
    most [MAX_EMAILS] messages), at most [MAX_EMAILS] calls to the secondary
    backend and as many to the primary one.  A POST to the single-backend
    route makes at most 9 calls to the mail provider, at most 6 to the primary
    backend and none to the secondary one. *)
Theorem post_call_budget (request : Thrown + RequestBody) (w : World) :
  (let w' := snd (TwoTier.POST request w) in
   calls is_gmail w' <= calls is_gmail w + 43 /\
   calls is_anthropic w' <= calls is_anthropic w + MAX_EMAILS /\
   calls is_gemini w' <= calls is_gemini w + MAX_EMAILS)
  /\
  (let w' := snd (SingleBackend.POST request w) in
   calls is_gmail w' <= calls is_gmail w + 9 /\
   calls is_anthropic w' = calls is_anthropic w /\
   calls is_gemini w' <= calls is_gemini w + 6).
Proof.
  split; cbv zeta.
  - assert (Hspent : spent w (snd (TwoTier.POST request w)) 43 10 10).
    { unfold TwoTier.POST, try_catch.
      destruct request as [e | request]; [apply spent_nothing |].
      destruct (negb (truthy (accessToken request))); [apply spent_nothing |].
      unfold bind at 1.
      destruct (TwoTier.listing w) as [[e | [user emails]] w1] eqn:Hlist.
      { apply spent_listing in Hlist. simpl.
        apply (spent_le _ _ _ _ _ _ _ _ Hlist); lia. }
      pose proof (listing_length w w1 user emails Hlist) as [Hlen _].
      unfold MAX_EMAILS in Hlen.
      apply spent_listing in Hlist.
      destruct (truthy (emailId request)).
      - destruct (find (fun email => String.eqb email
                                       (or_else (emailId request) EmptyString))
                    emails) as [target |].
        + unfold bind.
          destruct (TwoTier.processSingleEmail target w1) as [[e | r] w2]
            eqn:Hrun; apply spent_single in Hrun;
            pose proof (spent_trans _ _ _ _ _ _ _ _ _ Hlist Hrun) as Ht;
            simpl; apply (spent_le _ _ _ _ _ _ _ _ Ht); lia.
        + simpl. apply (spent_le _ _ _ _ _ _ _ _ Hlist); lia.
      - unfold bind.
        destruct (TwoTier.process_all emails [] w1) as [[e | rs] w2] eqn:Hrun;
          apply spent_process_all in Hrun;
          pose proof (spent_trans _ _ _ _ _ _ _ _ _ Hlist Hrun) as Ht;
          simpl; apply (spent_le _ _ _ _ _ _ _ _ Ht); lia. }
    apply spent_calls in Hspent. unfold MAX_EMAILS. lia.
  - assert (Hspent : spent w (snd (SingleBackend.POST request w)) 9 0 6).
    { unfold SingleBackend.POST, try_catch.
      destruct request as [e | request]; [apply spent_nothing |].
      destruct (negb (truthy (accessToken request))); [apply spent_nothing |].
      unfold bind at 1.
      destruct (messages_list "is:unread" 2 w) as [[e | emails] w1] eqn:Hlist.
      { apply (spent_call (MessagesList "is:unread" 2)) in Hlist;
          [| reflexivity].
        simpl. apply (spent_le _ _ _ _ _ _ _ _ Hlist); lia. }
      assert (Hlen : length emails <= 2).
      { unfold messages_list, gmail_call in Hlist.
        destruct (gmail_fault w (calls is_gmail w)); [discriminate |].
        assert (He : emails
                     = firstn 2 (search (log (GmailCall
                                                 (MessagesList "is:unread" 2))
                                              w) "is:unread"))
          by congruence.
        rewrite He. apply firstn_le_length. }
      apply (spent_call (MessagesList "is:unread" 2)) in Hlist;
        [| reflexivity].
      unfold bind.
      destruct (SingleBackend.process_all emails [] w1) as [[e | rs] w2]
        eqn:Hrun; apply spent_single_all in Hrun;
        pose proof (spent_trans _ _ _ _ _ _ _ _ _ Hlist Hrun) as Ht;
        simpl; apply (spent_le _ _ _ _ _ _ _ _ Ht); lia. }
    apply spent_calls in Hspent. lia.
Qed.

End CallBudget.

(** ** Processing a message in the single-backend route *)

Lemma retry_frame (subject from body : string) (w w' : World)
      (r : Thrown + string) :
  SingleBackend.classifyEmail subject from body w = (r, w') ->
  same_account w w'.
Proof.
  rewrite retry_run. cbv zeta.
  destruct (primary_verdict (gemini_reply w (calls is_gemini w)));
    [intros H; inversion H; now split |].
  destruct (primary_verdict (gemini_reply w (S (calls is_gemini w))));
    [intros H; inversion H; now split |].
  destruct (primary_verdict (gemini_reply w (S (S (calls is_gemini w)))));
    intros H; inversion H; now split.
Qed.

Section SingleBackendEffects.
Context {platform : Platform}.

(** X25.  In the single-backend route too a record tells the truth about
    the mailbox.  When the processing of a message returns its record, the
    category of the record is a member of the Category set, the account has a
    label of this name, and the messages with this identifier, and no others,
    have lost UNREAD and gained the identifier of this label; when it throws,
    the mailbox is as before. *)
Theorem single_backend_files (email : string) (w w' : World)
        (r : Thrown + EmailData) :
  SingleBackend.process email w = (r, w') ->
  match r with
  | inr record =>
      labeled record = true /\
      id record = email /\
      In (category record) validCategories /\
      exists labelId,
        In (mkLabel labelId (category record)) (labels w') /\
        mailbox w' = filed email labelId (mailbox w)
  | inl _ => mailbox w' = mailbox w
  end.
Proof.
  unfold SingleBackend.process. intros H.
  apply bind_run in H as [[e [Hget ->]] | [m [w1 [Hget H]]]];
    pose proof (messages_get_keeps _ _ _ _ Hget) as [Hl1 Hm1];
    [exact Hm1 |].
  cbv zeta in H.
  apply bind_run in H as [[e [Hcl ->]] | [c [w2 [Hcl H]]]];
    pose proof (retry_frame _ _ _ _ _ _ Hcl) as [Hl2 Hm2];
    [congruence |].
  apply retry_valid in Hcl.
  apply bind_run in H as [[e [Hen ->]] | [labelId [w3 [Hen H]]]];
    pose proof (ensure_frame _ _ _ _ Hen) as [Hm3 Hpost];
    [congruence |].
  destruct Hpost as [Hin _].
  apply bind_run in H as [[e [Hmod ->]] | [u [w4 [Hmod H]]]];
    pose proof (messages_modify_run _ _ _ _ _ _ Hmod) as [Hl4 Hm4].
  - simpl in Hm4. congruence.
  - unfold ret in H. inversion H. subst. simpl.
    split; [reflexivity |]. split; [reflexivity |]. split; [exact Hcl |].
    exists labelId. split; [now rewrite Hl4 |].
    unfold filed. now rewrite Hm4, Hm3, Hm2, Hm1.
Qed.

End SingleBackendEffects.

Lemma single_backend_files_witness :
  let w := Reference.account 2 (fun _ => inl Reference.unreachable)
                               (fun _ => Reference.says "Work") in
  exists labelId,
    In (mkLabel labelId "Work")
       (labels (snd (@SingleBackend.process Reference.node "m1" w))) /\
    mailbox (snd (@SingleBackend.process Reference.node "m1" w))
    = filed "m1" labelId (mailbox w).
Proof.
  intros w.
  pose proof (@single_backend_files Reference.node "m1" w
                (snd (@SingleBackend.process Reference.node "m1" w))
                (inr (mkEmailData "m1" "Hello" "Work" true
                                  None None None None))
                eq_refl) as H.
  simpl in H. destruct H as [_ [_ [_ H]]]. exact H.
Defined.

Lemma post_call_budget_example :
  let w := Reference.account 25
             (fun _ => Reference.writes "no json")
             (fun _ => Reference.says "Work") in
  calls is_anthropic
    (snd (@TwoTier.POST Reference.node (inr Reference.token_request) w)) = 10.
Proof. vm_compute. reflexivity. Qed.

(** ** What is retried *)

Import Turns.

Lemma made_call {A} (op : GmailOp) (answer : M A) (w w' : World)
      (r : Thrown + A) :
  (forall v, trace (snd (answer v)) = trace v) ->
  gmail_call op answer w = (r, w') ->
  trace w' = GmailCall op :: trace w.
Proof.
  intros Hkeeps. unfold gmail_call.
  destruct (gmail_fault w (calls is_gmail w)); intros H.
  - now inversion H.
  - pose proof (Hkeeps (log (GmailCall op) w)) as Ht.
    rewrite H in Ht. exact Ht.
Qed.

Lemma made_get (id : string) (w w' : World) (r : Thrown + Message) :
  messages_get id w = (r, w') ->
  trace w' = GmailCall (MessagesGet id) :: trace w.
Proof.
  apply made_call. intros v.
  now destruct (find (fun m => String.eqb (message_id m) id) (mailbox v)).
Qed.

Lemma made_labels_list (w w' : World) (r : Thrown + list Label) :
  labels_list w = (r, w') -> trace w' = GmailCall LabelsList :: trace w.
Proof. apply made_call. reflexivity. Qed.

Lemma made_create (name : string) (w w' : World) (r : Thrown + string) :
  labels_create name w = (r, w') ->
  trace w' = GmailCall (LabelsCreate name) :: trace w.
Proof. apply made_call. reflexivity. Qed.

Lemma made_modify (id : string) (add remove : list string) (w w' : World)
      (r : Thrown + unit) :
  messages_modify id add remove w = (r, w') ->
  trace w' = GmailCall (MessagesModify id add remove) :: trace w.
Proof.
  apply made_call. intros v.
  now destruct (find (fun m => String.eqb (message_id m) id) (mailbox v)).
Qed.

Lemma made_messages_list (q : string) (n : nat) (w w' : World)
      (r : Thrown + list string) :
  messages_list q n w = (r, w') ->
  trace w' = GmailCall (MessagesList q n) :: trace w /\
  forall emails, r = inr emails -> emails = firstn n (search w q).
Proof.
  intros H. split.
  - revert H. apply made_call. reflexivity.
  - intros emails ->. unfold messages_list, gmail_call in H.
    destruct (gmail_fault w (calls is_gmail w)); [discriminate |].
    simpl in H. congruence.
Qed.

Lemma made_ensure (labelName : string) (w w' : World)
      (r : Thrown + string) :
  ensureLabelExists labelName w = (r, w') ->
  trace w' = GmailCall LabelsList :: trace w \/
  trace w' = GmailCall (LabelsCreate labelName) :: GmailCall LabelsList
               :: trace w.
Proof.
  unfold ensureLabelExists, try_catch.
  match goal with
  | |- context [bind ?m ?k w] =>
      destruct (bind m k w) as [r1 w1] eqn:Hrun
  end.
  intros H.
  assert (Hw : w1 = w').
  { destruct r1; unfold throw in H; now inversion H. }
  subst w1. clear H.
  apply bind_run in Hrun as [[e [Hlist _]] | [ls [w1 [Hlist Hrest]]]].
  - left. now apply made_labels_list in Hlist.
  - apply made_labels_list in Hlist.
    assert (Hcreate :
              labels_create labelName w1 = (r1, w') ->
              trace w' = GmailCall (LabelsCreate labelName)
                           :: GmailCall LabelsList :: trace w).
    { intros Hc. apply made_create in Hc. now rewrite Hc, Hlist. }
    destruct (find (fun label => String.eqb (label_name label) labelName) ls)
      as [l |]; [| right; auto].
    destruct (truthy (Some (label_id l))); [| right; auto].
    left. unfold ret in Hrest. inversion Hrest. now subst.
Qed.

Lemma made_retry (subject from body : string) (w w' : World)
      (r : Thrown + string) :
  SingleBackend.classifyEmail subject from body w = (r, w') ->
  exists cls,
    trace w' = cls ++ trace w /\
    Forall (fun e => is_gmail e = false) cls /\
    filter is_anthropic cls = [] /\
    length (filter is_gemini cls) <= S SingleBackend.maxRetries.
Proof.
  rewrite retry_run. cbv zeta. unfold SingleBackend.maxRetries.
  generalize (gemini_reply w (calls is_gemini w))
             (gemini_reply w (S (calls is_gemini w)))
             (gemini_reply w (S (S (calls is_gemini w)))).
  intros r0 r1 r2.
  destruct (primary_verdict r0).
  { intros H. inversion H. exists [GeminiCall]. simpl.
    repeat split; try lia. repeat constructor. }
  destruct (primary_verdict r1).
  { intros H. inversion H. exists (GeminiCall :: pause r0 ++ [GeminiCall]).
    destruct r0; simpl; repeat split; try lia; repeat constructor. }
  intros H.
  assert (Ht : trace w' = GeminiCall :: pause r1 ++ GeminiCall
                 :: pause r0 ++ GeminiCall :: trace w).
  { destruct (primary_verdict r2); now inversion H. }
  exists (GeminiCall :: pause r1 ++ GeminiCall :: pause r0 ++ [GeminiCall]).
  rewrite Ht.
  destruct r0, r1; simpl; repeat split; try lia; repeat constructor.
Qed.

Lemma backend_for_message (id : string) (e : Event) :
  is_gmail e = false -> for_message id e.
Proof. destruct e; simpl; [discriminate | tauto | tauto | tauto]. Qed.

Lemma filter_backend (cls : list Event) :
  Forall (fun e => is_gmail e = false) cls -> filter is_gmail cls = [].
Proof.
  induction 1 as [| e cls He _ IH]; [reflexivity |].
  cbn [filter]. now rewrite He.
Qed.

Lemma filter_provider (g : list Event) :
  Forall (fun e => is_gmail e = true) g ->
  filter is_gmail g = g /\ filter is_gemini g = [] /\
  filter is_anthropic g = [].
Proof.
  induction 1 as [| e g He _ [IH1 [IH2 IH3]]]; [now repeat split |].
  destruct e; try discriminate. cbn [filter is_gmail is_gemini is_anthropic].
  now rewrite IH1, IH2, IH3.
Qed.

(** The shape of the calls made for one message in the single-backend
    route: the reading of the message, the classification, then the calls
    [g] on the labels and on the message. *)
Lemma single_turn_shape (email : string) (g cls : list Event) :
  Forall (fun e => is_gmail e = false) cls ->
  filter is_anthropic cls = [] ->
  length (filter is_gemini cls) <= S SingleBackend.maxRetries ->
  Forall (fun e => is_gmail e = true) g ->
  Forall (for_message email) g ->
  NoDup (g ++ [GmailCall (MessagesGet email)]) ->
  retried_only_primary email (g ++ cls ++ [GmailCall (MessagesGet email)]).
Proof.
  intros Hcls Ha Hg Hprov Hfor Hnodup.
  destruct (filter_provider g Hprov) as [F1 [F2 F3]].
  pose proof (filter_backend cls Hcls) as F4.
  unfold retried_only_primary. repeat split.
  - apply Forall_app. split; [exact Hfor |].
    apply Forall_app. split.
    + revert Hcls. apply Forall_impl. intros e. apply backend_for_message.
    + repeat constructor.
  - rewrite !filter_app, F1, F4. exact Hnodup.
  - rewrite !filter_app, F2, !length_app. simpl. lia.
  - now rewrite !filter_app, F3, Ha.
Qed.

Ltac turn_of t :=
  match goal with
  | Hshape : forall turn, _ -> _ -> _ -> exists _, _ |- _ =>
      apply (Hshape t);
      [ simpl; congruence
      | repeat constructor
      | repeat constructor; simpl; intuition discriminate ]
  end.

Section RequestTurns.
Context {platform : Platform}.

Lemma process_turn (email : string) (w w' : World) (r : Thrown + EmailData) :
  SingleBackend.process email w = (r, w') ->
  exists turn, trace w' = turn ++ trace w /\ retried_only_primary email turn.
Proof.
  unfold SingleBackend.process. intros H.
  assert (Hshape :
            forall g cls,
              trace w' = g ++ cls ++ GmailCall (MessagesGet email) :: trace w ->
              Forall (fun e => is_gmail e = false) cls ->
              filter is_anthropic cls = [] ->
              length (filter is_gemini cls) <= S SingleBackend.maxRetries ->
              Forall (fun e => is_gmail e = true) g ->
              Forall (for_message email) g ->
              NoDup (g ++ [GmailCall (MessagesGet email)]) ->
              exists turn,
                trace w' = turn ++ trace w /\ retried_only_primary email turn).
  { intros g cls Ht C1 C2 C3 G1 G2 G3.
    exists (g ++ cls ++ [GmailCall (MessagesGet email)]). split.
    - rewrite Ht, <- !app_assoc. reflexivity.
    - now apply single_turn_shape. }
  apply bind_run in H as [[e [Hget _]] | [m [w1 [Hget H]]]];
    apply made_get in Hget.
  { apply (Hshape [] []); simpl; try lia; try constructor;
      [exact Hget | intros [] | constructor]. }
  cbv zeta in H.
  apply bind_run in H as [[e [Hcl _]] | [c [w2 [Hcl H]]]];
    apply made_retry in Hcl as [cls [Hcl [C1 [C2 C3]]]].
  { apply (Hshape [] cls); try assumption; try constructor;
      [simpl; now rewrite Hcl, Hget | intros [] | constructor]. }
  apply bind_run in H as [[e [Hen _]] | [labelId [w3 [Hen H]]]];
    apply made_ensure in Hen.
  { destruct Hen as [Hen | Hen].
    - apply (Hshape [GmailCall LabelsList] cls); try assumption.
      + simpl. now rewrite Hen, Hcl, Hget.
      + repeat constructor.
      + repeat constructor.
      + repeat constructor; simpl; intuition discriminate.
    - apply (Hshape [GmailCall (LabelsCreate c); GmailCall LabelsList] cls);
        try assumption.
      + simpl. now rewrite Hen, Hcl, Hget.
      + repeat constructor.
      + repeat constructor.
      + repeat constructor; simpl; intuition discriminate. }
  assert (Hlast : exists r0, messages_modify email [labelId] ["UNREAD"] w3
                             = (r0, w')).
  { apply bind_run in H as [[e [Hm _]] | [u [w4 [Hm H]]]].
    - now exists (inl e).
    - unfold ret in H. inversion H. subst. now exists (inr u). }
  destruct Hlast as [r0 Hm]. apply made_modify in Hm.
  destruct Hen as [Hen | Hen].
  - apply (Hshape [GmailCall (MessagesModify email [labelId] ["UNREAD"]);
                   GmailCall LabelsList] cls); try assumption.
    + simpl. now rewrite Hm, Hen, Hcl, Hget.
    + repeat constructor.
    + repeat constructor.
    + repeat constructor; simpl; intuition discriminate.
  - apply (Hshape [GmailCall (MessagesModify email [labelId] ["UNREAD"]);
                   GmailCall (LabelsCreate c); GmailCall LabelsList] cls);
      try assumption.
    + simpl. now rewrite Hm, Hen, Hcl, Hget.
    + repeat constructor.
    + repeat constructor.
    + repeat constructor; simpl; intuition discriminate.
Qed.

Lemma pipeline_turn (email : string) (w w' : World) (r : Thrown + EmailData) :
  TwoTier.pipeline email w = (r, w') ->
  exists turn, trace w' = turn ++ trace w /\ nothing_retried email turn.
Proof.
  unfold TwoTier.pipeline. intros H.
  assert (Hshape :
            forall turn,
              trace w' = turn ++ trace w ->
              Forall (for_message email) turn -> NoDup turn ->
              exists turn,
                trace w' = turn ++ trace w /\ nothing_retried email turn).
  { intros turn Ht F N. exists turn. now repeat split. }
  apply bind_run in H as [[e [Hget _]] | [m [w1 [Hget H]]]];
    apply made_get in Hget.
  { turn_of [GmailCall (MessagesGet email)]. }
  cbv zeta in H.
  apply bind_run in H as [[e [Hcl _]] | [x [w2 [Hcl H]]]].
  { assert (Ht : trace w' = AnthropicCall :: trace w1 \/
                 trace w' = GeminiCall :: AnthropicCall :: trace w1).
    { match type of Hcl with
      | TwoTier.classifyEmail ?s ?f ?b w1 = _ =>
          destruct (classify_frame s f b w1) as [x [w2 [E [_ Ht]]]]
      end.
      rewrite E in Hcl. discriminate. }
    destruct Ht as [Ht | Ht].
    - turn_of [AnthropicCall; GmailCall (MessagesGet email)].
    - turn_of [GeminiCall; AnthropicCall; GmailCall (MessagesGet email)]. }
  assert (Ht : trace w2 = AnthropicCall :: trace w1 \/
               trace w2 = GeminiCall :: AnthropicCall :: trace w1).
  { match type of Hcl with
    | TwoTier.classifyEmail ?s ?f ?b w1 = _ =>
        destruct (classify_frame s f b w1) as [x0 [w0 [E [_ Ht]]]]
    end.
    rewrite E in Hcl. inversion Hcl. subst.
    destruct Ht as [[_ Ht] | [_ Ht]]; [now left | now right]. }
  set (c := TwoTier.result_category x) in *.
  apply bind_run in H as [[e [Hen _]] | [labelId [w3 [Hen H]]]];
    apply made_ensure in Hen.
  { destruct Ht as [Ht | Ht]; destruct Hen as [Hen | Hen].
    - turn_of [GmailCall LabelsList; AnthropicCall;
               GmailCall (MessagesGet email)].
    - turn_of [GmailCall (LabelsCreate c); GmailCall LabelsList;
               AnthropicCall; GmailCall (MessagesGet email)].
    - turn_of [GmailCall LabelsList; GeminiCall; AnthropicCall;
               GmailCall (MessagesGet email)].
    - turn_of [GmailCall (LabelsCreate c); GmailCall LabelsList;
               GeminiCall; AnthropicCall; GmailCall (MessagesGet email)]. }
  assert (Hlast : exists r0, messages_modify email [labelId] ["UNREAD"] w3
                             = (r0, w')).
  { apply bind_run in H as [[e [Hm _]] | [u [w4 [Hm H]]]].
    - now exists (inl e).
    - unfold ret in H. inversion H. subst. now exists (inr u). }
  destruct Hlast as [r0 Hm]. apply made_modify in Hm.
  destruct Ht as [Ht | Ht]; destruct Hen as [Hen | Hen].
  - turn_of [GmailCall (MessagesModify email [labelId] ["UNREAD"]);
             GmailCall LabelsList; AnthropicCall;
             GmailCall (MessagesGet email)].
  - turn_of [GmailCall (MessagesModify email [labelId] ["UNREAD"]);
             GmailCall (LabelsCreate c); GmailCall LabelsList;
             AnthropicCall; GmailCall (MessagesGet email)].
  - turn_of [GmailCall (MessagesModify email [labelId] ["UNREAD"]);
             GmailCall LabelsList; GeminiCall; AnthropicCall;
             GmailCall (MessagesGet email)].
  - turn_of [GmailCall (MessagesModify email [labelId] ["UNREAD"]);
             GmailCall (LabelsCreate c); GmailCall LabelsList;
             GeminiCall; AnthropicCall; GmailCall (MessagesGet email)].
Qed.

Lemma processSingleEmail_turn (email : string) (w w' : World)
      (r : Thrown + EmailData) :
  TwoTier.processSingleEmail email w = (r, w') ->
  exists turn, trace w' = turn ++ trace w /\ nothing_retried email turn.
Proof.
  rewrite processSingleEmail_run.
  destruct (TwoTier.pipeline email w) as [[e | x] w0] eqn:Hrun;
    intros H; inversion H; subst; eapply pipeline_turn; eassumption.
Qed.

Lemma single_all_turns (emails : list string) :
  forall (acc : list EmailData) (w w' : World) (r : Thrown + list EmailData),
    SingleBackend.process_all emails acc w = (r, w') ->
    exists turns,
      trace w' = concat turns ++ trace w /\
      Forall2 retried_only_primary (rev emails) turns.
Proof.
  induction emails as [| email emails IH]; intros acc w w' r H.
  - simpl in H. unfold ret in H. inversion H. exists [].
    split; [reflexivity | constructor].
  - cbn [SingleBackend.process_all] in H.
    assert (Hturn :
              forall x w1,
                try_catch (SingleBackend.process email)
                          (fun error => ret (failed email error)) w = (x, w1) ->
                exists turn,
                  trace w1 = turn ++ trace w /\
                  retried_only_primary email turn).
    { intros x w1. unfold try_catch.
      destruct (SingleBackend.process email w) as [[e0 | r0] w0] eqn:Hrun;
        unfold ret; intros Hp; inversion Hp; subst;
        eapply process_turn; eassumption. }
    apply bind_run in H as [[e [Hp _]] | [res [w1 [Hp H]]]].
    + exfalso. revert Hp. unfold try_catch, ret.
      now destruct (SingleBackend.process email w) as [[e0 | r0] w0].
    + apply Hturn in Hp as [turn [Ht Hok]].
      destruct (IH _ _ _ _ H) as [turns [Hts Hall]].
      exists (turns ++ [turn]). split.
      * rewrite Hts, Ht, concat_app. simpl.
        now rewrite app_nil_r, app_assoc.
      * simpl. apply Forall2_app; [exact Hall |].
        constructor; [exact Hok | constructor].
Qed.

Lemma process_all_turns (emails : list string) :
  forall (acc : list EmailData) (w w' : World) (r : Thrown + list EmailData),
    TwoTier.process_all emails acc w = (r, w') ->
    exists turns,
      trace w' = concat turns ++ trace w /\
      Forall2 nothing_retried (rev emails) turns.
Proof.
  induction emails as [| email emails IH]; intros acc w w' r H.
  - simpl in H. unfold ret in H. inversion H. exists [].
    split; [reflexivity | constructor].
  - cbn [TwoTier.process_all] in H.
    assert (Hturn :
              forall x w1,
                try_catch (TwoTier.processSingleEmail email)
                          (fun error => ret (failed email error)) w = (x, w1) ->
                exists turn,
                  trace w1 = turn ++ trace w /\ nothing_retried email turn).
    { intros x w1. unfold try_catch.
      destruct (TwoTier.processSingleEmail email w) as [[e0 | r0] w0]
        eqn:Hrun;
        unfold ret; intros Hp; inversion Hp; subst;
        eapply processSingleEmail_turn; eassumption. }
    apply bind_run in H as [[e [Hp _]] | [res [w1 [Hp H]]]].
    + exfalso. revert Hp. unfold try_catch, ret.
      now destruct (TwoTier.processSingleEmail email w) as [[e0 | r0] w0].
    + apply Hturn in Hp as [turn [Ht Hok]].
      destruct (IH _ _ _ _ H) as [turns [Hts Hall]].
      exists (turns ++ [turn]). split.
      * rewrite Hts, Ht, concat_app. simpl.
        now rewrite app_nil_r, app_assoc.
      * simpl. apply Forall2_app; [exact Hall |].
        constructor; [exact Hok | constructor].
Qed.

Lemma listing_turn (w w' : World) (r : Thrown + (string * list string)) :
  TwoTier.listing w = (r, w') ->
  exists q,
    trace w' = GmailCall (MessagesList q MAX_EMAILS) :: GmailCall LabelsList
                 :: GmailCall GetProfile :: trace w /\
    forall userEmail emails,
      r = inr (userEmail, emails) ->
      emails = firstn MAX_EMAILS (search w q).
Proof.
  unfold TwoTier.listing. intros H.
  assert (Hprofile :
            forall (x : Thrown + string) (v : World),
              try_catch (bind getProfile
                           (fun profile => ret (or_else profile EmptyString)))
                        (fun e => ret EmptyString) w = (x, v) ->
              (exists user, x = inr user) /\
              trace v = GmailCall GetProfile :: trace w /\
              search v = search w).
  { intros x v. unfold try_catch, bind, getProfile, gmail_call.
    destruct (gmail_fault w (calls is_gmail w)); unfold ret; intros Hx;
      inversion Hx; (split; [eexists; reflexivity | now split]). }
  assert (Hnames :
            forall (x : Thrown + list string) (u v : World),
              TwoTier.getCustomLabelNames u = (x, v) ->
              (exists names, x = inr names) /\
              trace v = GmailCall LabelsList :: trace u /\
              search v = search u).
  { intros x u v. rewrite getCustomLabelNames_run. intros Hx. inversion Hx.
    split; [eexists; reflexivity | now split]. }
  apply bind_run in H as [[e [H1 _]] | [user [w1 [H1 H]]]];
    apply Hprofile in H1 as [[user' Hu] [T1 S1]]; [discriminate |].
  apply bind_run in H as [[e [H2 _]] | [names [w2 [H2 H]]]];
    apply Hnames in H2 as [[names' Hn] [T2 S2]]; [discriminate |].
  cbv zeta in H.
  exists (TwoTier.build_query names).
  apply bind_run in H as [[e [Hm ->]] | [emails [w3 [Hm H]]]];
    apply made_messages_list in Hm as [T3 Hfirst].
  - split; [congruence | discriminate].
  - unfold ret in H. inversion H. subst. split; [congruence |].
    intros userEmail emails' Heq. inversion Heq. subst.
    rewrite (Hfirst emails' eq_refl). congruence.
Qed.

Lemma try_catch_snd {A} (m : M A) (v : A) (w : World) :
  snd (try_catch m (fun _ => ret v) w) = snd (m w).
Proof. unfold try_catch, ret. now destruct (m w) as [[e | a] w0]. Qed.

Lemma single_post_turns (request : Thrown + RequestBody) (w : World) :
  let w' := snd (SingleBackend.POST request w) in
  trace w' = trace w \/
  exists ids turns,
    trace w' = concat turns
                 ++ GmailCall (MessagesList "is:unread" 2) :: trace w /\
    (ids = [] \/ ids = firstn 2 (search w "is:unread")) /\
    Forall2 retried_only_primary (rev ids) turns.
Proof.
  cbv zeta. unfold SingleBackend.POST. rewrite try_catch_snd.
  destruct request as [e | request]; [now left |].
  destruct (negb (truthy (accessToken request))); [now left |].
  right. unfold bind at 1.
  destruct (messages_list "is:unread" 2 w) as [[e | emails] w1] eqn:Hlist;
    apply made_messages_list in Hlist as [Ht Hfirst].
  - exists [], []. simpl. repeat split; [exact Ht | now left | constructor].
  - unfold bind.
    destruct (SingleBackend.process_all emails [] w1) as [rs w2] eqn:Hrun.
    apply single_all_turns in Hrun as [turns [Hts Hall]].
    exists emails, turns. split; [| split].
    + destruct rs; simpl; now rewrite Hts, Ht.
    + right. now apply Hfirst.
    + exact Hall.
Qed.

Lemma two_backend_post_turns (request : Thrown + RequestBody) (w : World) :
  let w' := snd (TwoTier.POST request w) in
  trace w' = trace w \/
  exists q ids turns,
    trace w' = concat turns
                 ++ GmailCall (MessagesList q MAX_EMAILS)
                 :: GmailCall LabelsList :: GmailCall GetProfile :: trace w /\
    (ids = [] \/
     exists body,
       request = inr body /\
       ids = worked body (firstn MAX_EMAILS (search w q))) /\
    Forall2 nothing_retried (rev ids) turns.
Proof.
  cbv zeta. unfold TwoTier.POST. rewrite try_catch_snd.
  destruct request as [e | request]; [now left |].
  destruct (negb (truthy (accessToken request))); [now left |].
  right. unfold bind at 1.
  destruct (TwoTier.listing w) as [[e | [user emails]] w1] eqn:Hlist;
    apply listing_turn in Hlist as [q [Ht Hfirst]]; exists q.
  - exists [], []. simpl. repeat split; [exact Ht | now left | constructor].
  - pose proof (Hfirst user emails eq_refl) as He.
    destruct (truthy (emailId request)) eqn:Hid.
    + destruct (find (fun email =>
                        String.eqb email
                                   (or_else (emailId request) EmptyString))
                     emails) as [target |] eqn:Hfind.
      * unfold bind.
        destruct (TwoTier.processSingleEmail target w1) as [rs w2] eqn:Hrun.
        apply processSingleEmail_turn in Hrun as [turn [Hts Hok]].
        exists [target], [turn]. split; [| split].
        -- destruct rs; simpl; now rewrite Hts, Ht, app_nil_r.
        -- right. exists request. split; [reflexivity |].
           unfold worked. now rewrite Hid, <- He, Hfind.
        -- simpl. constructor; [exact Hok | constructor].
      * exists [], []. simpl.
        repeat split; [exact Ht | now left | constructor].
    + unfold bind.
      destruct (TwoTier.process_all emails [] w1) as [rs w2] eqn:Hrun.
      apply process_all_turns in Hrun as [turns [Hts Hall]].
      exists emails, turns. split; [| split].
      * destruct rs; simpl; now rewrite Hts, Ht.
      * right. exists request. split; [reflexivity |].
        unfold worked. now rewrite Hid, <- He.
      * exact Hall.
Qed.

Lemma page_requests (message : nat -> N -> Q -> string)
      (check : Thrown + Page.AuthData)
      (gmail : option string -> Thrown + (bool * Page.GmailData))
      (s : Page.State) :
  NoDup (snd (Page.handleLabelInbox message check gmail s)).
Proof.
  unfold Page.handleLabelInbox.
  destruct check as [e | authData]; simpl.
  - repeat constructor. simpl. tauto.
  - destruct (negb (Page.authenticated authData)); simpl;
      repeat constructor; simpl; intuition discriminate.
Qed.

(** C2, as amended.  [classifyEmail] of the single-backend route calls the
    primary backend once and, as long as the reply carries no valid
    category or the call fails, up to two more times; it returns the category
    of the first valid reply, and the default only after the third attempt.
    A pause of 1000 ms precedes a retry only when the attempt before it
    failed in transport; after an invalid or empty reply the next attempt
    follows at once.  No other operation is retried.  A request to the
    single-backend route either calls nothing or lists the messages once and
    then takes the listed messages in turn: for each of them no call to the
    mail provider is made twice, the primary backend is called at most three
    times and the secondary backend never.  A request to the two-backend
    route either calls nothing or makes its three listing calls once each and
    then takes the messages it works on in turn: for each of them no call, to
    the mail provider or to a backend, is made twice.  The page sends none of
    its requests twice when the inbox is to be labelled. *)
Theorem bounded_retry (subject from body : string)
        (request : Thrown + RequestBody) (w : World)
        (message : nat -> N -> Q -> string)
        (check : Thrown + Page.AuthData)
        (gmail : option string -> Thrown + (bool * Page.GmailData))
        (s : Page.State) :
  (let n := calls is_gemini w in
   let r0 := gemini_reply w n in
   let r1 := gemini_reply w (S n) in
   let r2 := gemini_reply w (S (S n)) in
   SingleBackend.classifyEmail subject from body w =
   match primary_verdict r0 with
   | Some c => (inr c, with_trace (GeminiCall :: trace w) w)
   | None =>
       match primary_verdict r1 with
       | Some c =>
           (inr c,
            with_trace (GeminiCall :: pause r0 ++ GeminiCall :: trace w) w)
       | None =>
           (inr match primary_verdict r2 with
                | Some c => c
                | None => "Personal"
                end,
            with_trace (GeminiCall :: pause r1 ++ GeminiCall
                          :: pause r0 ++ GeminiCall :: trace w) w)
       end
   end)
  /\
  (let w' := snd (SingleBackend.POST request w) in
   trace w' = trace w \/
   exists ids turns,
     trace w' = concat turns
                  ++ GmailCall (MessagesList "is:unread" 2) :: trace w /\
     (ids = [] \/ ids = firstn 2 (search w "is:unread")) /\
     Forall2 retried_only_primary (rev ids) turns)
  /\
  (let w' := snd (TwoTier.POST request w) in
   trace w' = trace w \/
   exists q ids turns,
     trace w' = concat turns
                  ++ GmailCall (MessagesList q MAX_EMAILS)
                  :: GmailCall LabelsList :: GmailCall GetProfile
                  :: trace w /\
     (ids = [] \/
      exists body,
        request = inr body /\
        ids = worked body (firstn MAX_EMAILS (search w q))) /\
     Forall2 nothing_retried (rev ids) turns)
  /\
  NoDup (snd (Page.handleLabelInbox message check gmail s)).
Proof.
  split; [| split; [| split]].
  - cbv zeta. rewrite retry_run. cbv zeta.
    destruct (primary_verdict (gemini_reply w (calls is_gemini w)));
      [reflexivity |].
    destruct (primary_verdict (gemini_reply w (S (calls is_gemini w))));
      [reflexivity |].
    now destruct (primary_verdict
                    (gemini_reply w (S (S (calls is_gemini w))))).
  - exact (single_post_turns request w).
  - exact (two_backend_post_turns request w).
  - exact (page_requests message check gmail s).
Qed.

End RequestTurns.
